(** * A shallow embedding of the congestion-control simulator [sim_core.py]

    The simulator is a fluid, discrete time-step model: [Flow] holds one
    flow's congestion window and its update rule, [Switch] is a bounded
    FIFO byte queue with a marking threshold, and [Simulator] couples the
    two in a fixed per-step order.

    Number model.  Python's [float] values are embedded as exact rationals
    [Q]; the one infinite value the program uses, [float('inf')] for the
    size of a long-lived flow, is a constructor of its own ([PosInf]).
    Rounding, overflow and NaN are therefore outside the model, but for
    the one place where a float becomes a count: the number of steps of a
    run is [int] of a float quotient, and that quotient is an argument of
    [run], not computed here.  Python's [int] values are [Z].  Comparisons are the boolean tests the program
    executes ([>], [<], [>=], [==]), and [max]/[min] are written the way
    the built-ins select their result.

    Randomness.  The NumPy generator is an argument of the constructor and
    no part of this repository; it is taken here as an abstract state type
    with the three draws the simulator performs (class [Generator]).

    Objects.  A [Flow] object is held by one list of one simulator at a
    time (the drivers construct a flow per [add_flow]), so flows are plain
    values and the in-place assignments of the loops become a new list. *)

From Stdlib Require Import QArith Qminmax ZArith List String Bool Lia Lqa
  Permutation Sorted.
Import ListNotations.

Open Scope Q_scope.

(** ** Python arithmetic on the number model *)

(** [a < b] on floats. *)
Definition Qltb (a b : Q) : bool :=
  (Qnum a * QDen b <? Qnum b * QDen a)%Z.

(** [a > b] on floats. *)
Definition Qgtb (a b : Q) : bool := Qltb b a.

(** [a >= b] on floats. *)
Definition Qgeb (a b : Q) : bool := Qle_bool b a.

(** Truth value of a float: everything but zero. *)
Definition truthy (a : Q) : bool := negb (Qeq_bool a 0).

(** [max(a, b)]: the first argument is kept unless a later one is
    strictly greater. *)
Definition pymax (a b : Q) : Q := if Qgtb b a then b else a.

(** [min(a, b)]: the first argument is kept unless a later one is
    strictly smaller. *)
Definition pymin (a b : Q) : Q := if Qltb b a then b else a.

(** [int(x)]: truncation towards zero. *)
Definition int_of_float (x : Q) : Z := Z.quot (Qnum x) (QDen x).

(** A float that may be [float('inf')]. *)
Inductive xfloat : Type :=
| Fin (q : Q)
| PosInf.

(** [x < float('inf')]. *)
Definition lt_inf (x : xfloat) : bool :=
  match x with Fin _ => true | PosInf => false end.

(** [a >= x] for a finite [a]. *)
Definition geb_x (a : Q) (x : xfloat) : bool :=
  match x with Fin q => Qgeb a q | PosInf => false end.

(** ** Module constants *)

Definition PKT_BYTES : Z := 1500.
Definition LINK_RATE_GBPS : Z := 10.
Definition LINK_RATE_BPS : Q := inject_Z LINK_RATE_GBPS * 1e9.
Definition LINK_RATE_BYTES_PER_MS : Q := LINK_RATE_BPS / 8 / 1000.

(** ** class Flow *)

Module Flow.

Record t : Type := mk {
  fid : Z;
  cc : string;
  cwnd : Q;
  rtt_base_ms : Q;
  size_bytes : xfloat;
  sent_bytes : Q;
  alpha : Q;
  g : Q;
  rtt_smooth : Q;
  finished : bool;
  start_time_ms : option Q;
  finish_time_ms : option Q
}.

(** [Flow.__init__] *)
Definition init (fid : Z) (cc : string) (rtt_base_ms : Q)
    (size_bytes : xfloat) : t :=
  {| fid := fid; cc := cc;
     cwnd := 10.0; rtt_base_ms := rtt_base_ms;
     size_bytes := size_bytes; sent_bytes := 0.0;
     alpha := 0.0; g := 1 / 16;
     rtt_smooth := 0.0;
     finished := false;
     start_time_ms := None;
     finish_time_ms := None |}.

(** Attribute assignments. *)
Definition set_cwnd (f : t) (v : Q) : t :=
  mk (fid f) (cc f) v (rtt_base_ms f) (size_bytes f) (sent_bytes f)
     (alpha f) (g f) (rtt_smooth f) (finished f) (start_time_ms f)
     (finish_time_ms f).

Definition set_alpha (f : t) (v : Q) : t :=
  mk (fid f) (cc f) (cwnd f) (rtt_base_ms f) (size_bytes f) (sent_bytes f)
     v (g f) (rtt_smooth f) (finished f) (start_time_ms f)
     (finish_time_ms f).

Definition set_rtt_smooth (f : t) (v : Q) : t :=
  mk (fid f) (cc f) (cwnd f) (rtt_base_ms f) (size_bytes f) (sent_bytes f)
     (alpha f) (g f) v (finished f) (start_time_ms f)
     (finish_time_ms f).

Definition set_sent_bytes (f : t) (v : Q) : t :=
  mk (fid f) (cc f) (cwnd f) (rtt_base_ms f) (size_bytes f) v
     (alpha f) (g f) (rtt_smooth f) (finished f) (start_time_ms f)
     (finish_time_ms f).

Definition set_start_time_ms (f : t) (v : option Q) : t :=
  mk (fid f) (cc f) (cwnd f) (rtt_base_ms f) (size_bytes f) (sent_bytes f)
     (alpha f) (g f) (rtt_smooth f) (finished f) v
     (finish_time_ms f).

(** [flow.finished, flow.finish_time_ms = True, t] *)
Definition set_finished (f : t) (t_ms : Q) : t :=
  mk (fid f) (cc f) (cwnd f) (rtt_base_ms f) (size_bytes f) (sent_bytes f)
     (alpha f) (g f) (rtt_smooth f) true (start_time_ms f)
     (Some t_ms).

Definition _reno_update (f : t) (ecn_frac : Q) (loss : bool) : t :=
  if loss || Qgtb ecn_frac 0 then
    set_cwnd f (pymax (cwnd f / 2) 2)
  else
    set_cwnd f (cwnd f + 0.1 * cwnd f).

Definition _dctcp_update (f : t) (ecn_frac : Q) : t :=
  let f := set_alpha f ((1 - g f) * alpha f + g f * ecn_frac) in
  if Qgtb ecn_frac 0 then
    set_cwnd f (pymax (cwnd f * (2 - alpha f) / 2) 2)
  else
    set_cwnd f (cwnd f + 0.1 * cwnd f).

Definition _spacecc_update (f : t) (rtt_ms queue_ms ecn_frac : Q)
    (loss : bool) : t :=
  let f :=
    if Qeq_bool (rtt_smooth f) 0 then
      set_rtt_smooth f rtt_ms
    else
      set_rtt_smooth f (0.9 * rtt_smooth f + 0.1 * rtt_ms) in
  let rtt_ratio := rtt_smooth f / pymax (rtt_base_ms f) 0.01 in
  if Qgtb rtt_ratio 1.25 then
    set_cwnd f (pymax (cwnd f * 0.5) 2)
  else
    set_cwnd f (cwnd f + cwnd f * 0.5 * (0.1 / pymax rtt_ms 0.1)).

Definition on_ack (f : t) (rtt_ms queue_ms ecn_frac : Q) (loss : bool) : t :=
  if String.eqb (cc f) "reno" then
    _reno_update f ecn_frac loss
  else if String.eqb (cc f) "dctcp" then
    _dctcp_update f ecn_frac
  else if String.eqb (cc f) "spacecc" then
    _spacecc_update f rtt_ms queue_ms ecn_frac loss
  else f.

(** Property [rate_bytes_per_ms]. *)
Definition rate_bytes_per_ms (f : t) : Q :=
  let rtt := pymax (rtt_base_ms f) 0.01 in
  cwnd f * inject_Z PKT_BYTES / rtt.

End Flow.

(** ** class Switch *)

Module Switch.

Record t : Type := mk {
  buffer_bytes : Z;
  ecn_thresh_bytes : Z;
  queue_bytes : Q;
  total_served_bytes : Q;
  ecn_marked : Z;
  ecn_total : Z
}.

(** [Switch.__init__]; the defaults are [buffer_pkts = 300] and
    [ecn_thresh_pkts = 30]. *)
Definition init (buffer_pkts ecn_thresh_pkts : Z) : t :=
  {| buffer_bytes := buffer_pkts * PKT_BYTES;
     ecn_thresh_bytes := ecn_thresh_pkts * PKT_BYTES;
     queue_bytes := 0.0;
     total_served_bytes := 0.0;
     ecn_marked := 0;
     ecn_total := 0 |}.

Definition default : t := init 300 30.

Definition set_queue_bytes (s : t) (v : Q) : t :=
  mk (buffer_bytes s) (ecn_thresh_bytes s) v (total_served_bytes s)
     (ecn_marked s) (ecn_total s).

Definition set_total_served_bytes (s : t) (v : Q) : t :=
  mk (buffer_bytes s) (ecn_thresh_bytes s) (queue_bytes s) v
     (ecn_marked s) (ecn_total s).

(** The returned boolean is the method's result, the switch its state
    afterwards. *)
Definition enqueue (s : t) (bytes_in : Q) : bool * t :=
  if Qgtb (queue_bytes s + bytes_in) (inject_Z (buffer_bytes s)) then
    (false, s)
  else
    (true, set_queue_bytes s (queue_bytes s + bytes_in)).

Definition dequeue (s : t) (dt_ms : Q) : Q * t :=
  let can_serve := LINK_RATE_BYTES_PER_MS * dt_ms in
  let served := pymin (queue_bytes s) can_serve in
  let s := set_queue_bytes s (queue_bytes s - served) in
  let s := set_total_served_bytes s (total_served_bytes s + served) in
  (served, s).

Definition queue_delay_ms (s : t) : Q :=
  if truthy LINK_RATE_BYTES_PER_MS then
    queue_bytes s / LINK_RATE_BYTES_PER_MS
  else 0.

Definition ecn_fraction (s : t) : Q :=
  if Qgtb (queue_bytes s) (inject_Z (ecn_thresh_bytes s)) then 1.0 else 0.0.

End Switch.

(** ** The output records *)

Module Metrics.

Record t : Type := mk {
  time_ms : Q;
  queue_bytes : Q;
  queue_delay_ms : Q;
  util : Q;
  served_bytes : Q
}.

End Metrics.

Module FCTRecord.

Record t : Type := mk {
  fid : Z;
  cc : string;
  size_bytes : xfloat;
  fct_ms : Q
}.

End FCTRecord.

(** ** The random generator

    [exponential scale], [normal loc scale] and [random ()] of a NumPy
    generator: each draw returns a sample and the generator's next state. *)

Class Generator (G : Type) : Type := {
  exponential : Q -> G -> Q * G;
  normal : Q -> Q -> G -> Q * G;
  random : G -> Q * G
}.

(** ** Exceptions

    A computation is [None] when the Python code raises.  The simulator
    raises on arithmetic or comparison with a start time that is still
    [None] ([TypeError]: the admission loop, the sort, the completion
    record) and on its two divisions by a caller's parameter
    ([ZeroDivisionError]: [1000.0 / lam_per_sec] and
    [duration_ms / dt_ms]). *)

Definition bind {A B : Type} (m : option A) (k : A -> option B) : option B :=
  match m with
  | Some a => k a
  | None => None
  end.

Notation "x <- m ;; k" := (bind m (fun x => k))
  (at level 61, m at next level, right associativity).
Notation "' p <- m ;; k" := (bind m (fun p => k))
  (at level 61, p pattern, m at next level, right associativity).

(** ** Calls of [on_ack], as the feedback phase issues them

    The step function returns, next to the new state, the list of the
    [on_ack] calls it made: the receiving flow as it was before the call,
    and the four arguments.  The list is an observation of the run and
    feeds nothing back into it. *)

Module AckCall.

Record t : Type := mk {
  receiver : Flow.t;
  rtt_ms : Q;
  queue_ms : Q;
  ecn_frac : Q;
  loss : bool
}.

End AckCall.

(** ** class Simulator *)

Module Simulator.

Section WithGenerator.

Context {G : Type} `{Generator G}.

Record t : Type := mk {
  dt_ms : Q;
  duration_ms : Q;
  switch : Switch.t;
  rng : G;
  flows : list Flow.t;
  metrics : list Metrics.t;
  fct_records : list FCTRecord.t;
  short_flow_queue : list Flow.t;
  _time_ms : Q;
  outage_active : bool;
  outage_prob : Q;
  outage_duration_ms : Q;
  _outage_end_ms : Q;
  rtt_jitter_std_ms : Q
}.

(** [Simulator.__init__]: [switch or Switch()].  The generator is
    mandatory here: the fallback [np.random.default_rng()] seeds itself
    from the operating system and has no counterpart in the model. *)
Definition init (dt_ms duration_ms : Q) (switch : option Switch.t)
    (rng : G) : t :=
  {| dt_ms := dt_ms;
     duration_ms := duration_ms;
     switch := match switch with Some sw => sw | None => Switch.default end;
     rng := rng;
     flows := [];
     metrics := [];
     fct_records := [];
     short_flow_queue := [];
     _time_ms := 0.0;
     outage_active := false;
     outage_prob := 0.0;
     outage_duration_ms := 0.0;
     _outage_end_ms := - 1.0;
     rtt_jitter_std_ms := 0.0 |}.

(** Attribute assignments. *)
Definition set_rng (s : t) (v : G) : t :=
  mk (dt_ms s) (duration_ms s) (switch s) v (flows s) (metrics s)
     (fct_records s) (short_flow_queue s) (_time_ms s) (outage_active s)
     (outage_prob s) (outage_duration_ms s) (_outage_end_ms s)
     (rtt_jitter_std_ms s).

Definition set_flows (s : t) (v : list Flow.t) : t :=
  mk (dt_ms s) (duration_ms s) (switch s) (rng s) v (metrics s)
     (fct_records s) (short_flow_queue s) (_time_ms s) (outage_active s)
     (outage_prob s) (outage_duration_ms s) (_outage_end_ms s)
     (rtt_jitter_std_ms s).

Definition set_short_flow_queue (s : t) (v : list Flow.t) : t :=
  mk (dt_ms s) (duration_ms s) (switch s) (rng s) (flows s) (metrics s)
     (fct_records s) v (_time_ms s) (outage_active s)
     (outage_prob s) (outage_duration_ms s) (_outage_end_ms s)
     (rtt_jitter_std_ms s).

Definition set_outage_active (s : t) (v : bool) : t :=
  mk (dt_ms s) (duration_ms s) (switch s) (rng s) (flows s) (metrics s)
     (fct_records s) (short_flow_queue s) (_time_ms s) v
     (outage_prob s) (outage_duration_ms s) (_outage_end_ms s)
     (rtt_jitter_std_ms s).

Definition set_outage_end_ms (s : t) (v : Q) : t :=
  mk (dt_ms s) (duration_ms s) (switch s) (rng s) (flows s) (metrics s)
     (fct_records s) (short_flow_queue s) (_time_ms s) (outage_active s)
     (outage_prob s) (outage_duration_ms s) v
     (rtt_jitter_std_ms s).

(** The three run parameters the drivers assign after construction. *)
Definition set_outage_params (s : t) (prob duration jitter_std : Q) : t :=
  mk (dt_ms s) (duration_ms s) (switch s) (rng s) (flows s) (metrics s)
     (fct_records s) (short_flow_queue s) (_time_ms s) (outage_active s)
     prob duration (_outage_end_ms s) jitter_std.

Definition add_flow (s : t) (flow : Flow.t) : t :=
  let flow := Flow.set_start_time_ms flow (Some (_time_ms s)) in
  set_flows s (flows s ++ [flow]).

(** *** [schedule_short_flows] *)

(** The [while t < self.duration_ms] loop.  Its number of iterations is
    governed by the generator's samples, so the loop carries a bound
    [fuel] on them; [None] means the bound was hit, or the division
    [1000.0 / lam_per_sec] in the loop body raised. *)
Fixpoint schedule_loop (fuel : nat) (duration lam_per_sec : Q)
    (size_bytes : xfloat) (cc : string) (rtt_base_ms : Q)
    (t_ms : Q) (fid : Z) (r : G) (queue : list Flow.t)
    : option (G * list Flow.t) :=
  if Qltb t_ms duration then
    match fuel with
    | O => None
    | S fuel' =>
        if Qeq_bool lam_per_sec 0 then None
        else
          let (gap_ms, r) := exponential (1000.0 / lam_per_sec) r in
          let t_ms := t_ms + gap_ms in
          if Qltb t_ms duration then
            let f := Flow.init fid cc rtt_base_ms size_bytes in
            let f := Flow.set_start_time_ms f (Some t_ms) in
            schedule_loop fuel' duration lam_per_sec size_bytes cc rtt_base_ms
              t_ms (fid + 1)%Z r (queue ++ [f])
          else
            schedule_loop fuel' duration lam_per_sec size_bytes cc rtt_base_ms
              t_ms fid r queue
    end
  else Some (r, queue).

(** [list.sort(key=...)] is stable and orders by [<] on the keys: each
    element is placed behind the elements of smaller key only. *)
Fixpoint insert_by_key (k : Q) (f : Flow.t) (l : list (Q * Flow.t))
    : list (Q * Flow.t) :=
  match l with
  | [] => [(k, f)]
  | (k', f') :: l' =>
      if Qltb k' k then (k', f') :: insert_by_key k f l'
      else (k, f) :: (k', f') :: l'
  end.

Fixpoint sort_keyed (l : list (Q * Flow.t)) : list (Q * Flow.t) :=
  match l with
  | [] => []
  | (k, f) :: l' => insert_by_key k f (sort_keyed l')
  end.

(** The keys of the sort, [f.start_time_ms]. *)
Fixpoint start_keys (l : list Flow.t) : option (list (Q * Flow.t)) :=
  match l with
  | [] => Some []
  | f :: l' =>
      k <- Flow.start_time_ms f ;;
      ks <- start_keys l' ;;
      Some ((k, f) :: ks)
  end.

(** A list of fewer than two elements is sorted without a comparison;
    otherwise every key is compared and a missing one raises. *)
Definition sort_by_start_time (l : list Flow.t) : option (list Flow.t) :=
  if (List.length l <? 2)%nat then Some l
  else
    ks <- start_keys l ;;
    Some (map snd (sort_keyed ks)).

Definition schedule_short_flows (fuel : nat) (s : t) (lam_per_sec : Q)
    (size_bytes : xfloat) (cc : string) (rtt_base_ms : Q) : option t :=
  ' (r, queue) <- schedule_loop fuel (duration_ms s) lam_per_sec
                    size_bytes cc rtt_base_ms 0.0 10000%Z (rng s)
                    (short_flow_queue s) ;;
  queue <- sort_by_start_time queue ;;
  Some (set_short_flow_queue (set_rng s r) queue).

(** *** [_check_outage] *)

Definition _check_outage (s : t) (t_ms : Q) : t :=
  if Qltb t_ms (_outage_end_ms s) then
    set_outage_active s true
  else
    let s := set_outage_active s false in
    if Qgtb (outage_prob s) 0 then
      let p := outage_prob s * (dt_ms s / 1000.0) in
      let (u, r) := random (rng s) in
      let s := set_rng s r in
      if Qltb u p then
        let s := set_outage_active s true in
        set_outage_end_ms s (t_ms + outage_duration_ms s)
      else s
    else s.

(** *** The phases of [_step] *)

(** Arrival admission: the [while] loop over the head of the pending
    queue.  Returns the remaining queue and the extended active list. *)
Fixpoint admit_arrivals (t_ms : Q) (queue active : list Flow.t)
    : option (list Flow.t * list Flow.t) :=
  match queue with
  | [] => Some ([], active)
  | f :: rest =>
      st <- Flow.start_time_ms f ;;
      if Qle_bool st t_ms then
        let f := Flow.set_start_time_ms f (Some t_ms) in
        admit_arrivals t_ms rest (active ++ [f])
      else Some (queue, active)
  end.

(** The body of the send loop for one flow that is not finished: the
    flow afterwards, the switch afterwards, whether the send was admitted,
    and the completion record when the flow finished. *)
Definition send_one (dt t_ms : Q) (flow : Flow.t) (sw : Switch.t)
    : option (Flow.t * Switch.t * bool * list FCTRecord.t) :=
  let send_bytes := Flow.rate_bytes_per_ms flow * dt in
  let (ok, sw) := Switch.enqueue sw send_bytes in
  let flow :=
    Flow.set_sent_bytes flow
      (Flow.sent_bytes flow + (if ok then send_bytes else 0)) in
  if lt_inf (Flow.size_bytes flow)
     && geb_x (Flow.sent_bytes flow) (Flow.size_bytes flow) then
    st <- Flow.start_time_ms flow ;;
    let r := FCTRecord.mk (Flow.fid flow) (Flow.cc flow)
               (Flow.size_bytes flow) (t_ms - st) in
    Some (Flow.set_finished flow t_ms, sw, ok, [r])
  else Some (flow, sw, ok, []).

(** The send loop: the flows afterwards, the switch afterwards,
    [loss_occurred], and the completion records in the order they were
    appended. *)
Fixpoint send_phase (dt t_ms : Q) (fl : list Flow.t) (sw : Switch.t)
    (loss_occurred : bool)
    : option (list Flow.t * Switch.t * bool * list FCTRecord.t) :=
  match fl with
  | [] => Some ([], sw, loss_occurred, [])
  | flow :: rest =>
      if Flow.finished flow then
        ' (rest, sw, loss_occurred, recs) <-
            send_phase dt t_ms rest sw loss_occurred ;;
        Some (flow :: rest, sw, loss_occurred, recs)
      else
        ' (flow, sw, ok, rec1) <- send_one dt t_ms flow sw ;;
        let loss_occurred := if negb ok then true else loss_occurred in
        ' (rest, sw, loss_occurred, recs) <-
            send_phase dt t_ms rest sw loss_occurred ;;
        Some (flow :: rest, sw, loss_occurred, rec1 ++ recs)
  end.

(** The feedback loop: the flows afterwards, the generator afterwards,
    and the calls of [on_ack] in the order they were made. *)
Fixpoint feedback_phase (jitter_std queue_ms ecn_frac : Q)
    (loss_occurred : bool) (fl : list Flow.t) (r : G)
    : list Flow.t * G * list AckCall.t :=
  match fl with
  | [] => ([], r, [])
  | flow :: rest =>
      if Flow.finished flow then
        let '(rest, r, calls) :=
          feedback_phase jitter_std queue_ms ecn_frac loss_occurred rest r in
        (flow :: rest, r, calls)
      else
        let (jitter, r) :=
          if Qgtb jitter_std 0 then normal 0 jitter_std r else (0.0, r) in
        let rtt_ms :=
          Flow.rtt_base_ms flow + queue_ms
          + pymax jitter ((- Flow.rtt_base_ms flow) * 0.9) in
        let call := AckCall.mk flow rtt_ms queue_ms ecn_frac loss_occurred in
        let flow := Flow.on_ack flow rtt_ms queue_ms ecn_frac loss_occurred in
        let '(rest, r, calls) :=
          feedback_phase jitter_std queue_ms ecn_frac loss_occurred rest r in
        (flow :: rest, r, call :: calls)
  end.

(** *** [_step] *)

Definition _step (s : t) : option (t * list AckCall.t) :=
  let t_ms := _time_ms s in
  ' (queue, active) <- admit_arrivals t_ms (short_flow_queue s) (flows s) ;;
  let s := set_flows (set_short_flow_queue s queue) active in
  let s := _check_outage s t_ms in
  let in_outage := outage_active s in
  let ecn_frac := Switch.ecn_fraction (switch s) in
  ' (active, sw, loss_occurred, recs) <-
      send_phase (dt_ms s) t_ms (flows s) (switch s) false ;;
  let (served, sw) := Switch.dequeue sw (dt_ms s) in
  let '(active, r, calls) :=
    if negb in_outage then
      let queue_ms := Switch.queue_delay_ms sw in
      feedback_phase (rtt_jitter_std_ms s) queue_ms ecn_frac loss_occurred
        active (rng s)
    else (active, rng s, []) in
  let cap := LINK_RATE_BYTES_PER_MS * dt_ms s in
  let m := Metrics.mk t_ms (Switch.queue_bytes sw) (Switch.queue_delay_ms sw)
             (if truthy cap then served / cap else 0) served in
  Some (mk (dt_ms s) (duration_ms s) sw r
           (filter (fun f => negb (Flow.finished f)) active)
           (metrics s ++ [m])
           (fct_records s ++ recs)
           (short_flow_queue s)
           (_time_ms s + dt_ms s)
           (outage_active s) (outage_prob s) (outage_duration_ms s)
           (_outage_end_ms s) (rtt_jitter_std_ms s),
        calls).

(** *** [run] *)

(** [for _ in range(steps): self._step()] *)
Fixpoint run_steps (steps : nat) (s : t) : option t :=
  match steps with
  | O => Some s
  | S n =>
      ' (s, _) <- _step s ;;
      run_steps n s
  end.

(** [run]: the simulator afterwards and the returned pair.  A negative
    step count is an empty [range].

    [int(self.duration_ms / self.dt_ms)] truncates a float: the division
    rounds its result to the nearest float first, and on that depends how
    many steps a run takes ([int(0.3 / 0.1)] is 2).  The quotient is
    therefore not computed in the number model; it is what the float
    division of the platform returns, the argument [fdiv].  Division by
    zero raises before anything is rounded. *)
Definition run (fdiv : Q -> Q -> Q) (s : t)
    : option (t * (list Metrics.t * list FCTRecord.t)) :=
  if Qeq_bool (dt_ms s) 0 then None
  else
    let steps := int_of_float (fdiv (duration_ms s) (dt_ms s)) in
    s <- run_steps (Z.to_nat steps) s ;;
    Some (s, (metrics s, fct_records s)).

End WithGenerator.

Arguments t G : clear implicits.

End Simulator.

(** ** A generator for running the model

    [Replay] plays back a recorded list of samples, one per draw, whatever
    the distribution asked for; once the recording is used up a draw
    returns the distribution's mean. *)

Module Replay.

Definition t : Type := list Q.

Definition draw (mean : Q) (r : t) : Q * t :=
  match r with
  | [] => (mean, [])
  | x :: r' => (x, r')
  end.

#[global] Instance generator : Generator t := {
  exponential scale r := draw scale r;
  normal loc scale r := draw loc r;
  random r := draw 0.5 r
}.

End Replay.

(** * Properties of the simulator, as predicates *)

(** ** Flows *)

(** The window floor. *)
Definition cwnd_floor (f : Flow.t) : Prop := 2 <= Flow.cwnd f.

(** The congestion-control state of [f'] is that of [f]. *)
Definition frozen (f f' : Flow.t) : Prop :=
  Flow.cwnd f' = Flow.cwnd f
  /\ Flow.alpha f' = Flow.alpha f
  /\ Flow.rtt_smooth f' = Flow.rtt_smooth f.

(** Everything [on_ack] never assigns is the same in [f] and [f']. *)
Definition same_identity (f f' : Flow.t) : Prop :=
  Flow.fid f' = Flow.fid f
  /\ Flow.cc f' = Flow.cc f
  /\ Flow.rtt_base_ms f' = Flow.rtt_base_ms f
  /\ Flow.size_bytes f' = Flow.size_bytes f
  /\ Flow.sent_bytes f' = Flow.sent_bytes f
  /\ Flow.g f' = Flow.g f
  /\ Flow.finished f' = Flow.finished f
  /\ Flow.start_time_ms f' = Flow.start_time_ms f
  /\ Flow.finish_time_ms f' = Flow.finish_time_ms f.

Definition unfinished (f : Flow.t) : bool := negb (Flow.finished f).

(** The flow a logged call leaves behind. *)
Definition apply_call (c : AckCall.t) : Flow.t :=
  Flow.on_ack (AckCall.receiver c) (AckCall.rtt_ms c) (AckCall.queue_ms c)
    (AckCall.ecn_frac c) (AckCall.loss c).

(** The smoothed RTT after a series of samples, oldest first, by the
    recurrence alone: the first sample, then [0.9 * s + 0.1 * rtt]. *)
Definition ewma_rtt (first : Q) (later : list Q) : Q :=
  fold_left (fun s rtt_ms => 0.9 * s + 0.1 * rtt_ms) later first.

(** A SpaceCC flow after a series of [on_ack] calls that differ in the
    RTT sample only. *)
Definition ack_series (f : Flow.t) (queue_ms ecn_frac : Q) (loss : bool)
    (samples : list Q) : Flow.t :=
  fold_left (fun f rtt_ms => Flow.on_ack f rtt_ms queue_ms ecn_frac loss)
    samples f.

(** ** The switch *)

Definition switch_inv (sw : Switch.t) : Prop :=
  0 <= Switch.queue_bytes sw
  /\ Switch.queue_bytes sw <= inject_Z (Switch.buffer_bytes sw).

(** ** One send *)

(** What the send loop does to one flow at step time [t_ms]: it assigns
    [sent_bytes] and, on completion, [finished] and [finish_time_ms], and
    nothing else; a flow that was finished before is passed over. *)
Definition send_outcome (t_ms : Q) (f f' : Flow.t) : Prop :=
  Flow.fid f' = Flow.fid f
  /\ Flow.cc f' = Flow.cc f
  /\ Flow.rtt_base_ms f' = Flow.rtt_base_ms f
  /\ Flow.size_bytes f' = Flow.size_bytes f
  /\ Flow.g f' = Flow.g f
  /\ Flow.start_time_ms f' = Flow.start_time_ms f
  /\ frozen f f'
  /\ (Flow.finished f = true -> f' = f)
  /\ (Flow.finished f = false ->
        (Flow.finished f' = true <->
           exists size, Flow.size_bytes f = Fin size
                        /\ size <= Flow.sent_bytes f'))
  /\ (Flow.finished f = false -> Flow.finished f' = true ->
        Flow.finish_time_ms f' = Some t_ms).

(** The completion record of a flow that finished at [t_ms]. *)
Definition completion_record (t_ms : Q) (f : Flow.t) : list FCTRecord.t :=
  match Flow.start_time_ms f with
  | Some st =>
      [FCTRecord.mk (Flow.fid f) (Flow.cc f) (Flow.size_bytes f) (t_ms - st)]
  | None => []
  end.

(** The records of the flows of [sent] that are finished, in order. *)
Definition completion_records (t_ms : Q) (sent : list Flow.t)
    : list FCTRecord.t :=
  flat_map (completion_record t_ms) (filter Flow.finished sent).

(** *** The send loop, flow by flow *)

(** The switch has room for a send of [bytes]. *)
Definition fits (sw : Switch.t) (bytes : Q) : Prop :=
  Switch.queue_bytes sw + bytes <= inject_Z (Switch.buffer_bytes sw).

(** What the send loop does with the flow [f] when it comes to it with
    the switch in state [sw]: [send_outcome], and a flow that was not
    finished is credited the whole of its send [rate * dt] when the
    switch has room for it, and nothing otherwise. *)
Definition flow_sent (dt t_ms : Q) (sw : Switch.t) (f f' : Flow.t) : Prop :=
  send_outcome t_ms f f'
  /\ (Flow.finished f = false ->
      (fits sw (Flow.rate_bytes_per_ms f * dt) ->
       Flow.sent_bytes f'
       = Flow.sent_bytes f + Flow.rate_bytes_per_ms f * dt)
      /\ (~ fits sw (Flow.rate_bytes_per_ms f * dt) ->
          Flow.sent_bytes f' = Flow.sent_bytes f + 0)).

(** The switch as the loop leaves it for the next flow. *)
Definition switch_after (dt : Q) (sw : Switch.t) (f : Flow.t) : Switch.t :=
  if Flow.finished f then sw
  else snd (Switch.enqueue sw (Flow.rate_bytes_per_ms f * dt)).

(** The loop over the active list [fl], from the switch [sw], leaves the
    flows [fl']. *)
Fixpoint send_loop (dt t_ms : Q) (sw : Switch.t) (fl fl' : list Flow.t)
    : Prop :=
  match fl, fl' with
  | [], [] => True
  | f :: rest, f' :: rest' =>
      flow_sent dt t_ms sw f f'
      /\ send_loop dt t_ms (switch_after dt sw f) rest rest'
  | _, _ => False
  end.

(** A pending flow as the admission loop moves it to the active list. *)
Definition admitted_at (t_ms : Q) (f : Flow.t) : Flow.t :=
  Flow.set_start_time_ms f (Some t_ms).

(** A flow as the constructor returns it. *)
Definition constructed (f : Flow.t) : Prop :=
  exists fid cc rtt_base_ms size_bytes,
    f = Flow.init fid cc rtt_base_ms size_bytes.

(** ** Simulator states *)

Section StatePredicates.

Context {G : Type} `{Generator G}.

(** Every flow the simulator holds, active or pending, keeps the floor. *)
Definition all_cwnd_floor (s : Simulator.t G) : Prop :=
  Forall cwnd_floor (Simulator.flows s)
  /\ Forall cwnd_floor (Simulator.short_flow_queue s).

(** An active flow: not finished, started, and not in the future. *)
Definition active_ok (now : Q) (f : Flow.t) : Prop :=
  Flow.finished f = false
  /\ exists st, Flow.start_time_ms f = Some st /\ st <= now.

(** A pending flow carries its arrival time. *)
Definition pending_ok (f : Flow.t) : Prop :=
  Flow.finished f = false
  /\ exists st, Flow.start_time_ms f = Some st.

(** The states the public interface produces: a step that does not go
    backwards, active flows added through [add_flow] or admitted from the
    pending queue, pending flows generated by [schedule_short_flows]. *)
Definition ready (s : Simulator.t G) : Prop :=
  0 <= Simulator.dt_ms s
  /\ Forall (active_ok (Simulator._time_ms s)) (Simulator.flows s)
  /\ Forall pending_ok (Simulator.short_flow_queue s).

(** The ids of all flows the simulator knows of: pending, active, and
    completed.  An id occurs as often as there are flows that carry it
    (each call of [schedule_short_flows] numbers from 10000 again). *)
Definition census (s : Simulator.t G) : list Z :=
  map Flow.fid (Simulator.short_flow_queue s)
  ++ map Flow.fid (Simulator.flows s)
  ++ map FCTRecord.fid (Simulator.fct_records s).

(** The marking fraction every feedback call of the step from [s]
    carries is the one of the queue as the drain phase of that step left
    it. *)
Definition marks_read_after_drain (s : Simulator.t G) : Prop :=
  forall s' calls,
    Simulator._step s = Some (s', calls) ->
    Simulator.outage_active s' = false ->
    Forall (fun c => AckCall.ecn_frac c
                     == Switch.ecn_fraction (Simulator.switch s')) calls.

(** The marking fraction every feedback call of the step from [s]
    carries is the one of the queue as the step found it, before its
    sends. *)
Definition marks_read_before_send (s : Simulator.t G) : Prop :=
  forall s' calls,
    Simulator._step s = Some (s', calls) ->
    Simulator.outage_active s' = false ->
    Forall (fun c => AckCall.ecn_frac c
                     == Switch.ecn_fraction (Simulator.switch s)) calls.

(** *** Scripts: what a driver does with a simulator before [run] *)

Inductive call : Type :=
| AddFlow (flow : Flow.t)
| ScheduleShortFlows (fuel : nat) (lam_per_sec : Q) (size_bytes : xfloat)
    (cc : string) (rtt_base_ms : Q)
| SetOutageParams (prob duration_ms jitter_std_ms : Q).

Definition perform (s : Simulator.t G) (c : call) : option (Simulator.t G) :=
  match c with
  | AddFlow flow => Some (Simulator.add_flow s flow)
  | ScheduleShortFlows fuel lam size cc rtt =>
      Simulator.schedule_short_flows fuel s lam size cc rtt
  | SetOutageParams p d j => Some (Simulator.set_outage_params s p d j)
  end.

Fixpoint perform_all (s : Simulator.t G) (script : list call)
    : option (Simulator.t G) :=
  match script with
  | [] => Some s
  | c :: script' =>
      s <- perform s c ;;
      perform_all s script'
  end.

(** The flows a script adds come from the constructor. *)
Definition adds_constructed (c : call) : Prop :=
  match c with
  | AddFlow flow => constructed flow
  | _ => True
  end.

(** Construct, perform the script, run: the pair [run] returns. *)
Definition trial (fdiv : Q -> Q -> Q) (dt_ms duration_ms : Q)
    (switch : option Switch.t) (seed : G) (script : list call)
    : option (list Metrics.t * list FCTRecord.t) :=
  s <- perform_all (Simulator.init dt_ms duration_ms switch seed) script ;;
  ' (_, out) <- Simulator.run fdiv s ;;
  Some out.

End StatePredicates.

(** * Configurations the statements below are run on *)

Module Examples.

Open Scope string_scope.

(** The result of a step that is known to return. *)
Definition next {G : Type} `{Generator G} (s : Simulator.t G)
    : Simulator.t G * list AckCall.t :=
  match Simulator._step s with
  | Some out => out
  | None => (s, [])
  end.

(** Two long flows on a 10 microsecond path, default switch, 0.1 ms
    steps: their first sends fill the queue from empty to above the
    marking threshold, drain included. *)
Definition two_fast_flows : Simulator.t Replay.t :=
  let s := Simulator.init 0.1 1000 None [] in
  let s := Simulator.add_flow s (Flow.init 0 "reno" 0.01 PosInf) in
  Simulator.add_flow s (Flow.init 1 "dctcp" 0.01 PosInf).

(** One SpaceCC flow on a 200 ms path; the first outage draw (0.05)
    falls under the per-step outage probability (0.1). *)
Definition blackout : Simulator.t Replay.t :=
  let s := Simulator.init 0.1 1000 None [0.05] in
  let s := Simulator.set_outage_params s 1000 50 0 in
  Simulator.add_flow s (Flow.init 0 "spacecc" 200 PosInf).

(** A long flow and a short one of 1000 bytes that completes with its
    first send. *)
Definition one_short_flow : Simulator.t Replay.t :=
  let s := Simulator.init 0.5 1.5 None [] in
  let s := Simulator.add_flow s (Flow.init 0 "reno" 1 PosInf) in
  Simulator.add_flow s (Flow.init 1 "dctcp" 1 (Fin 1000)).

(** What a driver does before [run]. *)
Definition script : list call :=
  [AddFlow (Flow.init 0 "reno" 1 PosInf);
   AddFlow (Flow.init 1 "dctcp" 1 PosInf);
   ScheduleShortFlows 10 4000 (Fin 1000) "reno" 1;
   SetOutageParams 0.5 1 0.25].

(** A recording of draws, as one seed would give them. *)
Definition seed : Replay.t := [0.25; 0.5; 0.75; 0.125; 0.0625; 0.5; 0.25].

(** Flows of each kind, with a window at the floor. *)
Definition flow_of (cc : string) : Flow.t :=
  Flow.set_cwnd (Flow.init 7 cc 1 PosInf) 2.

(** A switch holding 440000 of its 450000 bytes. *)
Definition nearly_full : Switch.t :=
  Switch.set_queue_bytes Switch.default 440000.

(** A prepared simulator and the same two steps later. *)
Definition prepared : Simulator.t Replay.t :=
  match perform_all (Simulator.init 0.5 1.5 None seed) script with
  | Some s => s
  | None => Simulator.init 0.5 1.5 None seed
  end.

Definition two_steps_later : Simulator.t Replay.t :=
  match Simulator.run_steps 2 prepared with
  | Some s => s
  | None => prepared
  end.

End Examples.

(** * Further properties, as predicates *)

(** A fraction. *)
Definition in_unit (x : Q) : Prop := 0 <= x /\ x <= 1.

(** The DCTCP state of a flow: the marking estimate is a fraction and
    the gain is the constructor's. *)
Definition alpha_ok (f : Flow.t) : Prop :=
  in_unit (Flow.alpha f) /\ Flow.g f == 1 / 16.

(** Flows for the statements on single calls. *)
Module Cases.

Open Scope string_scope.

(** A DCTCP flow in the middle of a run. *)
Definition marked_dctcp : Flow.t :=
  Flow.set_alpha (Flow.set_cwnd (Flow.init 3 "dctcp" 1 PosInf) 40) 0.5.

(** A switch holding 200000 bytes. *)
Definition backlog : Switch.t :=
  Switch.set_queue_bytes Switch.default 200000.

(** [blackout] one and two steps on: the outage of 50 ms that began in
    the first step is under way. *)
Definition blackout_1 : Simulator.t Replay.t :=
  fst (Examples.next Examples.blackout).

Definition blackout_2 : Simulator.t Replay.t :=
  fst (Examples.next blackout_1).

(** [one_short_flow] two steps on. *)
Definition short_flow_done : Simulator.t Replay.t :=
  match Simulator.run_steps 2 Examples.one_short_flow with
  | Some s => s
  | None => Examples.one_short_flow
  end.

(** A new simulator after a call of [schedule_short_flows] on the
    recording [Examples.seed]. *)
Definition scheduled : Simulator.t Replay.t :=
  match Simulator.schedule_short_flows 10
          (Simulator.init 0.5 1.5 None Examples.seed)
          4000 (Fin 1000) "reno" 1 with
  | Some s => s
  | None => Simulator.init 0.5 1.5 None Examples.seed
  end.

(** [scheduled] two steps on: the first arrival has been admitted. *)
Definition scheduled_2 : Simulator.t Replay.t :=
  match Simulator.run_steps 2 scheduled with
  | Some s => s
  | None => scheduled
  end.

End Cases.

(** The simulator as [_step] has it after the admission loop and
    [_check_outage]. *)
Definition outage_checked {G : Type} `{Generator G} (s : Simulator.t G)
    (queue active : list Flow.t) : Simulator.t G :=
  Simulator._check_outage
    (Simulator.set_flows (Simulator.set_short_flow_queue s queue) active)
    (Simulator._time_ms s).

(** The metrics entry [_step] appends, from the switch after the send
    loop. *)
Definition snapshot (t_ms dt_ms : Q) (sw : Switch.t) : Metrics.t :=
  let cap := LINK_RATE_BYTES_PER_MS * dt_ms in
  let served := fst (Switch.dequeue sw dt_ms) in
  let sw := snd (Switch.dequeue sw dt_ms) in
  Metrics.mk t_ms (Switch.queue_bytes sw) (Switch.queue_delay_ms sw)
    (if truthy cap then served / cap else 0) served.

(** A metrics entry of a step of [dt_ms] on a switch of [buffer] bytes
    that is physically possible: occupancy within the buffer, the delay
    that goes with it, no more served than the link carries in a step,
    utilisation a fraction. *)
Definition metric_in_bounds (buffer : Z) (dt_ms : Q) (m : Metrics.t) : Prop :=
  (0 <= Metrics.queue_bytes m /\ Metrics.queue_bytes m <= inject_Z buffer)
  /\ Metrics.queue_delay_ms m
     == Metrics.queue_bytes m / LINK_RATE_BYTES_PER_MS
  /\ (0 <= Metrics.served_bytes m
      /\ Metrics.served_bytes m <= LINK_RATE_BYTES_PER_MS * dt_ms)
  /\ (0 <= Metrics.util m /\ Metrics.util m <= 1).

(** The bytes served over a list of metrics entries. *)
Definition served_total (ms : list Metrics.t) : Q :=
  fold_right (fun m acc => Metrics.served_bytes m + acc) 0 ms.

(** The bytes credited to a list of flows. *)
Definition sum_sent (fl : list Flow.t) : Q :=
  fold_right (fun f acc => Flow.sent_bytes f + acc) 0 fl.

(** Outages are switched off, and none is under way. *)
Definition outage_off {G : Type} (s : Simulator.t G) : Prop :=
  Simulator.outage_prob s <= 0
  /\ Simulator._outage_end_ms s <= Simulator._time_ms s
  /\ 0 <= Simulator.dt_ms s.

(** ** Arrival order of the pending queue *)

(** A list of sort keys with their flows, in the order of the keys. *)
Definition keys_sorted (l : list (Q * Flow.t)) : Prop :=
  StronglySorted (fun x y => fst x <= fst y) l.

(** [f] is due no later than [f']. *)
Definition arrives_before (f f' : Flow.t) : Prop :=
  match Flow.start_time_ms f, Flow.start_time_ms f' with
  | Some a, Some b => a <= b
  | _, _ => False
  end.

(** The list is in the order of the arrival times. *)
Definition sorted_by_start (l : list Flow.t) : Prop :=
  StronglySorted arrives_before l.

(** [f] is due later than [t_ms]. *)
Definition arrives_after (t_ms : Q) (f : Flow.t) : Prop :=
  exists st, Flow.start_time_ms f = Some st /\ t_ms < st.

(** [f] is due at [t_ms] or was before. *)
Definition arrives_by (t_ms : Q) (f : Flow.t) : Prop :=
  exists st, Flow.start_time_ms f = Some st /\ st <= t_ms.

(** The flow [schedule_short_flows] constructs for the arrival time
    [t_ms], and the flows for a list of arrival times, numbered
    consecutively. *)
Definition short_flow (cc : string) (rtt_base_ms : Q) (size_bytes : xfloat)
    (fid : Z) (t_ms : Q) : Flow.t :=
  Flow.set_start_time_ms (Flow.init fid cc rtt_base_ms size_bytes)
    (Some t_ms).

Fixpoint numbered (cc : string) (rtt_base_ms : Q) (size_bytes : xfloat)
    (fid : Z) (times : list Q) : list Flow.t :=
  match times with
  | [] => []
  | t_ms :: times' =>
      short_flow cc rtt_base_ms size_bytes fid t_ms
      :: numbered cc rtt_base_ms size_bytes (fid + 1)%Z times'
  end.

(** ** Completion times and time stamps *)

(** The time stamps of metrics entries: the times at which their steps
    began. *)
Definition stamps (ms : list Metrics.t) : list Q := map Metrics.time_ms ms.

(** The flow became active at a step that has an entry in [ms], or at
    [now]. *)
Definition started_at_stamp (ms : list Metrics.t) (now : Q) (f : Flow.t)
    : Prop :=
  exists st,
    Flow.start_time_ms f = Some st /\ (In st (stamps ms) \/ st = now).

(** [x] is the time stamp of an entry of [ms] minus the time stamp of
    that entry or of an earlier one. *)
Definition between_stamps (ms : list Metrics.t) (x : Q) : Prop :=
  exists i j a b,
    (i <= j)%nat
    /\ nth_error (stamps ms) i = Some a
    /\ nth_error (stamps ms) j = Some b
    /\ x = b - a.

(** The record belongs to a flow of [fl] and counts from its start
    time. *)
Definition record_of (t_ms : Q) (fl : list Flow.t) (r : FCTRecord.t) : Prop :=
  exists f st,
    In f fl
    /\ Flow.start_time_ms f = Some st
    /\ FCTRecord.fid r = Flow.fid f
    /\ FCTRecord.cc r = Flow.cc f
    /\ FCTRecord.size_bytes r = Flow.size_bytes f
    /\ FCTRecord.fct_ms r = t_ms - st.

(** * The drivers

    [dc_experiment.py] and [space_experiment.py] read a configuration,
    build a simulator per seed, run it and summarise the result.  The
    configuration is the dictionary [yaml.safe_load] returns; it is
    embedded as a record of the keys [run_single] reads with [cfg[...]]
    (a missing one raises before the simulator exists), the keys read with
    [cfg.get] being optional.  The generator [default_rng(seed)] is the
    argument [rng], the float division of [run] the argument [fdiv].
    [np.mean] and [np.percentile] are arguments of [summarise]. *)

(** [for ... in range(n): sim.add_flow(Flow(fid, cc, rtt_base_ms=...))],
    with [fid] counting up from its value before the loop. *)
Fixpoint long_flows (n : nat) (cc : string) (rtt_base_ms : Q) (fid : Z)
    : list call :=
  match n with
  | O => []
  | S n' =>
      AddFlow (Flow.init fid cc rtt_base_ms PosInf)
      :: long_flows n' cc rtt_base_ms (fid + 1)%Z
  end.

(** [[f.fct_ms for f in fcts if f.cc == cc]] *)
Definition fcts_of (cc : string) (fcts : list FCTRecord.t) : list Q :=
  map FCTRecord.fct_ms
    (filter (fun f => String.eqb (FCTRecord.cc f) cc) fcts).

Module DcExperiment.

Open Scope string_scope.

Record config : Type := mk_config {
  buffer_pkts : Z;
  ecn_thresh_pkts : Z;
  dt_ms : Q;
  duration_ms : Q;
  long_flows_per_cc : Z;
  rtt_base_ms : Q;
  short_lambda : Q;
  short_size_bytes : xfloat
}.

(** The calls of [run_single] between the constructor and [run]: the
    long flows of both tags, numbered through, then the short flows of
    both tags. *)
Definition script (fuel : nat) (cfg : config) : list call :=
  let n := Z.to_nat (long_flows_per_cc cfg) in
  long_flows n "reno" (rtt_base_ms cfg) 0%Z
  ++ long_flows n "dctcp" (rtt_base_ms cfg) (0 + Z.of_nat n)%Z
  ++ [ScheduleShortFlows fuel (short_lambda cfg) (short_size_bytes cfg)
        "reno" (rtt_base_ms cfg);
      ScheduleShortFlows fuel (short_lambda cfg) (short_size_bytes cfg)
        "dctcp" (rtt_base_ms cfg)].

Definition run_single {G : Type} `{Generator G} (fdiv : Q -> Q -> Q)
    (fuel : nat) (cfg : config) (rng : G)
    : option (list Metrics.t * list FCTRecord.t) :=
  let sw := Switch.init (buffer_pkts cfg) (ecn_thresh_pkts cfg) in
  trial fdiv (dt_ms cfg) (duration_ms cfg) (Some sw) rng (script fuel cfg).

(** The row of the CSV file. *)
Record row : Type := mk_row {
  seed : Z;
  mean_queue_delay_ms : Q;
  p99_queue_delay_ms : Q;
  mean_util : Q;
  reno_fct_p99_ms : option Q;
  dctcp_fct_p99_ms : option Q;
  num_short_flows : Z
}.

Definition summarise (mean : list Q -> Q) (percentile : list Q -> Q -> Q)
    (metrics : list Metrics.t) (fcts : list FCTRecord.t) (seed : Z) : row :=
  let delays := map Metrics.queue_delay_ms metrics in
  let utils := map Metrics.util metrics in
  let reno_fcts := fcts_of "reno" fcts in
  let dctcp_fcts := fcts_of "dctcp" fcts in
  {| seed := seed;
     mean_queue_delay_ms := mean delays;
     p99_queue_delay_ms := percentile delays 99;
     mean_util := mean utils;
     reno_fct_p99_ms :=
       match reno_fcts with
       | [] => None
       | _ :: _ => Some (percentile reno_fcts 99)
       end;
     dctcp_fct_p99_ms :=
       match dctcp_fcts with
       | [] => None
       | _ :: _ => Some (percentile dctcp_fcts 99)
       end;
     num_short_flows := Z.of_nat (List.length fcts) |}.

End DcExperiment.

Module SpaceExperiment.

Record config : Type := mk_config {
  buffer_pkts : Z;
  ecn_thresh_pkts : Z;
  dt_ms : Q;
  duration_ms : Q;
  num_long_flows : Z;
  rtt_base_ms : Q;
  short_lambda : Q;
  short_size_bytes : xfloat;
  outage_prob_per_sec : option Q;
  outage_duration_ms : option Q;
  rtt_jitter_std_ms : option Q
}.

(** [cfg.get(key, default)] *)
Definition get (v : option Q) (default : Q) : Q :=
  match v with
  | Some x => x
  | None => default
  end.

(** The calls of [run_single] between the constructor and [run]. *)
Definition script (fuel : nat) (cfg : config) (cc : string) : list call :=
  SetOutageParams (get (outage_prob_per_sec cfg) 0.1)
    (get (outage_duration_ms cfg) 1000.0)
    (get (rtt_jitter_std_ms cfg) 50.0)
  :: long_flows (Z.to_nat (num_long_flows cfg)) cc (rtt_base_ms cfg) 0%Z
  ++ [ScheduleShortFlows fuel (short_lambda cfg) (short_size_bytes cfg)
        cc (rtt_base_ms cfg)].

Definition run_single {G : Type} `{Generator G} (fdiv : Q -> Q -> Q)
    (fuel : nat) (cfg : config) (cc : string) (rng : G)
    : option (list Metrics.t * list FCTRecord.t) :=
  let sw := Switch.init (buffer_pkts cfg) (ecn_thresh_pkts cfg) in
  trial fdiv (dt_ms cfg) (duration_ms cfg) (Some sw) rng
    (script fuel cfg cc).

End SpaceExperiment.

(** ** What a trial's flows are *)

(** The flows a call hands to the simulator satisfy [P], a property of a
    flow's id, tag and size; the short flows are numbered from 10000. *)
Definition call_gives (P : Z -> string -> xfloat -> Prop) (c : call) : Prop :=
  match c with
  | AddFlow flow => P (Flow.fid flow) (Flow.cc flow) (Flow.size_bytes flow)
  | ScheduleShortFlows _ _ size cc _ =>
      forall fid, (10000 <= fid)%Z -> P fid cc size
  | SetOutageParams _ _ _ => True
  end.

(** A long flow, or a short flow of size [size] with one of the tags
    [ccs] and an id from 10000 on. *)
Definition long_or_short (ccs : list string) (size : xfloat)
    (fid : Z) (cc : string) (sz : xfloat) : Prop :=
  sz = PosInf \/ ((10000 <= fid)%Z /\ In cc ccs /\ sz = size).

(** A completion record of a short flow of size [size] with one of the
    tags [ccs]. *)
Definition short_record (ccs : list string) (size : xfloat)
    (r : FCTRecord.t) : Prop :=
  (10000 <= FCTRecord.fid r)%Z
  /\ In (FCTRecord.cc r) ccs
  /\ FCTRecord.size_bytes r = size
  /\ lt_inf (FCTRecord.size_bytes r) = true.

(** What the calls before [run] leave alone. *)
Definition set_up_alike {G : Type} (s s' : Simulator.t G) : Prop :=
  Simulator.dt_ms s' = Simulator.dt_ms s
  /\ Simulator.duration_ms s' = Simulator.duration_ms s
  /\ Simulator.switch s' = Simulator.switch s
  /\ Simulator.metrics s' = Simulator.metrics s
  /\ Simulator.fct_records s' = Simulator.fct_records s
  /\ Simulator._time_ms s' = Simulator._time_ms s.

Module Trials.

Open Scope string_scope.

(** The float quotient where the division is exact: the runs below have
    a step of 0.5 ms and a duration of 1 ms or 1.5 ms, and 1 / 0.5 and
    1.5 / 0.5 are 2 and 3 without rounding. *)
Definition quotient : Q -> Q -> Q := Qdiv.

(** A data-center trial of two steps: one long flow per tag, short flows
    of 1000 bytes. *)
Definition dc_cfg : DcExperiment.config :=
  {| DcExperiment.buffer_pkts := 300;
     DcExperiment.ecn_thresh_pkts := 30;
     DcExperiment.dt_ms := 0.5;
     DcExperiment.duration_ms := 1;
     DcExperiment.long_flows_per_cc := 1;
     DcExperiment.rtt_base_ms := 1;
     DcExperiment.short_lambda := 4000;
     DcExperiment.short_size_bytes := Fin 1000 |}.

Definition dc_out : list Metrics.t * list FCTRecord.t :=
  match DcExperiment.run_single quotient 10 dc_cfg Examples.seed with
  | Some out => out
  | None => ([], [])
  end.

(** A space trial of two steps with the outage keys left out of the
    configuration. *)
Definition space_cfg : SpaceExperiment.config :=
  {| SpaceExperiment.buffer_pkts := 300;
     SpaceExperiment.ecn_thresh_pkts := 30;
     SpaceExperiment.dt_ms := 0.5;
     SpaceExperiment.duration_ms := 1;
     SpaceExperiment.num_long_flows := 2;
     SpaceExperiment.rtt_base_ms := 1;
     SpaceExperiment.short_lambda := 4000;
     SpaceExperiment.short_size_bytes := Fin 1000;
     SpaceExperiment.outage_prob_per_sec := None;
     SpaceExperiment.outage_duration_ms := None;
     SpaceExperiment.rtt_jitter_std_ms := None |}.

Definition space_out : list Metrics.t * list FCTRecord.t :=
  match SpaceExperiment.run_single quotient 10 space_cfg "spacecc"
          Examples.seed with
  | Some out => out
  | None => ([], [])
  end.

End Trials.

(** * Lemmas on the number model *)

Lemma Qltb_lt (a b : Q) : Qltb a b = true <-> a < b.
Proof. unfold Qltb, Qlt. apply Z.ltb_lt. Qed.

Lemma Qltb_ge (a b : Q) : Qltb a b = false <-> b <= a.
Proof. unfold Qltb, Qle. apply Z.ltb_ge. Qed.

Lemma Qgtb_gt (a b : Q) : Qgtb a b = true <-> b < a.
Proof. apply Qltb_lt. Qed.

Lemma Qgtb_le (a b : Q) : Qgtb a b = false <-> a <= b.
Proof. apply Qltb_ge. Qed.

Lemma Qgeb_ge (a b : Q) : Qgeb a b = true <-> b <= a.
Proof. apply Qle_bool_iff. Qed.

Lemma pymax_r (a b : Q) : b <= pymax a b.
Proof.
  unfold pymax. destruct (Qgtb b a) eqn:E.
  - apply Qle_refl.
  - now apply Qgtb_le.
Qed.

Lemma pymax_l (a b : Q) : a <= pymax a b.
Proof.
  unfold pymax. destruct (Qgtb b a) eqn:E.
  - apply Qgtb_gt in E. now apply Qlt_le_weak.
  - apply Qle_refl.
Qed.

Lemma pymax_Qmax (a b : Q) : pymax a b == Qmax a b.
Proof.
  unfold pymax. destruct (Qgtb b a) eqn:E.
  - apply Qgtb_gt in E. symmetry. apply Q.max_r. now apply Qlt_le_weak.
  - apply Qgtb_le in E. symmetry. now apply Q.max_l.
Qed.

Lemma pymin_l (a b : Q) : pymin a b <= a.
Proof.
  unfold pymin. destruct (Qltb b a) eqn:E.
  - apply Qltb_lt in E. now apply Qlt_le_weak.
  - apply Qle_refl.
Qed.

Lemma pymin_glb (a b c : Q) : c <= a -> c <= b -> c <= pymin a b.
Proof. intros Ha Hb. unfold pymin. now destruct (Qltb b a). Qed.

Lemma pymin_Qmin (a b : Q) : pymin a b == Qmin a b.
Proof.
  unfold pymin. destruct (Qltb b a) eqn:E.
  - apply Qltb_lt in E. symmetry. apply Q.min_r. now apply Qlt_le_weak.
  - apply Qltb_ge in E. symmetry. now apply Q.min_l.
Qed.

Lemma link_rate_pos : 0 < LINK_RATE_BYTES_PER_MS.
Proof. reflexivity. Qed.

(** The growth factor of SpaceCC is never negative. *)
Lemma spacecc_gain_nonneg (rtt_ms : Q) : 0 <= 0.1 / pymax rtt_ms 0.1.
Proof.
  assert (Hm : 0 < pymax rtt_ms 0.1).
  { apply Qlt_le_trans with 0.1; [reflexivity | apply pymax_r]. }
  apply Qle_shift_div_l; [exact Hm |]. rewrite Qmult_0_l. discriminate.
Qed.

(** The sending rate of a flow with a non-negative window is not negative. *)
Lemma rate_nonneg (f : Flow.t) : 0 <= Flow.cwnd f -> 0 <= Flow.rate_bytes_per_ms f.
Proof.
  intros Hc. unfold Flow.rate_bytes_per_ms.
  assert (Hm : 0 < pymax (Flow.rtt_base_ms f) 0.01).
  { apply Qlt_le_trans with 0.01; [reflexivity | apply pymax_r]. }
  apply Qle_shift_div_l; [exact Hm |]. rewrite Qmult_0_l.
  apply Qmult_le_0_compat; [exact Hc | discriminate].
Qed.

(** * Lemmas on flows *)

(** [on_ack] assigns [cwnd], [alpha] and [rtt_smooth] only. *)
Lemma on_ack_same_identity (f : Flow.t) (rtt_ms queue_ms ecn_frac : Q)
    (loss : bool) :
  same_identity f (Flow.on_ack f rtt_ms queue_ms ecn_frac loss).
Proof.
  unfold Flow.on_ack, Flow._reno_update, Flow._dctcp_update,
    Flow._spacecc_update.
  repeat match goal with
         | |- context [if ?b then _ else _] => destruct b
         end;
    cbn; repeat split.
Qed.

Lemma reno_floor (f : Flow.t) (ecn_frac : Q) (loss : bool) :
  cwnd_floor f -> cwnd_floor (Flow._reno_update f ecn_frac loss).
Proof.
  unfold cwnd_floor, Flow._reno_update. intros Hf.
  destruct (loss || Qgtb ecn_frac 0); cbn.
  - apply pymax_r.
  - lra.
Qed.

Lemma dctcp_floor (f : Flow.t) (ecn_frac : Q) :
  cwnd_floor f -> cwnd_floor (Flow._dctcp_update f ecn_frac).
Proof.
  unfold cwnd_floor, Flow._dctcp_update. intros Hf.
  destruct (Qgtb ecn_frac 0); cbn.
  - apply pymax_r.
  - lra.
Qed.

Lemma spacecc_floor (f : Flow.t) (rtt_ms queue_ms ecn_frac : Q) (loss : bool) :
  cwnd_floor f ->
  cwnd_floor (Flow._spacecc_update f rtt_ms queue_ms ecn_frac loss).
Proof.
  unfold cwnd_floor, Flow._spacecc_update. intros Hf.
  pose proof (spacecc_gain_nonneg rtt_ms) as Hg.
  assert (Hgrow : 0 <= Flow.cwnd f * 0.5 * (0.1 / pymax rtt_ms 0.1)).
  { apply Qmult_le_0_compat; [lra | exact Hg]. }
  destruct (Qeq_bool (Flow.rtt_smooth f) 0); cbn;
    match goal with
    | |- context [if ?b then _ else _] => destruct b
    end; cbn; try apply pymax_r; lra.
Qed.

Lemma on_ack_floor (f : Flow.t) (rtt_ms queue_ms ecn_frac : Q) (loss : bool) :
  cwnd_floor f -> cwnd_floor (Flow.on_ack f rtt_ms queue_ms ecn_frac loss).
Proof.
  intros Hf. unfold Flow.on_ack.
  destruct (String.eqb (Flow.cc f) "reno"); [now apply reno_floor |].
  destruct (String.eqb (Flow.cc f) "dctcp"); [now apply dctcp_floor |].
  destruct (String.eqb (Flow.cc f) "spacecc"); [now apply spacecc_floor |].
  exact Hf.
Qed.

Lemma init_floor (fid : Z) (cc : string) (rtt_base_ms : Q) (size : xfloat) :
  cwnd_floor (Flow.init fid cc rtt_base_ms size).
Proof. unfold cwnd_floor. cbn. discriminate. Qed.

Lemma set_start_time_floor (f : Flow.t) (v : option Q) :
  cwnd_floor f -> cwnd_floor (Flow.set_start_time_ms f v).
Proof. exact (fun H => H). Qed.

(** Dispatch on the tag. *)
Lemma on_ack_reno (f : Flow.t) (rtt_ms queue_ms ecn_frac : Q) (loss : bool) :
  Flow.cc f = "reno"%string ->
  Flow.on_ack f rtt_ms queue_ms ecn_frac loss
  = Flow._reno_update f ecn_frac loss.
Proof. intros E. unfold Flow.on_ack. now rewrite E. Qed.

Lemma on_ack_dctcp (f : Flow.t) (rtt_ms queue_ms ecn_frac : Q) (loss : bool) :
  Flow.cc f = "dctcp"%string ->
  Flow.on_ack f rtt_ms queue_ms ecn_frac loss = Flow._dctcp_update f ecn_frac.
Proof. intros E. unfold Flow.on_ack. now rewrite E. Qed.

Lemma on_ack_spacecc (f : Flow.t) (rtt_ms queue_ms ecn_frac : Q)
    (loss : bool) :
  Flow.cc f = "spacecc"%string ->
  Flow.on_ack f rtt_ms queue_ms ecn_frac loss
  = Flow._spacecc_update f rtt_ms queue_ms ecn_frac loss.
Proof. intros E. unfold Flow.on_ack. now rewrite E. Qed.

(** The smoothed RTT of a SpaceCC flow stays positive under positive
    samples, so that the value 0 marks a flow without a sample only. *)
Lemma spacecc_smooth_pos (f : Flow.t) (rtt_ms queue_ms ecn_frac : Q)
    (loss : bool) :
  0 <= Flow.rtt_smooth f -> 0 < rtt_ms ->
  0 < Flow.rtt_smooth (Flow._spacecc_update f rtt_ms queue_ms ecn_frac loss).
Proof.
  intros Hs Hr. unfold Flow._spacecc_update.
  destruct (Qeq_bool (Flow.rtt_smooth f) 0); cbn;
    match goal with
    | |- context [if ?b then _ else _] => destruct b
    end; cbn; lra.
Qed.

Lemma spacecc_smooth_ewma (f : Flow.t) (rtt_ms queue_ms ecn_frac : Q)
    (loss : bool) :
  0 < Flow.rtt_smooth f ->
  Flow.rtt_smooth (Flow._spacecc_update f rtt_ms queue_ms ecn_frac loss)
  = 0.9 * Flow.rtt_smooth f + 0.1 * rtt_ms.
Proof.
  intros Hs. unfold Flow._spacecc_update.
  destruct (Qeq_bool (Flow.rtt_smooth f) 0) eqn:E.
  - apply Qeq_bool_eq in E. lra.
  - cbn. match goal with
    | |- context [if ?b then _ else _] => destruct b
    end; reflexivity.
Qed.

Lemma spacecc_tag_kept (f : Flow.t) (rtt_ms queue_ms ecn_frac : Q)
    (loss : bool) :
  Flow.cc (Flow._spacecc_update f rtt_ms queue_ms ecn_frac loss) = Flow.cc f.
Proof.
  unfold Flow._spacecc_update.
  repeat match goal with
         | |- context [if ?b then _ else _] => destruct b
         end; reflexivity.
Qed.

(** After the first sample the later ones are folded in by the
    recurrence. *)
Lemma ack_series_ewma (samples : list Q) (f : Flow.t) (queue_ms ecn_frac : Q)
    (loss : bool) :
  Flow.cc f = "spacecc"%string ->
  0 < Flow.rtt_smooth f ->
  Forall (fun r => 0 < r) samples ->
  Flow.rtt_smooth (ack_series f queue_ms ecn_frac loss samples)
  = ewma_rtt (Flow.rtt_smooth f) samples.
Proof.
  induction samples as [| r samples IH] in f |- *; intros Hcc Hs Hall.
  - reflexivity.
  - inversion Hall as [| ? ? Hr Hrest]; subst.
    unfold ack_series, ewma_rtt in *. cbn [fold_left].
    rewrite (on_ack_spacecc _ _ _ _ _ Hcc).
    rewrite IH.
    + now rewrite spacecc_smooth_ewma.
    + now rewrite spacecc_tag_kept.
    + apply spacecc_smooth_pos; [now apply Qlt_le_weak | exact Hr].
    + exact Hrest.
Qed.

(** * Lemmas on the switch *)

Lemma init_inv (buffer_pkts ecn_thresh_pkts : Z) :
  (0 <= buffer_pkts)%Z -> switch_inv (Switch.init buffer_pkts ecn_thresh_pkts).
Proof.
  intros Hb. unfold switch_inv, Switch.init, PKT_BYTES, Qle. cbn. lia.
Qed.

Lemma enqueue_admitted (sw : Switch.t) (bytes_in : Q) :
  Switch.queue_bytes sw + bytes_in <= inject_Z (Switch.buffer_bytes sw) ->
  Switch.enqueue sw bytes_in
  = (true, Switch.set_queue_bytes sw (Switch.queue_bytes sw + bytes_in)).
Proof.
  intros Hle. unfold Switch.enqueue.
  now rewrite (proj2 (Qgtb_le _ _) Hle).
Qed.

Lemma enqueue_rejected (sw : Switch.t) (bytes_in : Q) :
  inject_Z (Switch.buffer_bytes sw) < Switch.queue_bytes sw + bytes_in ->
  Switch.enqueue sw bytes_in = (false, sw).
Proof.
  intros Hgt. unfold Switch.enqueue.
  now rewrite (proj2 (Qgtb_gt _ _) Hgt).
Qed.

Lemma enqueue_inv (sw : Switch.t) (bytes_in : Q) :
  switch_inv sw -> 0 <= bytes_in ->
  switch_inv (snd (Switch.enqueue sw bytes_in)).
Proof.
  intros [Hlo Hhi] Hb. unfold Switch.enqueue.
  destruct (Qgtb _ _) eqn:E; cbn.
  - now split.
  - apply Qgtb_le in E. split; cbn; [lra | exact E].
Qed.

Lemma dequeue_inv (sw : Switch.t) (dt_ms : Q) :
  switch_inv sw -> 0 <= dt_ms ->
  switch_inv (snd (Switch.dequeue sw dt_ms)).
Proof.
  intros [Hlo Hhi] Hdt. unfold switch_inv, Switch.dequeue. cbn.
  pose proof (pymin_l (Switch.queue_bytes sw) (LINK_RATE_BYTES_PER_MS * dt_ms))
    as Hl.
  assert (Hg : 0 <= pymin (Switch.queue_bytes sw)
                      (LINK_RATE_BYTES_PER_MS * dt_ms)).
  { apply pymin_glb; [exact Hlo |].
    apply Qmult_le_0_compat; [discriminate | exact Hdt]. }
  split; lra.
Qed.

Lemma enqueue_buffer (sw : Switch.t) (bytes_in : Q) :
  Switch.buffer_bytes (snd (Switch.enqueue sw bytes_in))
  = Switch.buffer_bytes sw.
Proof. unfold Switch.enqueue. now destruct (Qgtb _ _). Qed.

(** * Lemmas on the simulator *)

Lemma bind_some {A B : Type} (m : option A) (k : A -> option B) (b : B) :
  bind m k = Some b -> exists a, m = Some a /\ k a = Some b.
Proof. destruct m as [a |]; cbn; [eauto | discriminate]. Qed.

Section Phases.

Context {G : Type} `{Generator G}.

(** ** [_check_outage] touches the outage state and the generator only *)

Lemma check_outage_frame (s : Simulator.t G) (t_ms : Q) :
  let s' := Simulator._check_outage s t_ms in
  Simulator.dt_ms s' = Simulator.dt_ms s
  /\ Simulator.duration_ms s' = Simulator.duration_ms s
  /\ Simulator.switch s' = Simulator.switch s
  /\ Simulator.flows s' = Simulator.flows s
  /\ Simulator.metrics s' = Simulator.metrics s
  /\ Simulator.fct_records s' = Simulator.fct_records s
  /\ Simulator.short_flow_queue s' = Simulator.short_flow_queue s
  /\ Simulator._time_ms s' = Simulator._time_ms s
  /\ Simulator.rtt_jitter_std_ms s' = Simulator.rtt_jitter_std_ms s.
Proof.
  unfold Simulator._check_outage.
  destruct (Qltb t_ms _); [cbn; repeat split |].
  cbn. destruct (Qgtb _ 0); [| cbn; repeat split].
  destruct (random _) as [u r]. cbn.
  destruct (Qltb u _); cbn; repeat split.
Qed.

(** ** Arrival admission *)

Lemma admit_arrivals_spec (t_ms : Q) (queue : list Flow.t) :
  forall active queue' active',
    Simulator.admit_arrivals t_ms queue active = Some (queue', active') ->
    exists due,
      queue = due ++ queue'
      /\ active' = active ++ map (admitted_at t_ms) due.
Proof.
  induction queue as [| f rest IH]; intros active queue' active' E; cbn in E.
  - inversion E; subst. exists []. cbn. now rewrite app_nil_r.
  - apply bind_some in E. destruct E as [st [Hst E]].
    destruct (Qle_bool st t_ms).
    + apply IH in E. destruct E as [due [Hq Ha]].
      exists (f :: due). split; [now rewrite Hq |].
      rewrite Ha, <- app_assoc. reflexivity.
    + inversion E; subst. exists []. cbn. now rewrite app_nil_r.
Qed.

Lemma admit_arrivals_total (t_ms : Q) (queue : list Flow.t) :
  forall active,
    Forall pending_ok queue ->
    exists queue' active',
      Simulator.admit_arrivals t_ms queue active = Some (queue', active').
Proof.
  induction queue as [| f rest IH]; intros active Hq; cbn.
  - eauto.
  - inversion Hq as [| ? ? [_ [st Hst]] Hrest]; subst.
    rewrite Hst. cbn. destruct (Qle_bool st t_ms); eauto.
Qed.

(** ** The send loop *)

Lemma send_one_spec (dt t_ms : Q) (f f' : Flow.t) (sw sw' : Switch.t)
    (ok : bool) (recs : list FCTRecord.t) :
  Flow.finished f = false ->
  Simulator.send_one dt t_ms f sw = Some (f', sw', ok, recs) ->
  send_outcome t_ms f f'
  /\ (ok, sw') = Switch.enqueue sw (Flow.rate_bytes_per_ms f * dt)
  /\ recs = (if Flow.finished f' then completion_record t_ms f' else []).
Proof.
  intros Hunf E. unfold Simulator.send_one in E.
  destruct (Switch.enqueue sw _) as [ok0 sw0] eqn:Eenq.
  cbn [Flow.size_bytes Flow.sent_bytes Flow.set_sent_bytes] in E.
  destruct (lt_inf (Flow.size_bytes f) && geb_x _ (Flow.size_bytes f)) eqn:Efin.
  - apply bind_some in E. destruct E as [st [Hst E]]. cbn in Hst.
    inversion E; subst; clear E.
    apply andb_prop in Efin. destruct Efin as [Hfinite Hge].
    destruct (Flow.size_bytes f) as [size |] eqn:Esize; [| discriminate].
    cbn in Hge. apply Qgeb_ge in Hge.
    split; [| split].
    + unfold send_outcome, frozen. cbn.
      repeat split; try congruence.
      * intros _. exists size. split; [exact Esize | exact Hge].
    + reflexivity.
    + cbn. unfold completion_record. cbn. rewrite Hst, Esize. reflexivity.
  - inversion E; subst; clear E.
    split; [| split].
    + unfold send_outcome, frozen. cbn.
      repeat split; try congruence.
      * intros [size [Esize Hge]]. rewrite Esize in Efin. cbn in Efin.
        apply Qgeb_ge in Hge. congruence.
    + reflexivity.
    + cbn. now rewrite Hunf.
Qed.

Lemma enqueue_fits (sw : Switch.t) (bytes : Q) :
  (fits sw bytes -> fst (Switch.enqueue sw bytes) = true)
  /\ (~ fits sw bytes -> fst (Switch.enqueue sw bytes) = false).
Proof.
  unfold fits, Switch.enqueue.
  destruct (Qgtb (Switch.queue_bytes sw + bytes)
              (inject_Z (Switch.buffer_bytes sw))) eqn:E; cbn.
  - apply Qgtb_gt in E. split; [intros Hle; lra | reflexivity].
  - apply Qgtb_le in E. split; [reflexivity | intros Hn; contradiction].
Qed.

Lemma send_one_sent (dt t_ms : Q) (f f' : Flow.t) (sw sw' : Switch.t)
    (ok : bool) (recs : list FCTRecord.t) :
  Simulator.send_one dt t_ms f sw = Some (f', sw', ok, recs) ->
  Flow.sent_bytes f'
  = Flow.sent_bytes f
    + (if fst (Switch.enqueue sw (Flow.rate_bytes_per_ms f * dt))
       then Flow.rate_bytes_per_ms f * dt else 0).
Proof.
  unfold Simulator.send_one.
  destruct (Switch.enqueue sw _) as [ok0 sw0].
  cbn [Flow.size_bytes Flow.sent_bytes Flow.set_sent_bytes
       Flow.start_time_ms fst].
  destruct (lt_inf _ && geb_x _ _); intros E;
    try (apply bind_some in E; destruct E as [st [_ E]]);
    inversion E; subst; reflexivity.
Qed.

Lemma send_one_total (dt t_ms : Q) (f : Flow.t) (sw : Switch.t) :
  (exists st, Flow.start_time_ms f = Some st) ->
  exists f' sw' ok recs,
    Simulator.send_one dt t_ms f sw = Some (f', sw', ok, recs).
Proof.
  intros [st Hst]. unfold Simulator.send_one.
  destruct (Switch.enqueue sw _) as [ok0 sw0].
  cbn [Flow.size_bytes Flow.sent_bytes Flow.set_sent_bytes Flow.start_time_ms].
  destruct (lt_inf _ && geb_x _ _).
  - rewrite Hst. cbn. eauto 10.
  - eauto 10.
Qed.

Lemma send_outcome_finished (t_ms : Q) (f : Flow.t) :
  Flow.finished f = true -> send_outcome t_ms f f.
Proof.
  intros Hf. unfold send_outcome, frozen.
  repeat split; congruence.
Qed.

Lemma send_phase_spec (dt t_ms : Q) (fl : list Flow.t) :
  forall sw loss fl' sw' loss' recs,
    Simulator.send_phase dt t_ms fl sw loss = Some (fl', sw', loss', recs) ->
    Forall2 (send_outcome t_ms) fl fl'
    /\ (Forall (fun f => Flow.finished f = false) fl ->
        recs = completion_records t_ms fl').
Proof.
  induction fl as [| f rest IH]; intros sw loss fl' sw' loss' recs E;
    cbn in E.
  - inversion E; subst. split; [constructor | reflexivity].
  - destruct (Flow.finished f) eqn:Hf.
    + apply bind_some in E. destruct E as [[[[rest' sw1] loss1] recs1] [E1 E]].
      inversion E; subst; clear E.
      apply IH in E1. destruct E1 as [Hall Hrecs]. split.
      * constructor; [now apply send_outcome_finished | exact Hall].
      * intros Hunf. inversion Hunf; congruence.
    + apply bind_some in E.
      destruct E as [[[[f1 sw1] ok] rec1] [E1 E]].
      apply bind_some in E.
      destruct E as [[[[rest' sw2] loss2] recs2] [E2 E]].
      inversion E; subst; clear E.
      apply send_one_spec in E1; [| exact Hf].
      destruct E1 as [Hout [_ Hrec1]].
      apply IH in E2. destruct E2 as [Hall Hrecs]. split.
      * constructor; assumption.
      * intros Hunf. inversion Hunf as [| ? ? _ Hrest]; subst.
        rewrite (Hrecs Hrest). unfold completion_records. cbn [filter].
        destruct (Flow.finished f1); reflexivity.
Qed.

(** The send loop, flow by flow: each flow meets the switch as the flows
    before it have left it. *)
Lemma send_phase_loop (dt t_ms : Q) (fl : list Flow.t) :
  forall sw loss fl' sw' loss' recs,
    Simulator.send_phase dt t_ms fl sw loss = Some (fl', sw', loss', recs) ->
    send_loop dt t_ms sw fl fl'.
Proof.
  induction fl as [| f rest IH]; intros sw loss fl' sw' loss' recs E;
    cbn in E.
  - inversion E; subst. exact I.
  - destruct (Flow.finished f) eqn:Hf.
    + apply bind_some in E. destruct E as [[[[rest' sw1] loss1] recs1] [E1 E]].
      inversion E; subst; clear E. cbn [send_loop]. split.
      * split; [now apply send_outcome_finished | intros Hu; congruence].
      * unfold switch_after. rewrite Hf. exact (IH _ _ _ _ _ _ E1).
    + apply bind_some in E.
      destruct E as [[[[f1 sw1] ok] rec1] [E1 E]].
      apply bind_some in E.
      destruct E as [[[[rest' sw2] loss2] recs2] [E2 E]].
      inversion E; subst; clear E. cbn [send_loop].
      destruct (send_one_spec _ _ _ _ _ _ _ _ Hf E1) as (Hout & Henq & _).
      pose proof (send_one_sent _ _ _ _ _ _ _ _ E1) as Hsent.
      destruct (enqueue_fits sw (Flow.rate_bytes_per_ms f * dt))
        as [Hfit Hnofit].
      split.
      * split; [exact Hout |]. intros _. split.
        -- intros Hroom. now rewrite Hsent, (Hfit Hroom).
        -- intros Hfull. now rewrite Hsent, (Hnofit Hfull).
      * unfold switch_after. rewrite Hf, <- Henq. cbn [snd].
        exact (IH _ _ _ _ _ _ E2).
Qed.

Lemma send_phase_total (dt t_ms : Q) (fl : list Flow.t) :
  forall sw loss,
    Forall (fun f => exists st, Flow.start_time_ms f = Some st) fl ->
    exists fl' sw' loss' recs,
      Simulator.send_phase dt t_ms fl sw loss = Some (fl', sw', loss', recs).
Proof.
  induction fl as [| f rest IH]; intros sw loss Hall; cbn.
  - eauto 10.
  - inversion Hall as [| ? ? Hst Hrest]; subst.
    destruct (Flow.finished f).
    + destruct (IH sw loss Hrest) as [fl' [sw' [loss' [recs E]]]].
      rewrite E. cbn. eauto 10.
    + destruct (send_one_total dt t_ms f sw Hst) as [f' [sw1 [ok [rec1 E1]]]].
      rewrite E1. cbn.
      destruct (IH sw1 (if negb ok then true else loss) Hrest)
        as [fl' [sw' [loss' [recs E]]]].
      rewrite E. cbn. eauto 10.
Qed.

(** The send loop keeps the switch within its bounds. *)
Lemma send_phase_switch_inv (dt t_ms : Q) (fl : list Flow.t) :
  forall sw loss fl' sw' loss' recs,
    Simulator.send_phase dt t_ms fl sw loss = Some (fl', sw', loss', recs) ->
    0 <= dt ->
    Forall cwnd_floor fl ->
    switch_inv sw ->
    switch_inv sw' /\ Switch.buffer_bytes sw' = Switch.buffer_bytes sw.
Proof.
  induction fl as [| f rest IH]; intros sw loss fl' sw' loss' recs E Hdt Hfl Hsw;
    cbn in E.
  - inversion E; subst. now split.
  - inversion Hfl as [| ? ? Hf Hrest]; subst.
    destruct (Flow.finished f) eqn:Hfin.
    + apply bind_some in E. destruct E as [[[[rest' sw1] loss1] recs1] [E1 E]].
      inversion E; subst; clear E. eapply IH; eauto.
    + apply bind_some in E.
      destruct E as [[[[f1 sw1] ok] rec1] [E1 E]].
      apply bind_some in E.
      destruct E as [[[[rest' sw2] loss2] recs2] [E2 E]].
      inversion E; subst; clear E.
      apply send_one_spec in E1; [| exact Hfin].
      destruct E1 as [_ [Henq _]].
      assert (Hsend : 0 <= Flow.rate_bytes_per_ms f * dt).
      { apply Qmult_le_0_compat; [| exact Hdt].
        apply rate_nonneg. unfold cwnd_floor in Hf. lra. }
      assert (Hsw1 : switch_inv sw1).
      { replace sw1 with (snd (Switch.enqueue sw (Flow.rate_bytes_per_ms f * dt)))
          by now rewrite <- Henq.
        now apply enqueue_inv. }
      assert (Hb1 : Switch.buffer_bytes sw1 = Switch.buffer_bytes sw).
      { replace sw1 with (snd (Switch.enqueue sw (Flow.rate_bytes_per_ms f * dt)))
          by now rewrite <- Henq.
        apply enqueue_buffer. }
      destruct (IH _ _ _ _ _ _ E2 Hdt Hrest Hsw1) as [Hinv Hb].
      split; [exact Hinv | congruence].
Qed.

End Phases.

Section StepPhases.

Context {G : Type} `{Generator G}.

(** ** The feedback loop *)

Lemma feedback_phase_spec (std queue_ms ecn_frac : Q) (loss : bool)
    (fl : list Flow.t) :
  forall r fl' r' calls,
    Simulator.feedback_phase std queue_ms ecn_frac loss fl r = (fl', r', calls) ->
    Forall2 same_identity fl fl'
    /\ filter unfinished fl' = map apply_call calls
    /\ map AckCall.receiver calls = filter unfinished fl
    /\ Forall (fun c => AckCall.queue_ms c = queue_ms
                        /\ AckCall.ecn_frac c = ecn_frac
                        /\ AckCall.loss c = loss) calls
    /\ (Forall cwnd_floor fl -> Forall cwnd_floor fl').
Proof.
  induction fl as [| f rest IH]; intros r fl' r' calls E; cbn in E.
  - inversion E; subst. cbn. repeat split; auto.
  - destruct (Flow.finished f) eqn:Hf.
    + destruct (Simulator.feedback_phase _ _ _ _ rest r)
        as [[rest' r1] calls1] eqn:E1.
      inversion E; subst; clear E.
      destruct (IH _ _ _ _ E1) as [Hid [Hres [Hrcv [Hargs Hfloor]]]].
      unfold unfinished in *. cbn [filter]. rewrite Hf. cbn.
      repeat split; auto.
      * constructor; [unfold same_identity; repeat split | exact Hid].
      * intros Hall. inversion Hall; subst. constructor; auto.
    + destruct (if Qgtb std 0 then normal 0 std r else (0.0, r))
        as [jitter r0] eqn:Ej.
      destruct (Simulator.feedback_phase _ _ _ _ rest r0)
        as [[rest' r1] calls1] eqn:E1.
      inversion E; subst; clear E.
      destruct (IH _ _ _ _ E1) as [Hid [Hres [Hrcv [Hargs Hfloor]]]].
      pose proof (on_ack_same_identity f
                    (Flow.rtt_base_ms f + queue_ms
                     + pymax jitter (- Flow.rtt_base_ms f * 0.9))
                    queue_ms ecn_frac loss) as Hsame.
      assert (Hf' : Flow.finished
                      (Flow.on_ack f
                         (Flow.rtt_base_ms f + queue_ms
                          + pymax jitter (- Flow.rtt_base_ms f * 0.9))
                         queue_ms ecn_frac loss) = false).
      { destruct Hsame as (_ & _ & _ & _ & _ & _ & Hfin & _). congruence. }
      unfold unfinished in *. cbn [filter map AckCall.receiver].
      rewrite Hf, Hf'. cbn [negb].
      repeat split.
      * constructor; assumption.
      * unfold apply_call at 1. cbn. now rewrite Hres.
      * now rewrite Hrcv.
      * constructor; [cbn; repeat split | exact Hargs].
      * intros Hall. inversion Hall; subst.
        constructor; [now apply on_ack_floor | auto].
Qed.

(** ** The step, phase by phase *)

Lemma step_phases (s s' : Simulator.t G) (calls : list AckCall.t) :
  Simulator._step s = Some (s', calls) ->
  exists queue active sent sw loss recs fed r,
    Simulator.admit_arrivals (Simulator._time_ms s)
      (Simulator.short_flow_queue s) (Simulator.flows s)
    = Some (queue, active)
    /\ Simulator.send_phase (Simulator.dt_ms s) (Simulator._time_ms s) active
         (Simulator.switch s) false
       = Some (sent, sw, loss, recs)
    /\ (fed, r, calls)
       = (if negb (Simulator.outage_active s') then
            Simulator.feedback_phase (Simulator.rtt_jitter_std_ms s)
              (Switch.queue_delay_ms (snd (Switch.dequeue sw (Simulator.dt_ms s))))
              (Switch.ecn_fraction (Simulator.switch s)) loss sent
              (Simulator.rng
                 (Simulator._check_outage
                    (Simulator.set_flows
                       (Simulator.set_short_flow_queue s queue) active)
                    (Simulator._time_ms s)))
          else
            (sent,
             Simulator.rng
               (Simulator._check_outage
                  (Simulator.set_flows
                     (Simulator.set_short_flow_queue s queue) active)
                  (Simulator._time_ms s)),
             []))
    /\ Simulator.dt_ms s' = Simulator.dt_ms s
    /\ Simulator.duration_ms s' = Simulator.duration_ms s
    /\ Simulator.switch s' = snd (Switch.dequeue sw (Simulator.dt_ms s))
    /\ Simulator.rng s' = r
    /\ Simulator.flows s' = filter unfinished fed
    /\ Simulator.fct_records s' = Simulator.fct_records s ++ recs
    /\ Simulator.short_flow_queue s' = queue
    /\ Simulator._time_ms s' = Simulator._time_ms s + Simulator.dt_ms s
    /\ Simulator.rtt_jitter_std_ms s' = Simulator.rtt_jitter_std_ms s
    /\ (exists m, Simulator.metrics s' = Simulator.metrics s ++ [m]).
Proof.
  intros E. unfold Simulator._step in E.
  apply bind_some in E. destruct E as [[queue active] [Eadm E]].
  set (s1 := Simulator._check_outage _ _) in E.
  pose proof (check_outage_frame
                (Simulator.set_flows
                   (Simulator.set_short_flow_queue s queue) active)
                (Simulator._time_ms s)) as Hframe.
  cbv zeta in Hframe. fold s1 in Hframe. cbn in Hframe.
  destruct Hframe as (Hdt & Hdur & Hsw & Hfl & Hm & Hrec & Hq & Ht & Hj).
  rewrite Hdt, Hsw, Hfl, Hm, Hrec, Hq, Ht, Hj, Hdur in E.
  apply bind_some in E. destruct E as [[[[sent sw] loss] recs] [Esend E]].
  destruct (Switch.dequeue sw (Simulator.dt_ms s)) as [served sw2] eqn:Edeq.
  destruct (if negb (Simulator.outage_active s1) then _ else _)
    as [[fed r] calls0] eqn:Efb.
  injection E as Es Ec. subst s' calls.
  exists queue, active, sent, sw, loss, recs, fed, r.
  rewrite Edeq.
  cbn [snd Simulator.dt_ms Simulator.duration_ms Simulator.switch
       Simulator.rng Simulator.flows Simulator.fct_records
       Simulator.short_flow_queue Simulator._time_ms
       Simulator.rtt_jitter_std_ms Simulator.metrics
       Simulator.outage_active].
  repeat split; try assumption; try reflexivity.
  - fold s1. now rewrite <- Efb.
  - eexists. reflexivity.
Qed.

End StepPhases.

(** * List lemmas *)

Lemma Forall2_transfer {A B : Type} (R : A -> B -> Prop) (P : A -> Prop)
    (Q : B -> Prop) (l : list A) (l' : list B) :
  (forall x y, R x y -> P x -> Q y) ->
  Forall2 R l l' -> Forall P l -> Forall Q l'.
Proof.
  intros HR H2. induction H2 as [| x y l l' Hxy _ IH]; intros Hl.
  - constructor.
  - inversion Hl; subst. constructor; eauto.
Qed.

Lemma filter_split_perm {A : Type} (p : A -> bool) (l : list A) :
  Permutation l (filter (fun x => negb (p x)) l ++ filter p l).
Proof.
  induction l as [| x l IH]; cbn.
  - constructor.
  - destruct (p x); cbn.
    + now apply Permutation_cons_app.
    + now constructor.
Qed.

Lemma Forall_filter {A : Type} (P : A -> Prop) (p : A -> bool) (l : list A) :
  Forall P l -> Forall P (filter p l).
Proof.
  intros Hl. apply Forall_forall. intros x Hx.
  apply filter_In in Hx. destruct Hx as [Hx _].
  now apply (proj1 (Forall_forall P l) Hl).
Qed.

Lemma Forall_filter_true {A : Type} (p : A -> bool) (l : list A) :
  Forall (fun x => p x = true) (filter p l).
Proof.
  apply Forall_forall. intros x Hx. now apply filter_In in Hx.
Qed.

(** * Flows through the phases *)

Lemma same_identity_fids (fl fl' : list Flow.t) :
  Forall2 same_identity fl fl' ->
  map Flow.fid (filter unfinished fl') = map Flow.fid (filter unfinished fl).
Proof.
  induction 1 as [| f f' fl fl' Hff _ IH]; [reflexivity |].
  destruct Hff as (Hfid & _ & _ & _ & _ & _ & Hfin & _).
  unfold unfinished in *. cbn. rewrite Hfin.
  destruct (Flow.finished f); cbn; congruence.
Qed.

Lemma send_outcome_fids (t_ms : Q) (fl fl' : list Flow.t) :
  Forall2 (send_outcome t_ms) fl fl' -> map Flow.fid fl' = map Flow.fid fl.
Proof.
  induction 1 as [| f f' fl fl' Hff _ IH]; [reflexivity |].
  destruct Hff as (Hfid & _). cbn. congruence.
Qed.

Lemma completion_records_fids (t_ms : Q) (sent : list Flow.t) :
  Forall (fun f => exists st, Flow.start_time_ms f = Some st) sent ->
  map FCTRecord.fid (completion_records t_ms sent)
  = map Flow.fid (filter Flow.finished sent).
Proof.
  unfold completion_records.
  induction 1 as [| f sent [st Hst] _ IH]; [reflexivity |].
  cbn [filter]. destruct (Flow.finished f); [| exact IH].
  cbn [flat_map map]. unfold completion_record at 1. rewrite Hst.
  cbn. now rewrite IH.
Qed.

Lemma completion_records_nonneg (t_ms : Q) (sent : list Flow.t) :
  Forall (fun f => exists st, Flow.start_time_ms f = Some st /\ st <= t_ms)
    sent ->
  Forall (fun r => 0 <= FCTRecord.fct_ms r) (completion_records t_ms sent).
Proof.
  unfold completion_records.
  induction 1 as [| f sent [st [Hst Hle]] _ IH]; [constructor |].
  cbn [filter]. destruct (Flow.finished f); [| exact IH].
  cbn [flat_map]. unfold completion_record at 1. rewrite Hst.
  cbn. constructor; [cbn; lra | exact IH].
Qed.

(** Every completion record of a step comes from a flow that the send
    loop marked finished at the step's time, and carries its id, tag, size
    and the time since its start. *)
Lemma completion_records_origin (t_ms : Q) (sent : list Flow.t)
    (r : FCTRecord.t) :
  In r (completion_records t_ms sent) ->
  exists f st,
    In f sent /\ Flow.finished f = true
    /\ Flow.start_time_ms f = Some st
    /\ r = FCTRecord.mk (Flow.fid f) (Flow.cc f) (Flow.size_bytes f)
             (t_ms - st).
Proof.
  unfold completion_records. intros Hin.
  apply in_flat_map in Hin. destruct Hin as [f [Hf Hr]].
  apply filter_In in Hf. destruct Hf as [Hf Hfin].
  unfold completion_record in Hr.
  destruct (Flow.start_time_ms f) as [st |] eqn:Hst; [| contradiction].
  destruct Hr as [Hr | []]. exists f, st. now repeat split.
Qed.

Section StepInvariants.

Context {G : Type} `{Generator G}.

(** ** The window floor along a step *)

Lemma step_cwnd_floor (s s' : Simulator.t G) (calls : list AckCall.t) :
  all_cwnd_floor s ->
  Simulator._step s = Some (s', calls) ->
  all_cwnd_floor s'.
Proof.
  intros [Hfl Hq] E.
  destruct (step_phases _ _ _ E)
    as (queue & active & sent & sw & loss & recs & fed & r
        & Eadm & Esend & Efb & _ & _ & _ & _ & Hflows & _ & Hqueue & _).
  destruct (admit_arrivals_spec _ _ _ _ _ Eadm) as [due [Hsplit Hact]].
  rewrite Hsplit in Hq. apply Forall_app in Hq. destruct Hq as [Hdue Hrest].
  assert (Hactive : Forall cwnd_floor active).
  { subst active. apply Forall_app. split; [exact Hfl |].
    apply Forall_forall. intros f Hf. apply in_map_iff in Hf.
    destruct Hf as [f0 [<- Hf0]].
    exact (proj1 (Forall_forall _ _) Hdue f0 Hf0). }
  assert (Hsent : Forall cwnd_floor sent).
  { destruct (send_phase_spec _ _ _ _ _ _ _ _ _ Esend) as [Hout _].
    refine (Forall2_transfer _ _ _ _ _ _ Hout Hactive).
    intros x y (_ & _ & _ & _ & _ & _ & (Hc & _) & _) Hx.
    unfold cwnd_floor in *. now rewrite Hc. }
  assert (Hfed : Forall cwnd_floor fed).
  { destruct (negb (Simulator.outage_active s')).
    - symmetry in Efb. apply feedback_phase_spec in Efb.
      destruct Efb as (_ & _ & _ & _ & Hfloor). auto.
    - inversion Efb; subst. exact Hsent. }
  split.
  - rewrite Hflows. now apply Forall_filter.
  - now rewrite Hqueue.
Qed.

(** ** The switch along a step *)

Lemma step_switch_inv (s s' : Simulator.t G) (calls : list AckCall.t) :
  0 <= Simulator.dt_ms s ->
  all_cwnd_floor s ->
  switch_inv (Simulator.switch s) ->
  Simulator._step s = Some (s', calls) ->
  switch_inv (Simulator.switch s').
Proof.
  intros Hdt [Hfl Hq] Hsw E.
  destruct (step_phases _ _ _ E)
    as (queue & active & sent & sw & loss & recs & fed & r
        & Eadm & Esend & _ & _ & _ & Hswitch & _).
  destruct (admit_arrivals_spec _ _ _ _ _ Eadm) as [due [Hsplit Hact]].
  rewrite Hsplit in Hq. apply Forall_app in Hq. destruct Hq as [Hdue Hrest].
  assert (Hactive : Forall cwnd_floor active).
  { subst active. apply Forall_app. split; [exact Hfl |].
    apply Forall_forall. intros f Hf. apply in_map_iff in Hf.
    destruct Hf as [f0 [<- Hf0]].
    exact (proj1 (Forall_forall _ _) Hdue f0 Hf0). }
  destruct (send_phase_switch_inv _ _ _ _ _ _ _ _ _ Esend Hdt Hactive Hsw)
    as [Hinv _].
  rewrite Hswitch. now apply dequeue_inv.
Qed.

(** ** A step from a ready state *)

Lemma step_total (s : Simulator.t G) (queue active sent : list Flow.t)
    (sw : Switch.t) (loss : bool) (recs : list FCTRecord.t) :
  Simulator.admit_arrivals (Simulator._time_ms s)
    (Simulator.short_flow_queue s) (Simulator.flows s)
  = Some (queue, active) ->
  Simulator.send_phase (Simulator.dt_ms s) (Simulator._time_ms s) active
    (Simulator.switch s) false
  = Some (sent, sw, loss, recs) ->
  exists s' calls, Simulator._step s = Some (s', calls).
Proof.
  intros Eadm Esend. unfold Simulator._step. rewrite Eadm. cbn [bind].
  set (s1 := Simulator._check_outage _ _).
  pose proof (check_outage_frame
                (Simulator.set_flows
                   (Simulator.set_short_flow_queue s queue) active)
                (Simulator._time_ms s)) as Hframe.
  cbv zeta in Hframe. fold s1 in Hframe. cbn in Hframe.
  destruct Hframe as (Hdt & Hdur & Hsw & Hfl & Hm & Hrec & Hq & Ht & Hj).
  rewrite Hdt, Hsw, Hfl, Esend. cbn [bind].
  destruct (Switch.dequeue sw (Simulator.dt_ms s)) as [served sw2].
  destruct (if negb (Simulator.outage_active s1) then _ else _)
    as [[fed r] calls0].
  eauto.
Qed.

Lemma step_ready (s : Simulator.t G) :
  ready s ->
  exists s' calls sent,
    Simulator._step s = Some (s', calls)
    /\ ready s'
    /\ Permutation (census s) (census s')
    /\ Simulator.fct_records s'
       = Simulator.fct_records s
         ++ completion_records (Simulator._time_ms s) sent
    /\ Forall (fun r => 0 <= FCTRecord.fct_ms r)
         (completion_records (Simulator._time_ms s) sent)
    /\ map Flow.fid (Simulator.flows s')
       = map Flow.fid (filter unfinished sent)
    /\ Forall (fun c => Flow.finished (AckCall.receiver c) = false) calls
    /\ exists queue active sw loss,
         Simulator.admit_arrivals (Simulator._time_ms s)
           (Simulator.short_flow_queue s) (Simulator.flows s)
         = Some (queue, active)
         /\ Simulator.send_phase (Simulator.dt_ms s) (Simulator._time_ms s)
              active (Simulator.switch s) false
            = Some (sent, sw, loss,
                    completion_records (Simulator._time_ms s) sent)
         /\ Forall (fun f => Flow.finished f = false) active
         /\ send_loop (Simulator.dt_ms s) (Simulator._time_ms s)
              (Simulator.switch s) active sent
         /\ Forall2 (send_outcome (Simulator._time_ms s)) active sent
         /\ map FCTRecord.fid
              (completion_records (Simulator._time_ms s) sent)
            = map Flow.fid (filter Flow.finished sent)
         /\ forall r,
              In r (completion_records (Simulator._time_ms s) sent) ->
              exists f st,
                In f sent
                /\ Flow.finished f = true
                /\ Flow.finish_time_ms f = Some (Simulator._time_ms s)
                /\ Flow.start_time_ms f = Some st
                /\ r = FCTRecord.mk (Flow.fid f) (Flow.cc f)
                         (Flow.size_bytes f) (Simulator._time_ms s - st).
Proof.
  intros (Hdt & Hfl & Hq).
  destruct (admit_arrivals_total (Simulator._time_ms s) _ (Simulator.flows s) Hq)
    as [queue [active Eadm]].
  destruct (admit_arrivals_spec _ _ _ _ _ Eadm) as [due [Hsplit Hact]].
  pose proof Hq as Hq0.
  rewrite Hsplit in Hq. apply Forall_app in Hq. destruct Hq as [Hdue Hrest].
  assert (Hactive : Forall (active_ok (Simulator._time_ms s)) active).
  { subst active. apply Forall_app. split; [exact Hfl |].
    apply Forall_forall. intros f Hf. apply in_map_iff in Hf.
    destruct Hf as [f0 [<- Hf0]].
    destruct (proj1 (Forall_forall _ _) Hdue f0 Hf0) as [Hunf _].
    split; [exact Hunf |]. exists (Simulator._time_ms s).
    split; [reflexivity | apply Qle_refl]. }
  assert (Hstarted : Forall (fun f => exists st, Flow.start_time_ms f = Some st)
                       active).
  { eapply Forall_impl; [| exact Hactive].
    intros f [_ [st [Hst _]]]. eauto. }
  destruct (send_phase_total (Simulator.dt_ms s) (Simulator._time_ms s) active
              (Simulator.switch s) false Hstarted)
    as [sent [sw [loss [recs Esend]]]].
  destruct (step_total _ _ _ _ _ _ _ Eadm Esend) as [s' [calls E]].
  destruct (step_phases _ _ _ E)
    as (queue0 & active0 & sent0 & sw0 & loss0 & recs0 & fed & r
        & Eadm0 & Esend0 & Efb & Hdt' & _ & _ & _ & Hflows & Hrecs & Hqueue
        & Htime & _).
  rewrite Eadm in Eadm0. injection Eadm0 as <- <-.
  rewrite Esend in Esend0. injection Esend0 as <- <- <- <-.
  destruct (send_phase_spec _ _ _ _ _ _ _ _ _ Esend) as [Hout Hcompl].
  assert (Hunf : Forall (fun f => Flow.finished f = false) active).
  { eapply Forall_impl; [| exact Hactive]. now intros f [Hf _]. }
  specialize (Hcompl Hunf). subst recs.
  pose proof (send_phase_loop _ _ _ _ _ _ _ _ _ Esend) as Hloop.
  assert (Hsent : Forall (fun f => exists st, Flow.start_time_ms f = Some st
                                              /\ st <= Simulator._time_ms s)
                    sent).
  { refine (Forall2_transfer _ _ _ _ _ _ Hout Hactive).
    intros x y (_ & _ & _ & _ & _ & Hst & _) [_ [st [Hx Hle]]].
    exists st. split; [congruence | exact Hle]. }
  assert (Hfed : Forall2 same_identity sent fed
                 /\ Forall (fun c => Flow.finished (AckCall.receiver c) = false)
                      calls).
  { destruct (negb (Simulator.outage_active s')).
    - symmetry in Efb. apply feedback_phase_spec in Efb.
      destruct Efb as (Hid & _ & Hrcv & _). split; [exact Hid |].
      apply Forall_forall. intros c Hc.
      assert (Hin : In (AckCall.receiver c) (filter unfinished sent)).
      { rewrite <- Hrcv. now apply in_map. }
      apply filter_In in Hin. destruct Hin as [_ Hu].
      unfold unfinished in Hu. now apply negb_true_iff in Hu.
    - injection Efb as Hf _ Hc. subst fed calls. split; [| constructor].
      clear. induction sent; constructor; auto.
      unfold same_identity. repeat split. }
  destruct Hfed as [Hfed Hcalls].
  assert (Horigin : forall r0,
             In r0 (completion_records (Simulator._time_ms s) sent) ->
             exists f st,
               In f sent
               /\ Flow.finished f = true
               /\ Flow.finish_time_ms f = Some (Simulator._time_ms s)
               /\ Flow.start_time_ms f = Some st
               /\ r0 = FCTRecord.mk (Flow.fid f) (Flow.cc f)
                         (Flow.size_bytes f) (Simulator._time_ms s - st)).
  { assert (Hfinish : Forall (fun f => Flow.finished f = true ->
                                Flow.finish_time_ms f
                                = Some (Simulator._time_ms s)) sent).
    { refine (Forall2_transfer _ _ _ _ _ _ Hout Hactive).
      intros x y Hxy [Hx _]. intros Hy.
      destruct Hxy as (_ & _ & _ & _ & _ & _ & _ & _ & _ & Hfin).
      now apply Hfin. }
    intros r0 Hr0. apply completion_records_origin in Hr0.
    destruct Hr0 as (f & st & Hf & Hfin & Hst & ->).
    exists f, st. repeat split; try assumption.
    exact (proj1 (Forall_forall _ _) Hfinish f Hf Hfin). }
  exists s', calls, sent.
  split; [exact E |].
  split; [| split; [| split; [exact Hrecs | split; [| split; [| split;
    [exact Hcalls | exists queue, active, sw, loss; split; [exact Eadm |
      split; [exact Esend | split; [exact Hunf | split; [exact Hloop |
      split; [exact Hout | split; [| exact Horigin]]]]]]]]]]]].
  - (* ready s' *)
    split; [rewrite Hdt'; exact Hdt |]. split.
    + rewrite Hflows, Htime.
      assert (Hfedok : Forall (fun f => exists st,
                                   Flow.start_time_ms f = Some st
                                   /\ st <= Simulator._time_ms s) fed).
      { refine (Forall2_transfer _ _ _ _ _ _ Hfed Hsent).
        intros x y (_ & _ & _ & _ & _ & _ & _ & Hst & _) [st [Hx Hle]].
        exists st. split; [congruence | exact Hle]. }
      apply Forall_forall. intros f Hf. apply filter_In in Hf.
      destruct Hf as [Hf Hu].
      destruct (proj1 (Forall_forall _ _) Hfedok f Hf) as [st [Hst Hle]].
      split.
      * unfold unfinished in Hu. now apply negb_true_iff in Hu.
      * exists st. split; [exact Hst | lra].
    + rewrite Hqueue. exact Hrest.
  - (* census *)
    unfold census. rewrite Hqueue, Hflows, Hrecs, Hsplit.
    rewrite (same_identity_fids _ _ Hfed).
    rewrite !map_app.
    rewrite completion_records_fids
      by (eapply Forall_impl; [| exact Hsent]; intros f [st [Hst _]]; eauto).
    pose proof (filter_split_perm Flow.finished sent) as Hperm.
    apply (Permutation_map Flow.fid) in Hperm.
    rewrite map_app in Hperm.
    rewrite (send_outcome_fids _ _ _ Hout), Hact, map_app in Hperm.
    assert (Hadm : map Flow.fid (map (admitted_at (Simulator._time_ms s)) due)
                   = map Flow.fid due).
    { rewrite map_map. reflexivity. }
    rewrite Hadm in Hperm.
    fold unfinished in Hperm.
    set (A := map Flow.fid due) in *.
    set (B := map Flow.fid queue) in *.
    set (C := map Flow.fid (Simulator.flows s)) in *.
    set (D := map FCTRecord.fid (Simulator.fct_records s)) in *.
    set (U := map Flow.fid (filter unfinished sent)) in *.
    set (F := map Flow.fid (filter Flow.finished sent)) in *.
    transitivity (B ++ (C ++ A) ++ D).
    { rewrite <- !app_assoc. rewrite (Permutation_app_comm A (B ++ C ++ D)).
      rewrite <- !app_assoc. do 2 apply Permutation_app_head.
      apply Permutation_app_comm. }
    apply Permutation_app_head.
    rewrite Hperm. rewrite <- !app_assoc. apply Permutation_app_head.
    apply Permutation_app_comm.
  - now apply completion_records_nonneg.
  - rewrite Hflows. now apply same_identity_fids.
  - (* one record per finished flow *)
    apply completion_records_fids.
    eapply Forall_impl; [| exact Hsent]. intros f [st [Hst _]]. eauto.
Qed.

End StepInvariants.

Section RunLemmas.

Context {G : Type} `{Generator G}.

(** ** Scheduling short flows *)

Lemma insert_by_key_perm (k : Q) (f : Flow.t) (l : list (Q * Flow.t)) :
  Permutation ((k, f) :: l) (Simulator.insert_by_key k f l).
Proof.
  induction l as [| [k' f'] l IH]; cbn.
  - constructor. constructor.
  - destruct (Qltb k' k).
    + rewrite perm_swap. now constructor.
    + reflexivity.
Qed.

Lemma sort_keyed_perm (l : list (Q * Flow.t)) :
  Permutation l (Simulator.sort_keyed l).
Proof.
  induction l as [| [k f] l IH]; cbn.
  - constructor.
  - rewrite <- insert_by_key_perm. now constructor.
Qed.

Lemma start_keys_snd (l : list Flow.t) (ks : list (Q * Flow.t)) :
  Simulator.start_keys l = Some ks -> map snd ks = l.
Proof.
  induction l as [| f l IH] in ks |- *; cbn; intros E.
  - now inversion E.
  - apply bind_some in E. destruct E as [k [_ E]].
    apply bind_some in E. destruct E as [ks' [Eks E]].
    inversion E; subst. cbn. now rewrite (IH _ Eks).
Qed.

Lemma sort_by_start_time_perm (l l' : list Flow.t) :
  Simulator.sort_by_start_time l = Some l' -> Permutation l l'.
Proof.
  unfold Simulator.sort_by_start_time.
  destruct (List.length l <? 2)%nat.
  - intros E. now inversion E.
  - intros E. apply bind_some in E. destruct E as [ks [Eks E]].
    inversion E; subst. rewrite <- (start_keys_snd _ _ Eks) at 1.
    apply Permutation_map. apply sort_keyed_perm.
Qed.

(** Every flow the scheduling loop appends comes from the constructor,
    with its arrival time set. *)
Lemma schedule_loop_spec (P : Flow.t -> Prop) (fuel : nat)
    (duration lam : Q) (size : xfloat) (cc : string) (rtt_base_ms : Q) :
  (forall fid t_ms,
      P (Flow.set_start_time_ms (Flow.init fid cc rtt_base_ms size)
           (Some t_ms))) ->
  forall t_ms fid r queue r' queue',
    Simulator.schedule_loop fuel duration lam size cc rtt_base_ms
      t_ms fid r queue = Some (r', queue') ->
    Forall P queue -> Forall P queue'.
Proof.
  intros HP. induction fuel as [| fuel IH];
    intros t_ms fid r queue r' queue' E Hq; cbn in E;
    (destruct (Qltb t_ms duration);
     [| inversion E; subst; exact Hq]); [discriminate |].
  destruct (Qeq_bool lam 0); [discriminate |].
  destruct (exponential (1000.0 / lam) r) as [gap r1].
  destruct (Qltb (t_ms + gap) duration).
  - eapply IH; [exact E |]. apply Forall_app. split; [exact Hq |].
    constructor; [apply HP | constructor].
  - eapply IH; eauto.
Qed.

Lemma schedule_short_flows_floor (fuel : nat) (s s' : Simulator.t G)
    (lam : Q) (size : xfloat) (cc : string) (rtt_base_ms : Q) :
  all_cwnd_floor s ->
  Simulator.schedule_short_flows fuel s lam size cc rtt_base_ms = Some s' ->
  all_cwnd_floor s'.
Proof.
  intros [Hfl Hq] E. unfold Simulator.schedule_short_flows in E.
  apply bind_some in E. destruct E as [[r queue] [Eloop E]].
  apply bind_some in E. destruct E as [queue' [Esort E]].
  inversion E; subst; clear E. split; cbn; [exact Hfl |].
  apply (Permutation_Forall (sort_by_start_time_perm _ _ Esort)).
  refine (schedule_loop_spec cwnd_floor _ _ _ _ _ _ _ _ _ _ _ _ _ Eloop Hq).
  intros fid t_ms. apply init_floor.
Qed.

Lemma perform_floor (s s' : Simulator.t G) (c : call) :
  all_cwnd_floor s -> adds_constructed c ->
  perform s c = Some s' -> all_cwnd_floor s'.
Proof.
  intros Hs Hc E. destruct c as [flow | fuel lam size cc rtt | p d j]; cbn in E.
  - inversion E; subst; clear E. destruct Hs as [Hfl Hq].
    split; cbn; [| exact Hq]. apply Forall_app. split; [exact Hfl |].
    constructor; [| constructor].
    destruct Hc as (fid & cc & rtt & size & ->). apply init_floor.
  - eapply schedule_short_flows_floor; eauto.
  - inversion E; subst; clear E. exact Hs.
Qed.

Lemma perform_all_floor (script : list call) :
  forall s s' : Simulator.t G,
    all_cwnd_floor s -> Forall adds_constructed script ->
    perform_all s script = Some s' -> all_cwnd_floor s'.
Proof.
  induction script as [| c script IH]; intros s s' Hs Hall E; cbn in E.
  - now inversion E; subst.
  - inversion Hall; subst.
    apply bind_some in E. destruct E as [s1 [E1 E]].
    eapply IH; [| eassumption | exact E].
    eapply perform_floor; eauto.
Qed.

Lemma init_all_floor (dt_ms duration_ms : Q) (sw : option Switch.t) (r : G) :
  all_cwnd_floor (Simulator.init dt_ms duration_ms sw r).
Proof. split; constructor. Qed.

(** ** Runs *)

Lemma run_steps_floor (n : nat) :
  forall s s' : Simulator.t G,
    all_cwnd_floor s -> Simulator.run_steps n s = Some s' -> all_cwnd_floor s'.
Proof.
  induction n as [| n IH]; intros s s' Hs E; cbn in E.
  - now inversion E; subst.
  - apply bind_some in E. destruct E as [[s1 calls] [E1 E]].
    eapply IH; [| exact E]. eapply step_cwnd_floor; eauto.
Qed.

Lemma step_dt (s s' : Simulator.t G) (calls : list AckCall.t) :
  Simulator._step s = Some (s', calls) ->
  Simulator.dt_ms s' = Simulator.dt_ms s.
Proof.
  intros E. destruct (step_phases _ _ _ E)
    as (? & ? & ? & ? & ? & ? & ? & ? & _ & _ & _ & Hdt & _).
  exact Hdt.
Qed.

Lemma run_steps_switch_inv (n : nat) :
  forall s s' : Simulator.t G,
    0 <= Simulator.dt_ms s ->
    all_cwnd_floor s ->
    switch_inv (Simulator.switch s) ->
    Simulator.run_steps n s = Some s' ->
    switch_inv (Simulator.switch s').
Proof.
  induction n as [| n IH]; intros s s' Hdt Hfl Hsw E; cbn in E.
  - now inversion E; subst.
  - apply bind_some in E. destruct E as [[s1 calls] [E1 E]].
    eapply IH; [| | | exact E].
    + rewrite (step_dt _ _ _ E1). exact Hdt.
    + eapply step_cwnd_floor; eauto.
    + eapply step_switch_inv; eauto.
Qed.

Lemma run_steps_ready (n : nat) :
  forall s : Simulator.t G,
    ready s ->
    exists s' new,
      Simulator.run_steps n s = Some s'
      /\ ready s'
      /\ Permutation (census s) (census s')
      /\ Simulator.fct_records s' = Simulator.fct_records s ++ new
      /\ Forall (fun r => 0 <= FCTRecord.fct_ms r) new.
Proof.
  induction n as [| n IH]; intros s Hs; cbn.
  - exists s, []. rewrite app_nil_r.
    split; [reflexivity | split; [exact Hs | split; [reflexivity |]]].
    split; [reflexivity | constructor].
  - destruct (step_ready s Hs)
      as (s1 & calls & sent & E1 & Hs1 & Hperm1 & Hrec1 & Hpos1 & _).
    rewrite E1. cbn [bind].
    destruct (IH s1 Hs1) as (s' & new & E & Hs' & Hperm & Hrec & Hpos).
    exists s', (completion_records (Simulator._time_ms s) sent ++ new).
    split; [exact E | split; [exact Hs' | split; [| split]]].
    + now transitivity (census s1).
    + now rewrite Hrec, Hrec1, app_assoc.
    + apply Forall_app. now split.
Qed.

(** ** The states the public interface produces are ready *)

Lemma init_ready (dt_ms duration_ms : Q) (sw : option Switch.t) (r : G) :
  0 <= dt_ms -> ready (Simulator.init dt_ms duration_ms sw r).
Proof. intros Hdt. split; [exact Hdt | split; constructor]. Qed.

Lemma schedule_short_flows_ready (fuel : nat) (s s' : Simulator.t G)
    (lam : Q) (size : xfloat) (cc : string) (rtt_base_ms : Q) :
  ready s ->
  Simulator.schedule_short_flows fuel s lam size cc rtt_base_ms = Some s' ->
  ready s'.
Proof.
  intros (Hdt & Hfl & Hq) E. unfold Simulator.schedule_short_flows in E.
  apply bind_some in E. destruct E as [[r queue] [Eloop E]].
  apply bind_some in E. destruct E as [queue' [Esort E]].
  inversion E; subst; clear E.
  split; [exact Hdt | split; [exact Hfl |]]. cbn.
  apply (Permutation_Forall (sort_by_start_time_perm _ _ Esort)).
  refine (schedule_loop_spec pending_ok _ _ _ _ _ _ _ _ _ _ _ _ _ Eloop Hq).
  intros fid t_ms. split; [reflexivity | now exists t_ms].
Qed.

Lemma perform_ready (s s' : Simulator.t G) (c : call) :
  ready s -> adds_constructed c -> perform s c = Some s' -> ready s'.
Proof.
  intros Hs Hc E. destruct c as [flow | fuel lam size cc rtt | p d j]; cbn in E.
  - inversion E; subst; clear E. destruct Hs as (Hdt & Hfl & Hq).
    split; [exact Hdt | split; [| exact Hq]]. cbn.
    apply Forall_app. split; [exact Hfl |].
    constructor; [| constructor].
    destruct Hc as (fid & cc & rtt & size & ->).
    split; [reflexivity |]. exists (Simulator._time_ms s).
    split; [reflexivity | apply Qle_refl].
  - eapply schedule_short_flows_ready; eauto.
  - inversion E; subst; clear E. exact Hs.
Qed.

Lemma perform_all_ready (script : list call) :
  forall s s' : Simulator.t G,
    ready s -> Forall adds_constructed script ->
    perform_all s script = Some s' -> ready s'.
Proof.
  induction script as [| c script IH]; intros s s' Hs Hall E; cbn in E.
  - now inversion E; subst.
  - inversion Hall; subst.
    apply bind_some in E. destruct E as [s1 [E1 E]].
    eapply IH; [| eassumption | exact E].
    eapply perform_ready; eauto.
Qed.

End RunLemmas.

(** * The claims *)

(** ** Flow *)

(** C10.  A flow whose tag is none of ['reno'], ['dctcp'], ['spacecc'] is
    returned by [on_ack] as it was, whatever the arguments: no attribute
    is assigned. *)
Theorem on_ack_unknown_tag_noop (f : Flow.t) (rtt_ms queue_ms ecn_frac : Q)
    (loss : bool) :
  Flow.cc f <> "reno"%string ->
  Flow.cc f <> "dctcp"%string ->
  Flow.cc f <> "spacecc"%string ->
  Flow.on_ack f rtt_ms queue_ms ecn_frac loss = f.
Proof.
  intros Hr Hd Hs. unfold Flow.on_ack.
  apply String.eqb_neq in Hr, Hd, Hs. now rewrite Hr, Hd, Hs.
Qed.

Lemma on_ack_unknown_tag_noop_witness :
  Flow.on_ack (Examples.flow_of "cubic") 3 1 1 true = Examples.flow_of "cubic".
Proof.
  apply (on_ack_unknown_tag_noop (Examples.flow_of "cubic") 3 1 1 true);
    discriminate.
Defined.

(** C6.  A DCTCP flow (gain [g = 1/16], as the constructor sets it and
    [on_ack] leaves it) first gets [alpha = (1 - 1/16) * alpha + 1/16 *
    ecn_frac]; then, with the new [alpha], [cwnd = max(cwnd * (2 - alpha)
    / 2, 2)] if [ecn_frac > 0] and [cwnd = cwnd + 0.1 * cwnd] otherwise.
    Nothing else is assigned. *)
Theorem dctcp_update_rule (f : Flow.t) (rtt_ms queue_ms ecn_frac : Q)
    (loss : bool) :
  Flow.cc f = "dctcp"%string ->
  Flow.g f == 1 / 16 ->
  Flow.alpha (Flow.on_ack f rtt_ms queue_ms ecn_frac loss)
    == (1 - 1 / 16) * Flow.alpha f + (1 / 16) * ecn_frac
  /\ (0 < ecn_frac ->
      Flow.cwnd (Flow.on_ack f rtt_ms queue_ms ecn_frac loss)
      == Qmax (Flow.cwnd f
               * (2 - Flow.alpha (Flow.on_ack f rtt_ms queue_ms ecn_frac loss))
               / 2) 2)
  /\ (ecn_frac <= 0 ->
      Flow.cwnd (Flow.on_ack f rtt_ms queue_ms ecn_frac loss)
      = Flow.cwnd f + 0.1 * Flow.cwnd f)
  /\ Flow.rtt_smooth (Flow.on_ack f rtt_ms queue_ms ecn_frac loss)
     = Flow.rtt_smooth f
  /\ same_identity f (Flow.on_ack f rtt_ms queue_ms ecn_frac loss)
  /\ Flow.g (Flow.init (Flow.fid f) (Flow.cc f) (Flow.rtt_base_ms f)
               (Flow.size_bytes f)) = 1 / 16.
Proof.
  intros Hcc Hg.
  split; [| split; [| split; [| split; [| split]]]].
  - rewrite (on_ack_dctcp _ _ _ _ _ Hcc). unfold Flow._dctcp_update.
    destruct (Qgtb ecn_frac 0); cbn; now rewrite Hg.
  - intros Hpos. rewrite (on_ack_dctcp _ _ _ _ _ Hcc).
    unfold Flow._dctcp_update.
    rewrite (proj2 (Qgtb_gt _ _) Hpos). cbn. apply pymax_Qmax.
  - intros Hle. rewrite (on_ack_dctcp _ _ _ _ _ Hcc).
    unfold Flow._dctcp_update.
    now rewrite (proj2 (Qgtb_le _ _) Hle).
  - rewrite (on_ack_dctcp _ _ _ _ _ Hcc). unfold Flow._dctcp_update.
    now destruct (Qgtb ecn_frac 0).
  - apply on_ack_same_identity.
  - reflexivity.
Qed.

Lemma dctcp_update_rule_witness :
  Flow.alpha (Flow.on_ack (Examples.flow_of "dctcp") 1 0 1 false)
  == (1 - 1 / 16) * Flow.alpha (Examples.flow_of "dctcp") + (1 / 16) * 1.
Proof.
  apply (dctcp_update_rule (Examples.flow_of "dctcp") 1 0 1 false);
    reflexivity.
Defined.

(** C5.  A SpaceCC flow keeps a smoothed RTT: the sample itself while
    [rtt_smooth] is still 0 (no sample seen), and [0.9 * rtt_smooth +
    0.1 * rtt_ms] from then on.  With [rtt_ratio = rtt_smooth /
    max(rtt_base_ms, 0.01)] taken from the new value, [cwnd = max(cwnd *
    0.5, 2)] if the ratio exceeds 1.25 and [cwnd = cwnd + cwnd * 0.5 *
    (0.1 / max(rtt_ms, 0.1))] otherwise.  For a new flow under positive
    samples this is the recurrence started at the first sample. *)
Theorem spacecc_update_rule :
  (forall (f : Flow.t) (rtt_ms queue_ms ecn_frac : Q) (loss : bool),
      Flow.cc f = "spacecc"%string ->
      (Flow.rtt_smooth f == 0 ->
       Flow.rtt_smooth (Flow.on_ack f rtt_ms queue_ms ecn_frac loss) = rtt_ms)
      /\ (~ Flow.rtt_smooth f == 0 ->
          Flow.rtt_smooth (Flow.on_ack f rtt_ms queue_ms ecn_frac loss)
          = 0.9 * Flow.rtt_smooth f + 0.1 * rtt_ms)
      /\ (1.25 < Flow.rtt_smooth (Flow.on_ack f rtt_ms queue_ms ecn_frac loss)
                 / Qmax (Flow.rtt_base_ms f) 0.01 ->
          Flow.cwnd (Flow.on_ack f rtt_ms queue_ms ecn_frac loss)
          == Qmax (Flow.cwnd f * 0.5) 2)
      /\ (Flow.rtt_smooth (Flow.on_ack f rtt_ms queue_ms ecn_frac loss)
          / Qmax (Flow.rtt_base_ms f) 0.01 <= 1.25 ->
          Flow.cwnd (Flow.on_ack f rtt_ms queue_ms ecn_frac loss)
          == Flow.cwnd f + Flow.cwnd f * 0.5 * (0.1 / Qmax rtt_ms 0.1))
      /\ Flow.alpha (Flow.on_ack f rtt_ms queue_ms ecn_frac loss)
         = Flow.alpha f
      /\ same_identity f (Flow.on_ack f rtt_ms queue_ms ecn_frac loss))
  /\ (forall (fid : Z) (rtt_base_ms : Q) (size : xfloat)
        (queue_ms ecn_frac : Q) (loss : bool) (first : Q) (later : list Q),
        0 < first ->
        Forall (fun rtt_ms => 0 < rtt_ms) later ->
        Flow.rtt_smooth
          (ack_series (Flow.init fid "spacecc" rtt_base_ms size)
             queue_ms ecn_frac loss (first :: later))
        = ewma_rtt first later).
Proof.
  split.
  - intros f rtt_ms queue_ms ecn_frac loss Hcc.
    rewrite (on_ack_spacecc _ _ _ _ _ Hcc).
    unfold Flow._spacecc_update.
    destruct (Qeq_bool (Flow.rtt_smooth f) 0) eqn:Ez;
      [apply Qeq_bool_eq in Ez | apply Qeq_bool_neq in Ez];
      cbn [Flow.rtt_smooth Flow.set_rtt_smooth Flow.rtt_base_ms Flow.cwnd];
      match goal with
      | |- context [if Qgtb ?ratio 1.25 then _ else _] =>
          destruct (Qgtb ratio 1.25) eqn:Er;
            [apply Qgtb_gt in Er | apply Qgtb_le in Er];
            rewrite pymax_Qmax in Er
      end;
      cbn;
      (split; [intros Hz; try reflexivity; contradiction |]);
      (split; [intros Hz; try reflexivity; contradiction |]);
      (split; [intros Hr; try apply pymax_Qmax;
               exfalso; exact (Qlt_not_le _ _ Hr Er) |]);
      (split; [intros Hr; try (now rewrite pymax_Qmax);
               exfalso; exact (Qlt_not_le _ _ Er Hr) |]);
      (split; [reflexivity | unfold same_identity; cbn; repeat split]).
  - intros fid rtt_base_ms size queue_ms ecn_frac loss first later Hf Hl.
    unfold ack_series. cbn [fold_left].
    change (fold_left _ later ?f0)
      with (ack_series f0 queue_ms ecn_frac loss later).
    assert (Hfirst : Flow.rtt_smooth
                       (Flow.on_ack (Flow.init fid "spacecc" rtt_base_ms size)
                          first queue_ms ecn_frac loss) = first).
    { rewrite on_ack_spacecc by reflexivity. unfold Flow._spacecc_update.
      cbn [Flow.rtt_smooth Flow.init].
      change (Qeq_bool 0.0 0) with true. cbv iota.
      match goal with
      | |- context [if ?b then _ else _] => destruct b
      end; reflexivity. }
    rewrite ack_series_ewma.
    + now rewrite Hfirst.
    + rewrite on_ack_spacecc by reflexivity. apply spacecc_tag_kept.
    + rewrite on_ack_spacecc by reflexivity.
      apply spacecc_smooth_pos; [discriminate | exact Hf].
    + exact Hl.
Qed.

Lemma spacecc_update_rule_witness :
  Flow.rtt_smooth (Flow.on_ack (Examples.flow_of "spacecc") 3 1 0 false) = 3
  /\ Flow.rtt_smooth
       (ack_series (Flow.init 0 "spacecc" 200 PosInf) 0 0 false [200; 210])
     = ewma_rtt 200 [210].
Proof.
  split.
  - apply (proj1 spacecc_update_rule (Examples.flow_of "spacecc") 3 1 0 false);
      reflexivity.
  - apply (proj2 spacecc_update_rule 0%Z 200 PosInf 0 0 false 200 [210]);
      [reflexivity | repeat constructor].
Defined.

(** ** Switch *)

(** C4.  [enqueue] is all-or-nothing: with [queue_bytes + bytes_in <=
    buffer_bytes] it returns true and the switch differs in [queue_bytes]
    only, which is [queue_bytes + bytes_in]; otherwise it returns false
    and the switch is the one it was. *)
Theorem enqueue_all_or_nothing (sw : Switch.t) (bytes_in : Q) :
  (Switch.queue_bytes sw + bytes_in <= inject_Z (Switch.buffer_bytes sw) ->
   Switch.enqueue sw bytes_in
   = (true, Switch.set_queue_bytes sw (Switch.queue_bytes sw + bytes_in)))
  /\ (~ Switch.queue_bytes sw + bytes_in <= inject_Z (Switch.buffer_bytes sw) ->
      Switch.enqueue sw bytes_in = (false, sw)).
Proof.
  split.
  - apply enqueue_admitted.
  - intros Hgt. apply enqueue_rejected. now apply Qnot_le_lt.
Qed.

Lemma enqueue_all_or_nothing_witness :
  Switch.enqueue Examples.nearly_full 10000
  = (true, Switch.set_queue_bytes Examples.nearly_full (440000 + 10000))
  /\ Switch.enqueue Examples.nearly_full 10001 = (false, Examples.nearly_full).
Proof.
  split.
  - apply (proj1 (enqueue_all_or_nothing Examples.nearly_full 10000)).
    discriminate.
  - apply (proj2 (enqueue_all_or_nothing Examples.nearly_full 10001)).
    intros Hle. now apply Hle.
Defined.

(** ** Flow, along a run *)

(** C2.  [on_ack] keeps [cwnd >= 2] for every tag and all arguments; the
    constructor sets [cwnd = 10]; hence every flow a simulator holds,
    active or pending, has [cwnd >= 2] when [run] starts and after every
    step. *)
Theorem cwnd_never_below_two :
  (forall (f : Flow.t) (rtt_ms queue_ms ecn_frac : Q) (loss : bool),
      cwnd_floor f ->
      cwnd_floor (Flow.on_ack f rtt_ms queue_ms ecn_frac loss))
  /\ (forall (fid : Z) (cc : string) (rtt_base_ms : Q) (size : xfloat),
        Flow.cwnd (Flow.init fid cc rtt_base_ms size) == 10)
  /\ (forall (G : Type) (H : Generator G) (dt_ms duration_ms : Q)
        (sw : option Switch.t) (seed : G) (script : list call)
        (s0 s' : Simulator.t G) (n : nat),
        Forall adds_constructed script ->
        perform_all (Simulator.init dt_ms duration_ms sw seed) script
        = Some s0 ->
        Simulator.run_steps n s0 = Some s' ->
        all_cwnd_floor s0 /\ all_cwnd_floor s').
Proof.
  split; [| split].
  - intros. now apply on_ack_floor.
  - reflexivity.
  - intros G H dt_ms duration_ms sw seed script s0 s' n Hscript Hprep Hrun.
    assert (H0 : all_cwnd_floor s0).
    { eapply perform_all_floor; [apply init_all_floor | exact Hscript |
                                 exact Hprep]. }
    split; [exact H0 |]. eapply run_steps_floor; eauto.
Qed.

Lemma script_adds_constructed : Forall adds_constructed Examples.script.
Proof.
  repeat constructor; cbn; unfold constructed; eauto 10.
Qed.

Lemma cwnd_never_below_two_witness :
  cwnd_floor (Flow.on_ack (Examples.flow_of "reno") 1 0 1 true)
  /\ all_cwnd_floor Examples.two_steps_later.
Proof.
  split.
  - apply (proj1 cwnd_never_below_two (Examples.flow_of "reno") 1 0 1 true).
    unfold cwnd_floor. cbn. discriminate.
  - apply (proj2 (proj2 cwnd_never_below_two) Replay.t _ 0.5 1.5 None
             Examples.seed Examples.script Examples.prepared
             Examples.two_steps_later 2%nat).
    + exact script_adds_constructed.
    + vm_compute. reflexivity.
    + vm_compute. reflexivity.
Defined.

(** ** Switch, along a run *)

(** C3.  [0 <= queue_bytes <= buffer_bytes] holds for a new switch of
    non-negative capacity, and is kept by [enqueue] of a non-negative
    amount and by [dequeue] over a non-negative time; hence it holds
    after every step of a simulator whose step is not negative. *)
Theorem switch_occupancy_bounded :
  (forall buffer_pkts ecn_thresh_pkts : Z,
      (0 <= buffer_pkts)%Z ->
      switch_inv (Switch.init buffer_pkts ecn_thresh_pkts))
  /\ (forall (sw : Switch.t) (bytes_in : Q),
        switch_inv sw -> 0 <= bytes_in ->
        switch_inv (snd (Switch.enqueue sw bytes_in)))
  /\ (forall (sw : Switch.t) (dt_ms : Q),
        switch_inv sw -> 0 <= dt_ms ->
        switch_inv (snd (Switch.dequeue sw dt_ms)))
  /\ (forall (G : Type) (H : Generator G) (s s' : Simulator.t G) (n : nat),
        0 <= Simulator.dt_ms s ->
        all_cwnd_floor s ->
        switch_inv (Simulator.switch s) ->
        Simulator.run_steps n s = Some s' ->
        switch_inv (Simulator.switch s')).
Proof.
  split; [| split; [| split]].
  - apply init_inv.
  - apply enqueue_inv.
  - apply dequeue_inv.
  - intros G H s s' n. apply run_steps_switch_inv.
Qed.

Lemma nearly_full_inv : switch_inv Examples.nearly_full.
Proof. split; discriminate. Qed.

Lemma switch_occupancy_bounded_witness :
  switch_inv (Switch.init 300 30)
  /\ switch_inv (snd (Switch.enqueue Examples.nearly_full 10001))
  /\ switch_inv (snd (Switch.dequeue Examples.nearly_full 0.1)).
Proof.
  split; [| split].
  - apply (proj1 switch_occupancy_bounded 300%Z 30%Z). discriminate.
  - apply (proj1 (proj2 switch_occupancy_bounded) Examples.nearly_full 10001);
      [exact nearly_full_inv | discriminate].
  - apply (proj1 (proj2 (proj2 switch_occupancy_bounded))
             Examples.nearly_full 0.1);
      [exact nearly_full_inv | discriminate].
Defined.

(** ** The step *)

(** What the feedback phase of a step outside an outage calls. *)
Lemma step_feedback_calls {G : Type} `{Generator G} (s s' : Simulator.t G)
    (calls : list AckCall.t) :
  Simulator._step s = Some (s', calls) ->
  Simulator.outage_active s' = false ->
  exists queue active sent sw loss recs,
    Simulator.admit_arrivals (Simulator._time_ms s)
      (Simulator.short_flow_queue s) (Simulator.flows s)
    = Some (queue, active)
    /\ Simulator.send_phase (Simulator.dt_ms s) (Simulator._time_ms s) active
         (Simulator.switch s) false
       = Some (sent, sw, loss, recs)
    /\ Simulator.switch s' = snd (Switch.dequeue sw (Simulator.dt_ms s))
    /\ map AckCall.receiver calls = filter unfinished sent
    /\ Simulator.flows s' = map apply_call calls
    /\ Forall (fun c =>
                 AckCall.queue_ms c = Switch.queue_delay_ms (Simulator.switch s')
                 /\ AckCall.ecn_frac c
                    = Switch.ecn_fraction (Simulator.switch s)
                 /\ AckCall.loss c = loss) calls.
Proof.
  intros E Hout.
  destruct (step_phases _ _ _ E)
    as (queue & active & sent & sw & loss & recs & fed & r
        & Eadm & Esend & Efb & _ & _ & Hsw & _ & Hflows & _).
  rewrite Hout in Efb. cbn [negb] in Efb. symmetry in Efb.
  apply feedback_phase_spec in Efb.
  destruct Efb as (_ & Hres & Hrcv & Hargs & _).
  exists queue, active, sent, sw, loss, recs.
  repeat split; try assumption.
  - now rewrite Hflows.
  - now rewrite Hsw.
Qed.

(** C1 (amended).  In a step outside an outage, every still-active,
    unfinished flow gets one [on_ack] call, and all these calls carry the
    same marking fraction and the same queue delay.  The queue delay is
    the one after the drain phase of the step; the marking fraction is
    [ecn_fraction] of the queue as the step found it, before the send
    phase. *)
Theorem feedback_marks_read_before_send {G : Type} `{Generator G}
    (s : Simulator.t G) :
  marks_read_before_send s
  /\ forall s' calls,
       Simulator._step s = Some (s', calls) ->
       Simulator.outage_active s' = false ->
       Forall (fun c =>
                 AckCall.queue_ms c
                 = Switch.queue_delay_ms (Simulator.switch s')
                 /\ AckCall.ecn_frac c
                    = Switch.ecn_fraction (Simulator.switch s)) calls
       /\ Simulator.flows s' = map apply_call calls
       /\ exists queue active sent sw loss recs,
            Simulator.admit_arrivals (Simulator._time_ms s)
              (Simulator.short_flow_queue s) (Simulator.flows s)
            = Some (queue, active)
            /\ Simulator.send_phase (Simulator.dt_ms s) (Simulator._time_ms s)
                 active (Simulator.switch s) false
               = Some (sent, sw, loss, recs)
            /\ Simulator.switch s'
               = snd (Switch.dequeue sw (Simulator.dt_ms s))
            /\ map AckCall.receiver calls = filter unfinished sent.
Proof.
  split.
  - intros s' calls E Hout.
    destruct (step_feedback_calls _ _ _ E Hout)
      as (queue & active & sent & sw & loss & recs
          & _ & _ & _ & _ & _ & Hargs).
    eapply Forall_impl; [| exact Hargs].
    intros c (_ & -> & _). reflexivity.
  - intros s' calls E Hout.
    destruct (step_feedback_calls _ _ _ E Hout)
      as (queue & active & sent & sw & loss & recs
          & Eadm & Esend & Hsw & Hrcv & Hflows & Hargs).
    split; [| split; [exact Hflows |]].
    + eapply Forall_impl; [| exact Hargs].
      intros c (-> & -> & _). split; reflexivity.
    + exists queue, active, sent, sw, loss, recs. now repeat split.
Qed.

Lemma two_fast_flows_step :
  Simulator._step Examples.two_fast_flows
  = Some (fst (Examples.next Examples.two_fast_flows),
          snd (Examples.next Examples.two_fast_flows)).
Proof. vm_compute. reflexivity. Qed.

Lemma feedback_marks_read_before_send_witness :
  Forall (fun c =>
            AckCall.ecn_frac c
            == Switch.ecn_fraction (Simulator.switch Examples.two_fast_flows))
    (snd (Examples.next Examples.two_fast_flows)).
Proof.
  apply (proj1 (feedback_marks_read_before_send Examples.two_fast_flows)
           (fst (Examples.next Examples.two_fast_flows))
           (snd (Examples.next Examples.two_fast_flows))).
  - exact two_fast_flows_step.
  - vm_compute. reflexivity.
Defined.

(** C1 as stated fails: in the first step of [two_fast_flows] the queue
    is empty when the step begins and above the marking threshold after
    the drain; the calls carry 0. *)
Lemma marks_read_after_drain_fails :
  ~ marks_read_after_drain Examples.two_fast_flows.
Proof.
  unfold marks_read_after_drain. intros Hclaim.
  specialize (Hclaim _ _ two_fast_flows_step eq_refl).
  assert (Hcalls : exists c rest,
             snd (Examples.next Examples.two_fast_flows) = c :: rest
             /\ AckCall.ecn_frac c = 0.0).
  { vm_compute. eauto. }
  assert (Hpost : Switch.ecn_fraction
                    (Simulator.switch
                       (fst (Examples.next Examples.two_fast_flows))) = 1.0).
  { vm_compute. reflexivity. }
  destruct Hcalls as (c & rest & Ec & Hc).
  rewrite Ec in Hclaim. apply Forall_inv in Hclaim.
  rewrite Hc, Hpost in Hclaim. discriminate Hclaim.
Qed.

(** C7.  In a step during an outage no [on_ack] call is made: the active
    flows leave the step with the [cwnd], [alpha] and [rtt_smooth] they
    entered it with.  The send loop and the drain run all the same. *)
Theorem outage_step_freezes_flows {G : Type} `{Generator G}
    (s s' : Simulator.t G) (calls : list AckCall.t) :
  Simulator._step s = Some (s', calls) ->
  Simulator.outage_active s' = true ->
  calls = []
  /\ exists queue active sent sw loss recs,
       Simulator.admit_arrivals (Simulator._time_ms s)
         (Simulator.short_flow_queue s) (Simulator.flows s)
       = Some (queue, active)
       /\ Simulator.send_phase (Simulator.dt_ms s) (Simulator._time_ms s)
            active (Simulator.switch s) false
          = Some (sent, sw, loss, recs)
       /\ Forall2 frozen active sent
       /\ Simulator.flows s' = filter unfinished sent
       /\ Simulator.switch s' = snd (Switch.dequeue sw (Simulator.dt_ms s))
       /\ exists due,
            Simulator.short_flow_queue s = due ++ Simulator.short_flow_queue s'
            /\ active
               = Simulator.flows s ++ map (admitted_at (Simulator._time_ms s)) due.
Proof.
  intros E Hout.
  destruct (step_phases _ _ _ E)
    as (queue & active & sent & sw & loss & recs & fed & r
        & Eadm & Esend & Efb & _ & _ & Hsw & _ & Hflows & _ & Hqueue & _).
  rewrite Hout in Efb. cbn [negb] in Efb.
  injection Efb as Hfed _ Hcalls. subst fed calls.
  split; [reflexivity |].
  exists queue, active, sent, sw, loss, recs.
  repeat split; try assumption;
    [| rewrite Hqueue; now apply admit_arrivals_spec].
  destruct (send_phase_spec _ _ _ _ _ _ _ _ _ Esend) as [Hsent _].
  eapply Forall2_impl; [| exact Hsent].
  intros f f' (_ & _ & _ & _ & _ & _ & Hfrozen & _). exact Hfrozen.
Qed.

Lemma blackout_step :
  Simulator._step Examples.blackout
  = Some (fst (Examples.next Examples.blackout),
          snd (Examples.next Examples.blackout)).
Proof. vm_compute. reflexivity. Qed.

Lemma outage_step_freezes_flows_witness :
  snd (Examples.next Examples.blackout) = [].
Proof.
  apply (outage_step_freezes_flows Examples.blackout
           (fst (Examples.next Examples.blackout))
           (snd (Examples.next Examples.blackout))).
  - exact blackout_step.
  - vm_compute. reflexivity.
Defined.

(** ** The run *)

(** C9.  From a state the public interface produces, a step returns.
    Its send loop goes over the active flows in order, each meeting the
    switch as the flows before it left it: a flow is credited the whole
    of its send when the switch has room for it and nothing otherwise,
    and every flow of finite size whose [sent_bytes] has thereby reached
    the size is marked finished with the step's time as finish time.
    Each flow so finished gets exactly one completion record, whose
    [fct_ms] is that time minus the start time and not negative, is left
    out of the feedback phase, and is gone from the active list
    afterwards.  Over a run, the ids of pending, active and recorded
    flows together stay the same multiset: a recorded flow is never
    active again and never recorded twice.  Construction, [add_flow] of
    new flows and [schedule_short_flows] lead to such a state whenever
    the step is not negative. *)
Theorem finished_flows_recorded_once {G : Type} `{Generator G} :
  (forall s : Simulator.t G,
      ready s ->
      exists s' calls sent,
        Simulator._step s = Some (s', calls)
        /\ ready s'
        /\ Permutation (census s) (census s')
        /\ Simulator.fct_records s'
           = Simulator.fct_records s
             ++ completion_records (Simulator._time_ms s) sent
        /\ Forall (fun r => 0 <= FCTRecord.fct_ms r)
             (completion_records (Simulator._time_ms s) sent)
        /\ map Flow.fid (Simulator.flows s')
           = map Flow.fid (filter unfinished sent)
        /\ Forall (fun c => Flow.finished (AckCall.receiver c) = false) calls
        /\ exists queue active sw loss,
             Simulator.admit_arrivals (Simulator._time_ms s)
               (Simulator.short_flow_queue s) (Simulator.flows s)
             = Some (queue, active)
             /\ Simulator.send_phase (Simulator.dt_ms s)
                  (Simulator._time_ms s) active (Simulator.switch s) false
                = Some (sent, sw, loss,
                        completion_records (Simulator._time_ms s) sent)
             /\ Forall (fun f => Flow.finished f = false) active
             /\ send_loop (Simulator.dt_ms s) (Simulator._time_ms s)
                  (Simulator.switch s) active sent
             /\ Forall2 (send_outcome (Simulator._time_ms s)) active sent
             /\ map FCTRecord.fid
                  (completion_records (Simulator._time_ms s) sent)
                = map Flow.fid (filter Flow.finished sent)
             /\ forall r,
                  In r (completion_records (Simulator._time_ms s) sent) ->
                  exists f st,
                    In f sent
                    /\ Flow.finished f = true
                    /\ Flow.finish_time_ms f = Some (Simulator._time_ms s)
                    /\ Flow.start_time_ms f = Some st
                    /\ r = FCTRecord.mk (Flow.fid f) (Flow.cc f)
                             (Flow.size_bytes f) (Simulator._time_ms s - st))
  /\ (forall (n : nat) (s : Simulator.t G),
        ready s ->
        exists s' new,
          Simulator.run_steps n s = Some s'
          /\ ready s'
          /\ Permutation (census s) (census s')
          /\ Simulator.fct_records s' = Simulator.fct_records s ++ new
          /\ Forall (fun r => 0 <= FCTRecord.fct_ms r) new)
  /\ (forall (dt_ms duration_ms : Q) (sw : option Switch.t) (seed : G)
        (script : list call) (s : Simulator.t G),
        0 <= dt_ms ->
        Forall adds_constructed script ->
        perform_all (Simulator.init dt_ms duration_ms sw seed) script = Some s ->
        ready s).
Proof.
  split; [| split].
  - apply step_ready.
  - apply run_steps_ready.
  - intros dt_ms duration_ms sw seed script s Hdt Hscript E.
    eapply perform_all_ready; [apply init_ready; exact Hdt | exact Hscript |
                               exact E].
Qed.

Lemma one_short_flow_ready : ready Examples.one_short_flow.
Proof.
  split; [discriminate | split].
  - repeat constructor; exists 0.0; split; (reflexivity || discriminate).
  - constructor.
Qed.

Lemma finished_flows_recorded_once_witness :
  exists s' new,
    Simulator.run_steps 2 Examples.one_short_flow = Some s'
    /\ ready s'
    /\ Permutation (census Examples.one_short_flow) (census s')
    /\ Simulator.fct_records s'
       = Simulator.fct_records Examples.one_short_flow ++ new
    /\ Forall (fun r => 0 <= FCTRecord.fct_ms r) new.
Proof.
  apply (proj1 (proj2 finished_flows_recorded_once) 2%nat
           Examples.one_short_flow).
  exact one_short_flow_ready.
Defined.

(** * Further properties of the code *)

(** ** Flow *)

Lemma pymax_lub (a b c : Q) : a <= c -> b <= c -> pymax a b <= c.
Proof. intros Ha Hb. unfold pymax. now destruct (Qgtb b a). Qed.

Lemma spacecc_gain_le_one (rtt_ms : Q) : 0.1 / pymax rtt_ms 0.1 <= 1.
Proof.
  assert (Hm : 0 < pymax rtt_ms 0.1).
  { apply Qlt_le_trans with 0.1; [reflexivity | apply pymax_r]. }
  apply Qle_shift_div_r; [exact Hm |]. rewrite Qmult_1_l. apply pymax_r.
Qed.

Lemma dctcp_alpha_fraction (a g e : Q) :
  in_unit a -> g == 1 / 16 -> in_unit e -> in_unit ((1 - g) * a + g * e).
Proof.
  unfold in_unit. intros [Ha0 Ha1] Hg [He0 He1].
  assert (H16 : 1 / 16 == 1 # 16) by reflexivity.
  rewrite Hg, H16. split; lra.
Qed.

Lemma on_ack_alpha_ok (f : Flow.t) (rtt_ms queue_ms ecn_frac : Q)
    (loss : bool) :
  alpha_ok f -> in_unit ecn_frac ->
  alpha_ok (Flow.on_ack f rtt_ms queue_ms ecn_frac loss).
Proof.
  intros [Ha Hg] He. unfold alpha_ok.
  destruct (on_ack_same_identity f rtt_ms queue_ms ecn_frac loss)
    as (_ & _ & _ & _ & _ & Hg' & _).
  rewrite Hg'. split; [| exact Hg].
  unfold Flow.on_ack, Flow._reno_update, Flow._dctcp_update,
    Flow._spacecc_update.
  repeat match goal with
         | |- context [if ?b then _ else _] => destruct b
         end; cbn; try exact Ha; now apply dctcp_alpha_fraction.
Qed.

(** X1.  One call of [on_ack] at most halves the window and at most
    grows it by half: for a flow with [cwnd >= 2] (and, if it is a DCTCP
    flow, a marking estimate and a marking fraction in [0, 1] and the
    constructor's gain), [cwnd / 2 <= cwnd' <= 1.5 * cwnd]. *)
Theorem on_ack_change_bounded (f : Flow.t) (rtt_ms queue_ms ecn_frac : Q)
    (loss : bool) :
  cwnd_floor f ->
  (Flow.cc f = "dctcp"%string -> alpha_ok f /\ in_unit ecn_frac) ->
  Flow.cwnd f / 2 <= Flow.cwnd (Flow.on_ack f rtt_ms queue_ms ecn_frac loss)
  /\ Flow.cwnd (Flow.on_ack f rtt_ms queue_ms ecn_frac loss)
     <= 1.5 * Flow.cwnd f.
Proof.
  unfold cwnd_floor. intros Hc Hd. unfold Flow.on_ack.
  assert (Hhalf : Flow.cwnd f / 2 == Flow.cwnd f * (1 # 2)) by reflexivity.
  destruct (String.eqb (Flow.cc f) "reno") eqn:Er.
  - unfold Flow._reno_update. destruct (loss || Qgtb ecn_frac 0); cbn.
    + split; [apply pymax_l | apply pymax_lub; lra].
    + split; lra.
  - destruct (String.eqb (Flow.cc f) "dctcp") eqn:Ed.
    + apply String.eqb_eq in Ed. destruct (Hd Ed) as [[Ha Hg] He].
      pose proof (dctcp_alpha_fraction _ _ _ Ha Hg He) as [Hn0 Hn1].
      unfold Flow._dctcp_update. destruct (Qgtb ecn_frac 0); cbn.
      * set (a' := (1 - Flow.g f) * Flow.alpha f + Flow.g f * ecn_frac) in *.
        assert (Hmid : Flow.cwnd f * (2 - a') / 2
                       == Flow.cwnd f * (2 - a') * (1 # 2)) by reflexivity.
        assert (Hlo : Flow.cwnd f / 2 <= Flow.cwnd f * (2 - a') / 2) by nra.
        assert (Hhi : Flow.cwnd f * (2 - a') / 2 <= Flow.cwnd f) by nra.
        split; [eapply Qle_trans; [exact Hlo | apply pymax_l] |].
        apply pymax_lub; lra.
      * split; lra.
    + destruct (String.eqb (Flow.cc f) "spacecc") eqn:Es; [| split; lra].
      unfold Flow._spacecc_update.
      pose proof (spacecc_gain_nonneg rtt_ms) as Hg0.
      pose proof (spacecc_gain_le_one rtt_ms) as Hg1.
      set (x := 0.1 / pymax rtt_ms 0.1) in *.
      destruct (Qeq_bool (Flow.rtt_smooth f) 0); cbn;
        match goal with
        | |- context [if ?b then _ else _] => destruct b
        end; cbn;
        (split; [try (eapply Qle_trans; [| apply pymax_l]); nra |
                 try (apply pymax_lub); nra]).
Qed.

Lemma marked_dctcp_ok : alpha_ok Cases.marked_dctcp.
Proof. repeat split; cbn; (discriminate || reflexivity). Qed.

Lemma on_ack_change_bounded_witness :
  Flow.cwnd Cases.marked_dctcp / 2
  <= Flow.cwnd (Flow.on_ack Cases.marked_dctcp 1 0.25 1 false)
  /\ Flow.cwnd (Flow.on_ack Cases.marked_dctcp 1 0.25 1 false)
     <= 1.5 * Flow.cwnd Cases.marked_dctcp.
Proof.
  apply (on_ack_change_bounded Cases.marked_dctcp 1 0.25 1 false).
  - unfold cwnd_floor. cbn. discriminate.
  - intros _. split; [exact marked_dctcp_ok | split; discriminate].
Defined.

(** X2.  What a rule does not read: a Reno flow is updated from the
    marking fraction and the loss flag alone, a DCTCP flow from the
    marking fraction alone (a rejected send does not touch it), a SpaceCC
    flow from the RTT sample alone. *)
Theorem on_ack_unread_signals (f : Flow.t) (rtt1 rtt2 queue1 queue2 ecn1
    ecn2 : Q) (loss1 loss2 : bool) :
  (Flow.cc f = "reno"%string ->
   Flow.on_ack f rtt1 queue1 ecn1 loss1 = Flow.on_ack f rtt2 queue2 ecn1 loss1)
  /\ (Flow.cc f = "dctcp"%string ->
      Flow.on_ack f rtt1 queue1 ecn1 loss1
      = Flow.on_ack f rtt2 queue2 ecn1 loss2)
  /\ (Flow.cc f = "spacecc"%string ->
      Flow.on_ack f rtt1 queue1 ecn1 loss1
      = Flow.on_ack f rtt1 queue2 ecn2 loss2).
Proof.
  split; [| split]; intros Hcc.
  - now rewrite !(on_ack_reno _ _ _ _ _ Hcc).
  - now rewrite !(on_ack_dctcp _ _ _ _ _ Hcc).
  - now rewrite !(on_ack_spacecc _ _ _ _ _ Hcc).
Qed.

Lemma on_ack_unread_signals_witness :
  Flow.on_ack Cases.marked_dctcp 1 0.25 1 false
  = Flow.on_ack Cases.marked_dctcp 7 3 1 true.
Proof.
  apply (proj1 (proj2 (on_ack_unread_signals Cases.marked_dctcp 1 7 0.25 3 1 0
                         false true))).
  reflexivity.
Defined.

(** X3.  The sending rate divides by the base RTT, but by no less than
    0.01 ms: for a window that is not negative the rate is not negative
    and at most [cwnd * 150000] bytes per ms whatever the base RTT (zero
    and negative included), and it is [cwnd * 1500 / rtt_base_ms] from
    0.01 ms on. *)
Theorem rate_floor_on_rtt (f : Flow.t) :
  (0 <= Flow.cwnd f ->
   0 <= Flow.rate_bytes_per_ms f
   /\ Flow.rate_bytes_per_ms f <= Flow.cwnd f * 150000)
  /\ (0.01 <= Flow.rtt_base_ms f ->
      Flow.rate_bytes_per_ms f == Flow.cwnd f * 1500 / Flow.rtt_base_ms f)
  /\ (Flow.rtt_base_ms f <= 0.01 ->
      Flow.rate_bytes_per_ms f == Flow.cwnd f * 150000).
Proof.
  assert (Hm : 0 < pymax (Flow.rtt_base_ms f) 0.01).
  { apply Qlt_le_trans with 0.01; [reflexivity | apply pymax_r]. }
  split; [| split].
  - intros Hc. split; [now apply rate_nonneg |].
    unfold Flow.rate_bytes_per_ms.
    apply Qle_shift_div_r; [exact Hm |].
    pose proof (pymax_r (Flow.rtt_base_ms f) 0.01) as Hr.
    change (inject_Z PKT_BYTES) with 1500. nra.
  - intros Hr. unfold Flow.rate_bytes_per_ms.
    rewrite pymax_Qmax, Q.max_l by exact Hr. reflexivity.
  - intros Hr. unfold Flow.rate_bytes_per_ms.
    rewrite pymax_Qmax, Q.max_r by exact Hr.
    change (inject_Z PKT_BYTES) with 1500. field.
Qed.

Lemma rate_floor_on_rtt_witness :
  0 <= Flow.rate_bytes_per_ms (Flow.init 0 "reno" 0 PosInf)
  /\ Flow.rate_bytes_per_ms (Flow.init 0 "reno" 0 PosInf)
     <= Flow.cwnd (Flow.init 0 "reno" 0 PosInf) * 150000.
Proof.
  apply (proj1 (rate_floor_on_rtt (Flow.init 0 "reno" 0 PosInf))).
  discriminate.
Defined.

(** ** Switch *)

Lemma ecn_fraction_binary (sw : Switch.t) :
  Switch.ecn_fraction sw = 0.0 \/ Switch.ecn_fraction sw = 1.0.
Proof. unfold Switch.ecn_fraction. destruct (Qgtb _ _); auto. Qed.

Lemma binary_in_unit (e : Q) : e = 0.0 \/ e = 1.0 -> in_unit e.
Proof. intros [-> | ->]; split; discriminate. Qed.

Lemma dequeue_served (sw : Switch.t) (dt_ms : Q) :
  fst (Switch.dequeue sw dt_ms)
  = pymin (Switch.queue_bytes sw) (LINK_RATE_BYTES_PER_MS * dt_ms).
Proof. reflexivity. Qed.

Lemma dequeue_served_bounds (sw : Switch.t) (dt_ms : Q) :
  0 <= Switch.queue_bytes sw -> 0 <= dt_ms ->
  0 <= fst (Switch.dequeue sw dt_ms)
  /\ fst (Switch.dequeue sw dt_ms) <= LINK_RATE_BYTES_PER_MS * dt_ms
  /\ fst (Switch.dequeue sw dt_ms) <= Switch.queue_bytes sw.
Proof.
  intros Hq Hdt. rewrite dequeue_served.
  assert (Hcap : 0 <= LINK_RATE_BYTES_PER_MS * dt_ms).
  { apply Qmult_le_0_compat; [discriminate | exact Hdt]. }
  split; [now apply pymin_glb | split; [| apply pymin_l]].
  unfold pymin. destruct (Qltb _ _) eqn:E; [apply Qle_refl |].
  now apply Qltb_ge in E.
Qed.

(** ** The step, once more *)

Section StepSnapshot.

Context {G : Type} `{Generator G}.

(** The outage state after [_check_outage]. *)
Lemma check_outage_cases (s : Simulator.t G) (t_ms : Q) :
  let s' := Simulator._check_outage s t_ms in
  Simulator.outage_prob s' = Simulator.outage_prob s
  /\ Simulator.outage_duration_ms s' = Simulator.outage_duration_ms s
  /\ (t_ms < Simulator._outage_end_ms s ->
      Simulator.outage_active s' = true
      /\ Simulator._outage_end_ms s' = Simulator._outage_end_ms s
      /\ Simulator.rng s' = Simulator.rng s)
  /\ (Simulator._outage_end_ms s <= t_ms ->
      Simulator.outage_prob s <= 0 ->
      Simulator.outage_active s' = false
      /\ Simulator._outage_end_ms s' = Simulator._outage_end_ms s
      /\ Simulator.rng s' = Simulator.rng s)
  /\ (Simulator._outage_end_ms s <= t_ms ->
      0 < Simulator.outage_prob s ->
      Simulator.rng s' = snd (random (Simulator.rng s))
      /\ (fst (random (Simulator.rng s))
          < Simulator.outage_prob s * (Simulator.dt_ms s / 1000.0) ->
          Simulator.outage_active s' = true
          /\ Simulator._outage_end_ms s'
             = t_ms + Simulator.outage_duration_ms s)
      /\ (Simulator.outage_prob s * (Simulator.dt_ms s / 1000.0)
          <= fst (random (Simulator.rng s)) ->
          Simulator.outage_active s' = false
          /\ Simulator._outage_end_ms s' = Simulator._outage_end_ms s)).
Proof.
  cbv zeta. unfold Simulator._check_outage.
  destruct (Qltb t_ms (Simulator._outage_end_ms s)) eqn:Ew;
    [apply Qltb_lt in Ew | apply Qltb_ge in Ew].
  - cbn. split; [reflexivity |]. split; [reflexivity |].
    split; [intros _; repeat split |].
    split; intros Hge; exfalso; exact (Qlt_not_le _ _ Ew Hge).
  - cbn. destruct (Qgtb (Simulator.outage_prob s) 0) eqn:Ep;
      [apply Qgtb_gt in Ep | apply Qgtb_le in Ep].
    + destruct (random (Simulator.rng s)) as [u r] eqn:Eu. cbn.
      destruct (Qltb u _) eqn:Ed;
        [apply Qltb_lt in Ed | apply Qltb_ge in Ed]; cbn;
        (split; [reflexivity |]); (split; [reflexivity |]);
        (split; [intros Hlt; exfalso; exact (Qlt_not_le _ _ Hlt Ew) |]);
        (split; [intros _ Hp; exfalso; exact (Qlt_not_le _ _ Ep Hp) |]);
        intros _ _; (split; [reflexivity |]).
      * split; [intros _; split; reflexivity |].
        intros Hle. exfalso. exact (Qlt_not_le _ _ Ed Hle).
      * split; [| intros _; split; reflexivity].
        intros Hlt. exfalso. exact (Qlt_not_le _ _ Hlt Ed).
    + cbn. split; [reflexivity |]. split; [reflexivity |].
      split; [intros Hlt; exfalso; exact (Qlt_not_le _ _ Hlt Ew) |].
      split; [intros _ _; repeat split |].
      intros _ Hp. exfalso. exact (Qlt_not_le _ _ Hp Ep).
Qed.

(** Everything a step leaves behind, in terms of its phases. *)
Lemma step_snapshot (s s' : Simulator.t G) (calls : list AckCall.t) :
  Simulator._step s = Some (s', calls) ->
  exists queue active sent sw loss recs fed,
    Simulator.admit_arrivals (Simulator._time_ms s)
      (Simulator.short_flow_queue s) (Simulator.flows s)
    = Some (queue, active)
    /\ Simulator.send_phase (Simulator.dt_ms s) (Simulator._time_ms s) active
         (Simulator.switch s) false
       = Some (sent, sw, loss, recs)
    /\ (fed, Simulator.rng s', calls)
       = (if negb (Simulator.outage_active s') then
            Simulator.feedback_phase (Simulator.rtt_jitter_std_ms s)
              (Switch.queue_delay_ms (Simulator.switch s'))
              (Switch.ecn_fraction (Simulator.switch s)) loss sent
              (Simulator.rng (outage_checked s queue active))
          else (sent, Simulator.rng (outage_checked s queue active), []))
    /\ Simulator.switch s' = snd (Switch.dequeue sw (Simulator.dt_ms s))
    /\ Simulator.metrics s'
       = Simulator.metrics s
         ++ [snapshot (Simulator._time_ms s) (Simulator.dt_ms s) sw]
    /\ Simulator.flows s' = filter unfinished fed
    /\ Simulator.fct_records s' = Simulator.fct_records s ++ recs
    /\ Simulator.short_flow_queue s' = queue
    /\ Simulator.outage_active s'
       = Simulator.outage_active (outage_checked s queue active)
    /\ Simulator._outage_end_ms s'
       = Simulator._outage_end_ms (outage_checked s queue active)
    /\ Simulator.outage_prob s' = Simulator.outage_prob s
    /\ Simulator.outage_duration_ms s' = Simulator.outage_duration_ms s
    /\ Simulator.dt_ms s' = Simulator.dt_ms s
    /\ Simulator.duration_ms s' = Simulator.duration_ms s
    /\ Simulator.rtt_jitter_std_ms s' = Simulator.rtt_jitter_std_ms s
    /\ Simulator._time_ms s' = Simulator._time_ms s + Simulator.dt_ms s.
Proof.
  intros E. unfold Simulator._step in E.
  apply bind_some in E. destruct E as [[queue active] [Eadm E]].
  change (Simulator._check_outage _ _) with (outage_checked s queue active)
    in E.
  set (s1 := outage_checked s queue active) in *.
  pose proof (check_outage_frame
                (Simulator.set_flows
                   (Simulator.set_short_flow_queue s queue) active)
                (Simulator._time_ms s)) as Hframe.
  pose proof (check_outage_cases
                (Simulator.set_flows
                   (Simulator.set_short_flow_queue s queue) active)
                (Simulator._time_ms s)) as Hcases.
  cbv zeta in Hframe, Hcases.
  change (Simulator._check_outage _ _) with s1 in Hframe, Hcases.
  cbn in Hframe.
  destruct Hframe as (Hdt & Hdur & Hsw & Hfl & Hm & Hrec & Hq & Ht & Hj).
  destruct Hcases as (Hprob & Hdura & _). cbn in Hprob, Hdura.
  rewrite Hdt, Hsw, Hfl, Hm, Hrec, Hq, Ht, Hj, Hdur, Hprob, Hdura in E.
  apply bind_some in E. destruct E as [[[[sent sw] loss] recs] [Esend E]].
  destruct (Switch.dequeue sw (Simulator.dt_ms s)) as [served sw2] eqn:Edeq.
  destruct (if negb (Simulator.outage_active s1) then _ else _)
    as [[fed r] calls0] eqn:Efb.
  injection E as Es Ec. subst s' calls.
  exists queue, active, sent, sw, loss, recs, fed.
  unfold snapshot. rewrite Edeq.
  cbn [fst snd Simulator.dt_ms Simulator.duration_ms Simulator.switch
       Simulator.rng Simulator.flows Simulator.fct_records
       Simulator.short_flow_queue Simulator._time_ms
       Simulator.rtt_jitter_std_ms Simulator.metrics
       Simulator.outage_active Simulator._outage_end_ms
       Simulator.outage_prob Simulator.outage_duration_ms].
  repeat split; try assumption; try reflexivity.
  now rewrite <- Efb.
Qed.

(** ** Invariants of the flows *)

Lemma feedback_phase_keeps (P : Flow.t -> Prop) (std queue_ms ecn_frac : Q)
    (loss : bool) :
  (forall f rtt_ms, P f -> P (Flow.on_ack f rtt_ms queue_ms ecn_frac loss)) ->
  forall fl r,
    Forall P fl ->
    Forall P (fst (fst (Simulator.feedback_phase std queue_ms ecn_frac loss
                          fl r))).
Proof.
  intros HP. induction fl as [| f rest IH]; intros r Hfl; cbn.
  - constructor.
  - inversion Hfl as [| ? ? Hf Hrest]; subst.
    destruct (Flow.finished f).
    + specialize (IH r Hrest).
      destruct (Simulator.feedback_phase _ _ _ _ rest r) as [[fl' r'] c].
      cbn in *. now constructor.
    + destruct (if Qgtb std 0 then normal 0 std r else (0.0, r)) as [j r0].
      specialize (IH r0 Hrest).
      destruct (Simulator.feedback_phase _ _ _ _ rest r0) as [[fl' r'] c].
      cbn in *. constructor; [now apply HP | exact IH].
Qed.

(** A property of flows that admission, the send loop and [on_ack]
    under a marking fraction of 0 or 1 keep is kept by a step, for the
    active and the pending flows. *)
Lemma step_keeps (P : Flow.t -> Prop) :
  (forall f t_ms, P f -> P (admitted_at t_ms f)) ->
  (forall t_ms f f', send_outcome t_ms f f' -> P f -> P f') ->
  (forall f rtt_ms queue_ms ecn_frac loss,
      ecn_frac = 0.0 \/ ecn_frac = 1.0 ->
      P f -> P (Flow.on_ack f rtt_ms queue_ms ecn_frac loss)) ->
  forall (s s' : Simulator.t G) (calls : list AckCall.t),
    Forall P (Simulator.flows s) ->
    Forall P (Simulator.short_flow_queue s) ->
    Simulator._step s = Some (s', calls) ->
    Forall P (Simulator.flows s') /\ Forall P (Simulator.short_flow_queue s').
Proof.
  intros Hadm Hsend Hack s s' calls Hfl Hq E.
  destruct (step_snapshot _ _ _ E)
    as (queue & active & sent & sw & loss & recs & fed
        & Eadm & Esend & Efb & _ & _ & Hflows & _ & Hqueue & _).
  destruct (admit_arrivals_spec _ _ _ _ _ Eadm) as [due [Hsplit Hact]].
  rewrite Hsplit in Hq. apply Forall_app in Hq. destruct Hq as [Hdue Hrest].
  assert (Hactive : Forall P active).
  { subst active. apply Forall_app. split; [exact Hfl |].
    apply Forall_forall. intros f Hf. apply in_map_iff in Hf.
    destruct Hf as [f0 [<- Hf0]]. apply Hadm.
    exact (proj1 (Forall_forall _ _) Hdue f0 Hf0). }
  assert (Hsent : Forall P sent).
  { destruct (send_phase_spec _ _ _ _ _ _ _ _ _ Esend) as [Hout _].
    refine (Forall2_transfer _ _ _ _ _ _ Hout Hactive).
    intros x y Hxy. now apply (Hsend _ _ _ Hxy). }
  assert (Hfed : Forall P fed).
  { destruct (negb (Simulator.outage_active s')).
    - pose proof (feedback_phase_keeps P (Simulator.rtt_jitter_std_ms s)
                    (Switch.queue_delay_ms (Simulator.switch s'))
                    (Switch.ecn_fraction (Simulator.switch s)) loss
                    (fun f r => Hack f r _ _ loss
                                  (ecn_fraction_binary (Simulator.switch s)))
                    sent (Simulator.rng (outage_checked s queue active))
                    Hsent) as Hk.
      rewrite <- Efb in Hk. exact Hk.
    - injection Efb as -> _ _. exact Hsent. }
  split.
  - rewrite Hflows. now apply Forall_filter.
  - now rewrite Hqueue.
Qed.

Lemma run_steps_keeps (P : Flow.t -> Prop) :
  (forall f t_ms, P f -> P (admitted_at t_ms f)) ->
  (forall t_ms f f', send_outcome t_ms f f' -> P f -> P f') ->
  (forall f rtt_ms queue_ms ecn_frac loss,
      ecn_frac = 0.0 \/ ecn_frac = 1.0 ->
      P f -> P (Flow.on_ack f rtt_ms queue_ms ecn_frac loss)) ->
  forall (n : nat) (s s' : Simulator.t G),
    Forall P (Simulator.flows s) ->
    Forall P (Simulator.short_flow_queue s) ->
    Simulator.run_steps n s = Some s' ->
    Forall P (Simulator.flows s') /\ Forall P (Simulator.short_flow_queue s').
Proof.
  intros Hadm Hsend Hack.
  induction n as [| n IH]; intros s s' Hfl Hq E; cbn in E.
  - inversion E; subst. now split.
  - apply bind_some in E. destruct E as [[s1 calls] [E1 E]].
    destruct (step_keeps P Hadm Hsend Hack _ _ _ Hfl Hq E1) as [Hfl1 Hq1].
    now apply (IH s1 s').
Qed.

End StepSnapshot.

Lemma Forall2_In_l {A B : Type} (R : A -> B -> Prop) (l : list A)
    (l' : list B) (x : A) :
  Forall2 R l l' -> In x l -> exists y, In y l' /\ R x y.
Proof.
  induction 1 as [| a b l l' Hab _ IH]; intros Hin; [contradiction |].
  destruct Hin as [-> | Hin].
  - exists b. split; [now left | exact Hab].
  - destruct (IH Hin) as [y [Hy Hxy]]. exists y. split; [now right | exact Hxy].
Qed.

Lemma constructed_alpha_ok (f : Flow.t) : constructed f -> alpha_ok f.
Proof.
  intros (fid & cc & rtt & size & ->). repeat split; cbn;
    (discriminate || reflexivity).
Qed.

Lemma admitted_alpha_ok (f : Flow.t) (t_ms : Q) :
  alpha_ok f -> alpha_ok (admitted_at t_ms f).
Proof. exact (fun H => H). Qed.

Lemma send_outcome_alpha_ok (t_ms : Q) (f f' : Flow.t) :
  send_outcome t_ms f f' -> alpha_ok f -> alpha_ok f'.
Proof.
  intros (_ & _ & _ & _ & Hg & _ & (_ & Ha & _) & _) [Hu Hg0].
  unfold alpha_ok. now rewrite Ha, Hg.
Qed.

(** X4.  The marking estimate of DCTCP stays a fraction: [on_ack] with a
    marking fraction in [0, 1] maps [alpha] in [0, 1] to [alpha] in
    [0, 1] (with the constructor's gain 1/16, which it keeps), and since
    the simulator passes 0 or 1 only, every flow it holds has [alpha] in
    [0, 1] after every step. *)
Theorem dctcp_alpha_stays_fraction :
  (forall (f : Flow.t) (rtt_ms queue_ms ecn_frac : Q) (loss : bool),
      alpha_ok f -> in_unit ecn_frac ->
      alpha_ok (Flow.on_ack f rtt_ms queue_ms ecn_frac loss))
  /\ (forall f : Flow.t, constructed f -> alpha_ok f)
  /\ (forall (G : Type) (H : Generator G) (n : nat) (s s' : Simulator.t G),
        Forall alpha_ok (Simulator.flows s) ->
        Forall alpha_ok (Simulator.short_flow_queue s) ->
        Simulator.run_steps n s = Some s' ->
        Forall alpha_ok (Simulator.flows s')
        /\ Forall alpha_ok (Simulator.short_flow_queue s')).
Proof.
  split; [| split].
  - intros. now apply on_ack_alpha_ok.
  - exact constructed_alpha_ok.
  - intros G H. apply (run_steps_keeps alpha_ok).
    + intros f t_ms. apply admitted_alpha_ok.
    + exact send_outcome_alpha_ok.
    + intros f rtt_ms queue_ms ecn_frac loss He Hf.
      apply on_ack_alpha_ok; [exact Hf | now apply binary_in_unit].
Qed.

Lemma dctcp_alpha_stays_fraction_witness :
  alpha_ok (Flow.on_ack Cases.marked_dctcp 1 0.25 1 false).
Proof.
  apply (proj1 dctcp_alpha_stays_fraction Cases.marked_dctcp 1 0.25 1 false).
  - exact marked_dctcp_ok.
  - split; discriminate.
Defined.

(** ** Completion records *)

Section Records.

Context {G : Type} `{Generator G}.

Lemma send_phase_records (dt t_ms : Q) (fl : list Flow.t) :
  forall sw loss fl' sw' loss' recs,
    Simulator.send_phase dt t_ms fl sw loss = Some (fl', sw', loss', recs) ->
    Forall (fun r => exists f,
                In f fl
                /\ Flow.finished f = false
                /\ FCTRecord.fid r = Flow.fid f
                /\ FCTRecord.cc r = Flow.cc f
                /\ FCTRecord.size_bytes r = Flow.size_bytes f
                /\ lt_inf (Flow.size_bytes f) = true) recs.
Proof.
  induction fl as [| f rest IH]; intros sw loss fl' sw' loss' recs E;
    cbn in E.
  - inversion E; subst. constructor.
  - destruct (Flow.finished f) eqn:Hf.
    + apply bind_some in E. destruct E as [[[[rest' sw1] loss1] recs1] [E1 E]].
      inversion E; subst; clear E.
      eapply Forall_impl; [| exact (IH _ _ _ _ _ _ E1)].
      intros r (f0 & Hin & Hrest). exists f0. split; [now right | exact Hrest].
    + apply bind_some in E.
      destruct E as [[[[f1 sw1] ok] rec1] [E1 E]].
      apply bind_some in E.
      destruct E as [[[[rest' sw2] loss2] recs2] [E2 E]].
      inversion E; subst; clear E.
      apply send_one_spec in E1; [| exact Hf].
      destruct E1 as [Hout [_ Hrec1]].
      apply Forall_app. split.
      * subst rec1. destruct (Flow.finished f1) eqn:Hf1; [| constructor].
        destruct Hout as (Hfid & Hcc & _ & Hsize & _ & _ & _ & _ & Hiff & _).
        destruct (proj1 (Hiff Hf) Hf1) as [size [Esize _]].
        unfold completion_record.
        destruct (Flow.start_time_ms f1); constructor; [| constructor].
        exists f. cbn. rewrite Esize.
        repeat split; try congruence. now left.
      * eapply Forall_impl; [| exact (IH _ _ _ _ _ _ E2)].
        intros r (f0 & Hin & Hrest). exists f0.
        split; [now right | exact Hrest].
Qed.

(** The records a step appends carry the id, tag and size of a flow that
    was active or pending before the step. *)
Lemma step_records (P : Z -> string -> xfloat -> Prop) (s s' : Simulator.t G)
    (calls : list AckCall.t) :
  (forall f, In f (Simulator.flows s ++ Simulator.short_flow_queue s) ->
             P (Flow.fid f) (Flow.cc f) (Flow.size_bytes f)) ->
  Simulator._step s = Some (s', calls) ->
  (forall f, In f (Simulator.flows s' ++ Simulator.short_flow_queue s') ->
             P (Flow.fid f) (Flow.cc f) (Flow.size_bytes f))
  /\ exists recs,
       Simulator.fct_records s' = Simulator.fct_records s ++ recs
       /\ Forall (fun r => lt_inf (FCTRecord.size_bytes r) = true
                           /\ P (FCTRecord.fid r) (FCTRecord.cc r)
                                (FCTRecord.size_bytes r)) recs.
Proof.
  intros HP E.
  set (Pf := fun f => P (Flow.fid f) (Flow.cc f) (Flow.size_bytes f)).
  assert (Hfl : Forall Pf (Simulator.flows s)).
  { apply Forall_forall. intros f Hf. apply HP, in_or_app. now left. }
  assert (Hq : Forall Pf (Simulator.short_flow_queue s)).
  { apply Forall_forall. intros f Hf. apply HP, in_or_app. now right. }
  split.
  - assert (Hkeep : Forall Pf (Simulator.flows s')
                    /\ Forall Pf (Simulator.short_flow_queue s')).
    { apply (step_keeps Pf) with (s := s) (calls := calls); try assumption.
      - intros f t_ms Hf. exact Hf.
      - intros t_ms f f' (Hfid & Hcc & _ & Hsize & _) Hf.
        unfold Pf in *. now rewrite Hfid, Hcc, Hsize.
      - intros f rtt_ms queue_ms ecn_frac loss _ Hf.
        destruct (on_ack_same_identity f rtt_ms queue_ms ecn_frac loss)
          as (Hfid & Hcc & _ & Hsize & _).
        unfold Pf in *. now rewrite Hfid, Hcc, Hsize. }
    destruct Hkeep as [Hfl' Hq'].
    intros f Hf. apply in_app_or in Hf.
    destruct Hf as [Hf | Hf];
      [exact (proj1 (Forall_forall _ _) Hfl' f Hf) |
       exact (proj1 (Forall_forall _ _) Hq' f Hf)].
  - destruct (step_snapshot _ _ _ E)
      as (queue & active & sent & sw & loss & recs & fed
          & Eadm & Esend & _ & _ & _ & _ & Hrecs & _).
    exists recs. split; [exact Hrecs |].
    destruct (admit_arrivals_spec _ _ _ _ _ Eadm) as [due [Hsplit Hact]].
    eapply Forall_impl; [| exact (send_phase_records _ _ _ _ _ _ _ _ _ Esend)].
    intros r (f & Hin & _ & Hfid & Hcc & Hsize & Hfin).
    rewrite Hfid, Hcc, Hsize. split; [exact Hfin |].
    subst active. apply in_app_or in Hin. destruct Hin as [Hin | Hin].
    + exact (proj1 (Forall_forall _ _) Hfl f Hin).
    + apply in_map_iff in Hin. destruct Hin as [f0 [<- Hf0]].
      apply (proj1 (Forall_forall _ _) Hq f0).
      rewrite Hsplit. apply in_or_app. now left.
Qed.

Lemma run_steps_records (P : Z -> string -> xfloat -> Prop) (n : nat) :
  forall s s' : Simulator.t G,
    (forall f, In f (Simulator.flows s ++ Simulator.short_flow_queue s) ->
               P (Flow.fid f) (Flow.cc f) (Flow.size_bytes f)) ->
    Simulator.run_steps n s = Some s' ->
    (forall f, In f (Simulator.flows s' ++ Simulator.short_flow_queue s') ->
               P (Flow.fid f) (Flow.cc f) (Flow.size_bytes f))
    /\ exists recs,
         Simulator.fct_records s' = Simulator.fct_records s ++ recs
         /\ Forall (fun r => lt_inf (FCTRecord.size_bytes r) = true
                             /\ P (FCTRecord.fid r) (FCTRecord.cc r)
                                  (FCTRecord.size_bytes r)) recs.
Proof.
  induction n as [| n IH]; intros s s' HP E; cbn in E.
  - inversion E; subst. split; [exact HP |]. exists [].
    split; [now rewrite app_nil_r | constructor].
  - apply bind_some in E. destruct E as [[s1 calls] [E1 E]].
    destruct (step_records P _ _ _ HP E1) as [HP1 [recs1 [Hr1 Hall1]]].
    destruct (IH _ _ HP1 E) as [HP' [recs [Hr Hall]]].
    split; [exact HP' |]. exists (recs1 ++ recs).
    split; [now rewrite Hr, Hr1, app_assoc | now apply Forall_app].
Qed.

(** A flow of infinite size that is active and not finished is active
    and not finished after a step. *)
Lemma step_long_flow_stays (s s' : Simulator.t G) (calls : list AckCall.t)
    (f : Flow.t) :
  Simulator._step s = Some (s', calls) ->
  In f (Simulator.flows s) ->
  Flow.size_bytes f = PosInf ->
  Flow.finished f = false ->
  exists f',
    In f' (Simulator.flows s')
    /\ Flow.fid f' = Flow.fid f
    /\ Flow.cc f' = Flow.cc f
    /\ Flow.start_time_ms f' = Flow.start_time_ms f
    /\ Flow.size_bytes f' = PosInf
    /\ Flow.finished f' = false.
Proof.
  intros E Hin Hsize Hunf.
  destruct (step_snapshot _ _ _ E)
    as (queue & active & sent & sw & loss & recs & fed
        & Eadm & Esend & Efb & _ & _ & Hflows & _).
  destruct (admit_arrivals_spec _ _ _ _ _ Eadm) as [due [Hsplit Hact]].
  assert (Hina : In f active) by (subst active; apply in_or_app; now left).
  destruct (send_phase_spec _ _ _ _ _ _ _ _ _ Esend) as [Hout _].
  destruct (Forall2_In_l _ _ _ _ Hout Hina) as (f1 & Hin1 & Hff1).
  destruct Hff1 as (Hfid & Hcc & _ & Hsz & _ & Hst & _ & _ & Hiff & _).
  assert (Hunf1 : Flow.finished f1 = false).
  { destruct (Flow.finished f1) eqn:Ef1; [| reflexivity].
    destruct (proj1 (Hiff Hunf) eq_refl) as [size [Esize _]]. congruence. }
  assert (Hfed : exists f2, In f2 fed /\ same_identity f1 f2).
  { destruct (negb (Simulator.outage_active s')).
    - symmetry in Efb. apply feedback_phase_spec in Efb.
      destruct Efb as (Hid & _). exact (Forall2_In_l _ _ _ _ Hid Hin1).
    - injection Efb as -> _ _. exists f1. split; [exact Hin1 |].
      unfold same_identity. repeat split. }
  destruct Hfed as (f2 & Hin2 & Hsame).
  destruct Hsame as (Hfid2 & Hcc2 & _ & Hsz2 & _ & _ & Hfin2 & Hst2 & _).
  exists f2. rewrite Hflows. repeat split; try congruence.
  apply filter_In. split; [exact Hin2 |]. unfold unfinished.
  now rewrite Hfin2, Hunf1.
Qed.

Lemma run_long_flow_stays (n : nat) :
  forall (s s' : Simulator.t G) (f : Flow.t),
    Simulator.run_steps n s = Some s' ->
    In f (Simulator.flows s) ->
    Flow.size_bytes f = PosInf ->
    Flow.finished f = false ->
    exists f',
      In f' (Simulator.flows s')
      /\ Flow.fid f' = Flow.fid f
      /\ Flow.cc f' = Flow.cc f
      /\ Flow.start_time_ms f' = Flow.start_time_ms f
      /\ Flow.size_bytes f' = PosInf
      /\ Flow.finished f' = false.
Proof.
  induction n as [| n IH]; intros s s' f E Hin Hsize Hunf; cbn in E.
  - inversion E; subst. exists f. now repeat split.
  - apply bind_some in E. destruct E as [[s1 calls] [E1 E]].
    destruct (step_long_flow_stays _ _ _ _ E1 Hin Hsize Hunf)
      as (f1 & Hin1 & Hfid1 & Hcc1 & Hst1 & Hsz1 & Hunf1).
    destruct (IH _ _ _ E Hin1 Hsz1 Hunf1)
      as (f' & Hin' & Hfid' & Hcc' & Hst' & Hsz' & Hunf').
    exists f'. repeat split; congruence.
Qed.

End Records.

(** X5.  Only flows of finite size complete.  Every record a run
    appends has a finite size and carries the id, tag and size of a flow
    the simulator held when the run began; a flow of infinite size that
    is active then is still active, unfinished, when the run ends. *)
Theorem only_finite_flows_complete {G : Type} `{Generator G} (n : nat)
    (s s' : Simulator.t G) :
  Simulator.run_steps n s = Some s' ->
  (exists recs,
      Simulator.fct_records s' = Simulator.fct_records s ++ recs
      /\ Forall (fun r =>
                   lt_inf (FCTRecord.size_bytes r) = true
                   /\ exists f,
                        In f (Simulator.flows s ++ Simulator.short_flow_queue s)
                        /\ FCTRecord.fid r = Flow.fid f
                        /\ FCTRecord.cc r = Flow.cc f
                        /\ FCTRecord.size_bytes r = Flow.size_bytes f) recs)
  /\ (forall f,
         In f (Simulator.flows s) ->
         Flow.size_bytes f = PosInf ->
         Flow.finished f = false ->
         exists f',
           In f' (Simulator.flows s')
           /\ Flow.fid f' = Flow.fid f
           /\ Flow.cc f' = Flow.cc f
           /\ Flow.start_time_ms f' = Flow.start_time_ms f
           /\ Flow.size_bytes f' = PosInf
           /\ Flow.finished f' = false).
Proof.
  intros E. split.
  - apply (run_steps_records
             (fun fid cc size =>
                exists f,
                  In f (Simulator.flows s ++ Simulator.short_flow_queue s)
                  /\ fid = Flow.fid f /\ cc = Flow.cc f
                  /\ size = Flow.size_bytes f) n s s');
      [| exact E].
    intros f Hf. exists f. now repeat split.
  - intros f. now apply (run_long_flow_stays n s s' f).
Qed.

Lemma short_flow_done_run :
  Simulator.run_steps 2 Examples.one_short_flow = Some Cases.short_flow_done.
Proof. vm_compute. reflexivity. Qed.

Lemma only_finite_flows_complete_witness :
  exists recs,
    Simulator.fct_records Cases.short_flow_done
    = Simulator.fct_records Examples.one_short_flow ++ recs
    /\ Forall (fun r =>
                 lt_inf (FCTRecord.size_bytes r) = true
                 /\ exists f,
                      In f (Simulator.flows Examples.one_short_flow
                            ++ Simulator.short_flow_queue
                                 Examples.one_short_flow)
                      /\ FCTRecord.fid r = Flow.fid f
                      /\ FCTRecord.cc r = Flow.cc f
                      /\ FCTRecord.size_bytes r = Flow.size_bytes f) recs.
Proof.
  apply (only_finite_flows_complete 2 Examples.one_short_flow
           Cases.short_flow_done).
  exact short_flow_done_run.
Defined.

(** ** Metrics *)

Lemma enqueue_frame (sw : Switch.t) (bytes_in : Q) :
  Switch.total_served_bytes (snd (Switch.enqueue sw bytes_in))
  = Switch.total_served_bytes sw
  /\ Switch.buffer_bytes (snd (Switch.enqueue sw bytes_in))
     = Switch.buffer_bytes sw
  /\ Switch.ecn_thresh_bytes (snd (Switch.enqueue sw bytes_in))
     = Switch.ecn_thresh_bytes sw.
Proof. unfold Switch.enqueue. destruct (Qgtb _ _); now repeat split. Qed.

Lemma truthy_nonzero (a : Q) : truthy a = true -> ~ a == 0.
Proof.
  unfold truthy. intros Ht. apply negb_true_iff in Ht.
  now apply Qeq_bool_neq.
Qed.

Lemma snapshot_in_bounds (t_ms dt_ms : Q) (sw : Switch.t) :
  switch_inv sw -> 0 <= dt_ms ->
  metric_in_bounds (Switch.buffer_bytes sw) dt_ms (snapshot t_ms dt_ms sw).
Proof.
  intros Hsw Hdt.
  pose proof (dequeue_inv sw dt_ms Hsw Hdt) as [Hq0 Hq1].
  destruct Hsw as [Hs0 Hs1].
  pose proof (dequeue_served_bounds sw dt_ms Hs0 Hdt) as (Hv0 & Hv1 & _).
  unfold metric_in_bounds, snapshot.
  cbn [Metrics.queue_bytes Metrics.queue_delay_ms Metrics.served_bytes
       Metrics.util].
  split; [split; [exact Hq0 | exact Hq1] |].
  split; [reflexivity |]. split; [split; assumption |].
  destruct (truthy (LINK_RATE_BYTES_PER_MS * dt_ms)) eqn:Et;
    [| split; discriminate].
  apply truthy_nonzero in Et.
  assert (Hcap : 0 < LINK_RATE_BYTES_PER_MS * dt_ms).
  { assert (Hc0 : 0 <= LINK_RATE_BYTES_PER_MS * dt_ms).
    { apply Qmult_le_0_compat; [discriminate | exact Hdt]. }
    apply Qle_lt_or_eq in Hc0. destruct Hc0 as [Hc0 | Hc0]; [exact Hc0 |].
    exfalso. apply Et. now symmetry. }
  split.
  - apply Qle_shift_div_l; [exact Hcap |]. now rewrite Qmult_0_l.
  - apply Qle_shift_div_r; [exact Hcap |]. now rewrite Qmult_1_l.
Qed.

Section MetricsOfARun.

Context {G : Type} `{Generator G}.

Lemma send_phase_frame (dt t_ms : Q) (fl : list Flow.t) :
  forall sw loss fl' sw' loss' recs,
    Simulator.send_phase dt t_ms fl sw loss = Some (fl', sw', loss', recs) ->
    Switch.total_served_bytes sw' = Switch.total_served_bytes sw
    /\ Switch.buffer_bytes sw' = Switch.buffer_bytes sw
    /\ Switch.ecn_thresh_bytes sw' = Switch.ecn_thresh_bytes sw.
Proof.
  induction fl as [| f rest IH]; intros sw loss fl' sw' loss' recs E;
    cbn in E.
  - inversion E; subst. now repeat split.
  - destruct (Flow.finished f) eqn:Hf.
    + apply bind_some in E. destruct E as [[[[rest' sw1] loss1] recs1] [E1 E]].
      inversion E; subst; clear E. eapply IH; eauto.
    + apply bind_some in E.
      destruct E as [[[[f1 sw1] ok] rec1] [E1 E]].
      apply bind_some in E.
      destruct E as [[[[rest' sw2] loss2] recs2] [E2 E]].
      inversion E; subst; clear E.
      apply send_one_spec in E1; [| exact Hf].
      destruct E1 as [_ [Henq _]].
      pose proof (enqueue_frame sw (Flow.rate_bytes_per_ms f * dt))
        as (Ht & Hb & He).
      rewrite <- Henq in Ht, Hb, He. cbn [snd] in Ht, Hb, He.
      destruct (IH _ _ _ _ _ _ E2) as (Ht2 & Hb2 & He2).
      repeat split; congruence.
Qed.

(** One entry per step, stamped with the step's time; the served
    counter of the switch grows by what the entries report. *)
Lemma run_steps_metrics (n : nat) :
  forall s s' : Simulator.t G,
    Simulator.run_steps n s = Some s' ->
    exists new,
      Simulator.metrics s' = Simulator.metrics s ++ new
      /\ List.length new = n
      /\ (forall k m,
             nth_error new k = Some m ->
             Metrics.time_ms m
             == Simulator._time_ms s
                + inject_Z (Z.of_nat k) * Simulator.dt_ms s)
      /\ Simulator._time_ms s'
         == Simulator._time_ms s + inject_Z (Z.of_nat n) * Simulator.dt_ms s
      /\ Switch.total_served_bytes (Simulator.switch s')
         == Switch.total_served_bytes (Simulator.switch s) + served_total new.
Proof.
  induction n as [| n IH]; intros s s' E; cbn [Simulator.run_steps] in E.
  - inversion E; subst. exists []. rewrite app_nil_r.
    split; [reflexivity | split; [reflexivity |]].
    split; [intros [| k] m Hk; discriminate |].
    change (inject_Z (Z.of_nat 0)) with 0. change (served_total []) with 0.
    split; ring.
  - apply bind_some in E. destruct E as [[s1 calls] [E1 E]].
    destruct (step_snapshot _ _ _ E1)
      as (queue & active & sent & sw & loss & recs & fed
          & _ & Esend & _ & Hsw & Hm & _ & _ & _ & _ & _ & _ & _ & Hdt & _
          & _ & Ht).
    destruct (IH _ _ E) as (new & Hnew & Hlen & Hstamp & Htime & Hserved).
    destruct (send_phase_frame _ _ _ _ _ _ _ _ _ Esend) as (Hts & _).
    exists (snapshot (Simulator._time_ms s) (Simulator.dt_ms s) sw :: new).
    split; [now rewrite Hnew, Hm, <- app_assoc |].
    split; [cbn; now rewrite Hlen |].
    assert (Hsucc : forall k : nat,
               inject_Z (Z.of_nat (S k)) == inject_Z (Z.of_nat k) + 1).
    { intros k. rewrite Nat2Z.inj_succ. unfold Z.succ.
      now rewrite inject_Z_plus. }
    split; [| split].
    + intros [| k] m Hk; cbn in Hk.
      * inversion Hk; subst. unfold snapshot. cbn [Metrics.time_ms].
        change (inject_Z (Z.of_nat 0)) with 0.
        ring.
      * rewrite (Hstamp k m Hk), Ht, Hdt, Hsucc.
        ring.
    + rewrite Htime, Ht, Hdt, Hsucc. ring.
    + rewrite Hserved, Hsw. cbn [served_total fold_right].
      change (Metrics.served_bytes
                (snapshot (Simulator._time_ms s) (Simulator.dt_ms s) sw))
        with (fst (Switch.dequeue sw (Simulator.dt_ms s))).
      change (Switch.total_served_bytes
                (snd (Switch.dequeue sw (Simulator.dt_ms s))))
        with (Switch.total_served_bytes sw
              + fst (Switch.dequeue sw (Simulator.dt_ms s))).
      fold (served_total new). rewrite Hts. ring.
Qed.

Lemma run_steps_metrics_bounds (n : nat) :
  forall s s' : Simulator.t G,
    0 <= Simulator.dt_ms s ->
    all_cwnd_floor s ->
    switch_inv (Simulator.switch s) ->
    Simulator.run_steps n s = Some s' ->
    exists new,
      Simulator.metrics s' = Simulator.metrics s ++ new
      /\ Forall (metric_in_bounds (Switch.buffer_bytes (Simulator.switch s))
                   (Simulator.dt_ms s)) new.
Proof.
  induction n as [| n IH]; intros s s' Hdt Hfl Hsw E;
    cbn [Simulator.run_steps] in E.
  - inversion E; subst. exists []. rewrite app_nil_r. split; constructor.
  - apply bind_some in E. destruct E as [[s1 calls] [E1 E]].
    destruct (step_snapshot _ _ _ E1)
      as (queue & active & sent & sw & loss & recs & fed
          & Eadm & Esend & _ & Hswitch & Hm & _ & _ & _ & _ & _ & _ & _ & Hdt1
          & _).
    destruct (admit_arrivals_spec _ _ _ _ _ Eadm) as [due [Hsplit Hact]].
    assert (Hactive : Forall cwnd_floor active).
    { destruct Hfl as [Hfl Hq]. rewrite Hsplit in Hq.
      apply Forall_app in Hq. destruct Hq as [Hdue _].
      subst active. apply Forall_app. split; [exact Hfl |].
      apply Forall_forall. intros f Hf. apply in_map_iff in Hf.
      destruct Hf as [f0 [<- Hf0]].
      exact (proj1 (Forall_forall _ _) Hdue f0 Hf0). }
    destruct (send_phase_switch_inv _ _ _ _ _ _ _ _ _ Esend Hdt Hactive Hsw)
      as [Hinv Hbuf].
    assert (Hdt' : 0 <= Simulator.dt_ms s1) by now rewrite Hdt1.
    assert (Hfl1 : all_cwnd_floor s1)
      by exact (step_cwnd_floor _ _ _ Hfl E1).
    assert (Hsw1 : switch_inv (Simulator.switch s1))
      by exact (step_switch_inv _ _ _ Hdt Hfl Hsw E1).
    destruct (IH _ _ Hdt' Hfl1 Hsw1 E) as (new & Hnew & Hall).
    exists (snapshot (Simulator._time_ms s) (Simulator.dt_ms s) sw :: new).
    split; [now rewrite Hnew, Hm, <- app_assoc |].
    constructor.
    + rewrite <- Hbuf. now apply snapshot_in_bounds.
    + assert (Hb1 : Switch.buffer_bytes (Simulator.switch s1)
                    = Switch.buffer_bytes (Simulator.switch s)).
      { rewrite Hswitch. cbn. exact Hbuf. }
      now rewrite <- Hb1, <- Hdt1.
Qed.

End MetricsOfARun.

Lemma one_short_flow_floor : all_cwnd_floor Examples.one_short_flow.
Proof. split; repeat constructor; unfold cwnd_floor; cbn; discriminate. Qed.

Lemma default_switch_inv : switch_inv Switch.default.
Proof. split; discriminate. Qed.

(** X6.  [_step] appends one metrics entry, stamped with the time at
    which the step began, and advances the clock by [dt_ms]: after [n]
    steps there are [n] more entries, the [k]-th of them stamped
    [t + k * dt_ms], and the clock is at [t + n * dt_ms]. *)
Theorem metrics_one_entry_per_step {G : Type} `{Generator G} (n : nat)
    (s s' : Simulator.t G) :
  Simulator.run_steps n s = Some s' ->
  exists new,
    Simulator.metrics s' = Simulator.metrics s ++ new
    /\ List.length new = n
    /\ (forall k m,
           nth_error new k = Some m ->
           Metrics.time_ms m
           == Simulator._time_ms s + inject_Z (Z.of_nat k) * Simulator.dt_ms s)
    /\ Simulator._time_ms s'
       == Simulator._time_ms s + inject_Z (Z.of_nat n) * Simulator.dt_ms s.
Proof.
  intros E.
  destruct (run_steps_metrics n s s' E)
    as (new & Hnew & Hlen & Hstamp & Htime & _).
  exists new. now repeat split.
Qed.

Lemma metrics_one_entry_per_step_witness :
  exists new,
    Simulator.metrics Cases.short_flow_done
    = Simulator.metrics Examples.one_short_flow ++ new
    /\ List.length new = 2%nat
    /\ (forall k m,
           nth_error new k = Some m ->
           Metrics.time_ms m
           == Simulator._time_ms Examples.one_short_flow
              + inject_Z (Z.of_nat k) * Simulator.dt_ms Examples.one_short_flow)
    /\ Simulator._time_ms Cases.short_flow_done
       == Simulator._time_ms Examples.one_short_flow
          + inject_Z (Z.of_nat 2) * Simulator.dt_ms Examples.one_short_flow.
Proof.
  apply (metrics_one_entry_per_step 2 Examples.one_short_flow
           Cases.short_flow_done).
  exact short_flow_done_run.
Defined.

(** X7.  The switch's counter [total_served_bytes] and the metrics
    agree: over any number of steps the counter grows by the sum of
    [served_bytes] of the entries appended. *)
Theorem served_counter_matches_metrics {G : Type} `{Generator G} (n : nat)
    (s s' : Simulator.t G) :
  Simulator.run_steps n s = Some s' ->
  exists new,
    Simulator.metrics s' = Simulator.metrics s ++ new
    /\ Switch.total_served_bytes (Simulator.switch s')
       == Switch.total_served_bytes (Simulator.switch s) + served_total new.
Proof.
  intros E.
  destruct (run_steps_metrics n s s' E) as (new & Hnew & _ & _ & _ & Hserved).
  exists new. now split.
Qed.

Lemma served_counter_matches_metrics_witness :
  exists new,
    Simulator.metrics Cases.short_flow_done
    = Simulator.metrics Examples.one_short_flow ++ new
    /\ Switch.total_served_bytes (Simulator.switch Cases.short_flow_done)
       == Switch.total_served_bytes (Simulator.switch Examples.one_short_flow)
          + served_total new.
Proof.
  apply (served_counter_matches_metrics 2 Examples.one_short_flow
           Cases.short_flow_done).
  exact short_flow_done_run.
Defined.

(** X8.  With a step that is not negative, windows at the floor or
    above and a switch within its bounds, every metrics entry of a run is
    physically possible: occupancy in [0, buffer_bytes], the queue delay
    that belongs to it, served bytes in [0, link rate * dt_ms], and a
    utilisation in [0, 1] (0 when the step capacity is 0). *)
Theorem metrics_within_bounds {G : Type} `{Generator G} (n : nat)
    (s s' : Simulator.t G) :
  0 <= Simulator.dt_ms s ->
  all_cwnd_floor s ->
  switch_inv (Simulator.switch s) ->
  Simulator.run_steps n s = Some s' ->
  exists new,
    Simulator.metrics s' = Simulator.metrics s ++ new
    /\ Forall (metric_in_bounds (Switch.buffer_bytes (Simulator.switch s))
                 (Simulator.dt_ms s)) new.
Proof. apply run_steps_metrics_bounds. Qed.

Lemma metrics_within_bounds_witness :
  exists new,
    Simulator.metrics Cases.short_flow_done
    = Simulator.metrics Examples.one_short_flow ++ new
    /\ Forall (metric_in_bounds
                 (Switch.buffer_bytes
                    (Simulator.switch Examples.one_short_flow))
                 (Simulator.dt_ms Examples.one_short_flow)) new.
Proof.
  apply (metrics_within_bounds 2 Examples.one_short_flow
           Cases.short_flow_done).
  - discriminate.
  - exact one_short_flow_floor.
  - exact default_switch_inv.
  - exact short_flow_done_run.
Defined.

(** ** Bytes in a step *)

Section Bytes.

Context {G : Type} `{Generator G}.

Lemma send_one_credit (dt t_ms : Q) (f f' : Flow.t) (sw sw' : Switch.t)
    (ok : bool) (recs : list FCTRecord.t) :
  Simulator.send_one dt t_ms f sw = Some (f', sw', ok, recs) ->
  Flow.sent_bytes f'
  = Flow.sent_bytes f + (if ok then Flow.rate_bytes_per_ms f * dt else 0)
  /\ Switch.queue_bytes sw'
     = (if ok then Switch.queue_bytes sw + Flow.rate_bytes_per_ms f * dt
        else Switch.queue_bytes sw).
Proof.
  unfold Simulator.send_one, Switch.enqueue.
  destruct (Qgtb _ _);
    cbn [Flow.size_bytes Flow.sent_bytes Flow.set_sent_bytes
         Flow.start_time_ms];
    destruct (lt_inf _ && geb_x _ _); intros E;
    try (apply bind_some in E; destruct E as [st [_ E]]);
    inversion E; subst; split; reflexivity.
Qed.

Lemma send_phase_conserves (dt t_ms : Q) (fl : list Flow.t) :
  forall sw loss fl' sw' loss' recs,
    Simulator.send_phase dt t_ms fl sw loss = Some (fl', sw', loss', recs) ->
    Switch.queue_bytes sw' + sum_sent fl
    == Switch.queue_bytes sw + sum_sent fl'
    /\ Forall2 (fun f f' =>
                  Flow.sent_bytes f' = Flow.sent_bytes f
                  \/ Flow.sent_bytes f'
                     = Flow.sent_bytes f + Flow.rate_bytes_per_ms f * dt
                  \/ Flow.sent_bytes f' = Flow.sent_bytes f + 0) fl fl'.
Proof.
  induction fl as [| f rest IH]; intros sw loss fl' sw' loss' recs E;
    cbn in E.
  - inversion E; subst. split; [reflexivity | constructor].
  - destruct (Flow.finished f) eqn:Hf.
    + apply bind_some in E. destruct E as [[[[rest' sw1] loss1] recs1] [E1 E]].
      inversion E; subst; clear E.
      destruct (IH _ _ _ _ _ _ E1) as [Hsum Hall].
      split; [cbn [sum_sent fold_right]; fold (sum_sent rest);
              fold (sum_sent rest'); lra |].
      constructor; [now left | exact Hall].
    + apply bind_some in E.
      destruct E as [[[[f1 sw1] ok] rec1] [E1 E]].
      apply bind_some in E.
      destruct E as [[[[rest' sw2] loss2] recs2] [E2 E]].
      inversion E; subst; clear E.
      destruct (send_one_credit _ _ _ _ _ _ _ _ E1) as [Hsent Hqueue].
      destruct (IH _ _ _ _ _ _ E2) as [Hsum Hall].
      split.
      * cbn [sum_sent fold_right]. fold (sum_sent rest).
        fold (sum_sent rest'). rewrite Hsent.
        rewrite Hqueue in Hsum. destruct ok; lra.
      * constructor; [| exact Hall]. rewrite Hsent.
        destruct ok; [right; now left | right; now right].
Qed.

End Bytes.

(** X9.  No byte is created or lost in a step: what the send loop
    credits to the flows' [sent_bytes] is what entered the queue, so the
    occupancy after the step plus the bytes served plus the credit
    before equals the occupancy before plus the credit after.  A flow is
    credited its whole send or nothing. *)
Theorem step_conserves_bytes {G : Type} `{Generator G} (s s' : Simulator.t G)
    (calls : list AckCall.t) :
  Simulator._step s = Some (s', calls) ->
  exists queue active sent sw loss recs,
    Simulator.admit_arrivals (Simulator._time_ms s)
      (Simulator.short_flow_queue s) (Simulator.flows s)
    = Some (queue, active)
    /\ Simulator.send_phase (Simulator.dt_ms s) (Simulator._time_ms s) active
         (Simulator.switch s) false
       = Some (sent, sw, loss, recs)
    /\ Simulator.metrics s'
       = Simulator.metrics s
         ++ [snapshot (Simulator._time_ms s) (Simulator.dt_ms s) sw]
    /\ Switch.queue_bytes (Simulator.switch s')
       + Metrics.served_bytes
           (snapshot (Simulator._time_ms s) (Simulator.dt_ms s) sw)
       + sum_sent active
       == Switch.queue_bytes (Simulator.switch s) + sum_sent sent
    /\ Forall2 (fun f f' =>
                  Flow.sent_bytes f' = Flow.sent_bytes f
                  \/ Flow.sent_bytes f'
                     = Flow.sent_bytes f
                       + Flow.rate_bytes_per_ms f * Simulator.dt_ms s
                  \/ Flow.sent_bytes f' = Flow.sent_bytes f + 0) active sent.
Proof.
  intros E.
  destruct (step_snapshot _ _ _ E)
    as (queue & active & sent & sw & loss & recs & fed
        & Eadm & Esend & _ & Hsw & Hm & _).
  destruct (send_phase_conserves _ _ _ _ _ _ _ _ _ Esend) as [Hsum Hall].
  exists queue, active, sent, sw, loss, recs.
  repeat split; try assumption.
  rewrite Hsw.
  change (Metrics.served_bytes
            (snapshot (Simulator._time_ms s) (Simulator.dt_ms s) sw))
    with (fst (Switch.dequeue sw (Simulator.dt_ms s))).
  change (Switch.queue_bytes (snd (Switch.dequeue sw (Simulator.dt_ms s))))
    with (Switch.queue_bytes sw - fst (Switch.dequeue sw (Simulator.dt_ms s))).
  lra.
Qed.

Lemma step_conserves_bytes_witness :
  exists queue active sent sw loss recs,
    Simulator.admit_arrivals (Simulator._time_ms Examples.two_fast_flows)
      (Simulator.short_flow_queue Examples.two_fast_flows)
      (Simulator.flows Examples.two_fast_flows)
    = Some (queue, active)
    /\ Simulator.send_phase (Simulator.dt_ms Examples.two_fast_flows)
         (Simulator._time_ms Examples.two_fast_flows) active
         (Simulator.switch Examples.two_fast_flows) false
       = Some (sent, sw, loss, recs)
    /\ Simulator.metrics (fst (Examples.next Examples.two_fast_flows))
       = Simulator.metrics Examples.two_fast_flows
         ++ [snapshot (Simulator._time_ms Examples.two_fast_flows)
               (Simulator.dt_ms Examples.two_fast_flows) sw]
    /\ Switch.queue_bytes
         (Simulator.switch (fst (Examples.next Examples.two_fast_flows)))
       + Metrics.served_bytes
           (snapshot (Simulator._time_ms Examples.two_fast_flows)
              (Simulator.dt_ms Examples.two_fast_flows) sw)
       + sum_sent active
       == Switch.queue_bytes (Simulator.switch Examples.two_fast_flows)
          + sum_sent sent
    /\ Forall2 (fun f f' =>
                  Flow.sent_bytes f' = Flow.sent_bytes f
                  \/ Flow.sent_bytes f'
                     = Flow.sent_bytes f
                       + Flow.rate_bytes_per_ms f
                         * Simulator.dt_ms Examples.two_fast_flows
                  \/ Flow.sent_bytes f' = Flow.sent_bytes f + 0) active sent.
Proof.
  apply (step_conserves_bytes Examples.two_fast_flows
           (fst (Examples.next Examples.two_fast_flows))
           (snd (Examples.next Examples.two_fast_flows))).
  exact two_fast_flows_step.
Defined.

(** ** Outages and draws *)

Section Outages.

Context {G : Type} `{Generator G}.

Lemma feedback_no_draw (std queue_ms ecn_frac : Q) (loss : bool)
    (fl : list Flow.t) :
  std <= 0 ->
  forall r,
    snd (fst (Simulator.feedback_phase std queue_ms ecn_frac loss fl r)) = r.
Proof.
  intros Hstd. apply Qgtb_le in Hstd.
  induction fl as [| f rest IH]; intros r; cbn; [reflexivity |].
  destruct (Flow.finished f).
  - specialize (IH r).
    destruct (Simulator.feedback_phase _ _ _ _ rest r) as [[fl' r'] c].
    exact IH.
  - rewrite Hstd. specialize (IH r).
    destruct (Simulator.feedback_phase _ _ _ _ rest r) as [[fl' r'] c].
    exact IH.
Qed.

(** The RTT sample of every call. *)
Lemma feedback_phase_rtt (std queue_ms ecn_frac : Q) (loss : bool)
    (fl : list Flow.t) :
  forall r,
    Forall (fun c => exists jitter,
                AckCall.rtt_ms c
                = Flow.rtt_base_ms (AckCall.receiver c) + queue_ms
                  + pymax jitter
                      (- Flow.rtt_base_ms (AckCall.receiver c) * 0.9)
                /\ (std <= 0 -> jitter = 0.0))
      (snd (Simulator.feedback_phase std queue_ms ecn_frac loss fl r)).
Proof.
  induction fl as [| f rest IH]; intros r; cbn; [constructor |].
  destruct (Flow.finished f).
  - specialize (IH r).
    destruct (Simulator.feedback_phase _ _ _ _ rest r) as [[fl' r'] c].
    exact IH.
  - destruct (Qgtb std 0) eqn:Es.
    + destruct (normal 0 std r) as [j r0]. specialize (IH r0).
      destruct (Simulator.feedback_phase _ _ _ _ rest r0) as [[fl' r'] c].
      cbn in *. constructor; [| exact IH].
      exists j. split; [reflexivity |]. intros Hle.
      apply Qgtb_gt in Es. exfalso. exact (Qlt_not_le _ _ Es Hle).
    + specialize (IH r).
      destruct (Simulator.feedback_phase _ _ _ _ rest r) as [[fl' r'] c].
      cbn in *. constructor; [| exact IH].
      exists 0.0. split; reflexivity.
Qed.

(** A step that begins inside an outage window. *)
Lemma step_in_window (s s' : Simulator.t G) (calls : list AckCall.t) :
  Simulator._time_ms s < Simulator._outage_end_ms s ->
  Simulator._step s = Some (s', calls) ->
  Simulator.outage_active s' = true
  /\ Simulator._outage_end_ms s' = Simulator._outage_end_ms s
  /\ Simulator.rng s' = Simulator.rng s
  /\ calls = [].
Proof.
  intros Hw E.
  destruct (step_snapshot _ _ _ E)
    as (queue & active & sent & sw & loss & recs & fed
        & _ & _ & Efb & _ & _ & _ & _ & _ & Hact & Hend & _).
  destruct (check_outage_cases
              (Simulator.set_flows (Simulator.set_short_flow_queue s queue)
                 active) (Simulator._time_ms s))
    as (_ & _ & Hin & _).
  cbv zeta in Hin. cbn in Hin. specialize (Hin Hw).
  fold (outage_checked s queue active) in Hin.
  destruct Hin as (Ha & He & Hr).
  rewrite Ha in Hact. rewrite Hact in Efb. cbn [negb] in Efb.
  injection Efb as _ Hrng Hcalls.
  repeat split; congruence.
Qed.

(** A step in which an outage begins. *)
Lemma step_onset (s s' : Simulator.t G) (calls : list AckCall.t) :
  Simulator._outage_end_ms s <= Simulator._time_ms s ->
  0 < Simulator.outage_prob s ->
  fst (random (Simulator.rng s))
  < Simulator.outage_prob s * (Simulator.dt_ms s / 1000.0) ->
  Simulator._step s = Some (s', calls) ->
  Simulator.outage_active s' = true
  /\ Simulator._outage_end_ms s'
     = Simulator._time_ms s + Simulator.outage_duration_ms s
  /\ Simulator.rng s' = snd (random (Simulator.rng s))
  /\ calls = [].
Proof.
  intros Hend Hp Hu E.
  destruct (step_snapshot _ _ _ E)
    as (queue & active & sent & sw & loss & recs & fed
        & _ & _ & Efb & _ & _ & _ & _ & _ & Hact & Hend' & _).
  destruct (check_outage_cases
              (Simulator.set_flows (Simulator.set_short_flow_queue s queue)
                 active) (Simulator._time_ms s))
    as (_ & _ & _ & _ & Hon).
  cbv zeta in Hon. cbn in Hon. specialize (Hon Hend Hp).
  fold (outage_checked s queue active) in Hon.
  destruct Hon as (Hr & Hyes & _). destruct (Hyes Hu) as [Ha He].
  rewrite Ha in Hact. rewrite Hact in Efb. cbn [negb] in Efb.
  injection Efb as _ Hrng Hcalls.
  repeat split; congruence.
Qed.

(** A step with outages switched off. *)
Lemma step_outage_off (s s' : Simulator.t G) (calls : list AckCall.t) :
  outage_off s ->
  Simulator._step s = Some (s', calls) ->
  outage_off s'
  /\ Simulator.outage_active s' = false
  /\ (Simulator.rtt_jitter_std_ms s <= 0 ->
      Simulator.rng s' = Simulator.rng s).
Proof.
  intros (Hp & Hend & Hdt) E.
  destruct (step_snapshot _ _ _ E)
    as (queue & active & sent & sw & loss & recs & fed
        & _ & _ & Efb & _ & _ & _ & _ & _ & Hact & Hend' & Hprob & _ & Hdt'
        & _ & _ & Htime).
  destruct (check_outage_cases
              (Simulator.set_flows (Simulator.set_short_flow_queue s queue)
                 active) (Simulator._time_ms s))
    as (_ & _ & _ & Hoff & _).
  cbv zeta in Hoff. cbn in Hoff. specialize (Hoff Hend Hp).
  fold (outage_checked s queue active) in Hoff.
  destruct Hoff as (Ha & He & Hr).
  split; [| split].
  - unfold outage_off. rewrite Hprob, Hend', He, Htime, Hdt'.
    split; [exact Hp | split; [lra | exact Hdt]].
  - congruence.
  - intros Hstd. rewrite Ha in Hact. rewrite Hact in Efb. cbn [negb] in Efb.
    pose proof (feedback_no_draw (Simulator.rtt_jitter_std_ms s)
                  (Switch.queue_delay_ms (Simulator.switch s'))
                  (Switch.ecn_fraction (Simulator.switch s)) loss sent Hstd
                  (Simulator.rng (outage_checked s queue active))) as Hnd.
    rewrite <- Efb in Hnd. cbn in Hnd. congruence.
Qed.

Lemma step_jitter (s s' : Simulator.t G) (calls : list AckCall.t) :
  Simulator._step s = Some (s', calls) ->
  Simulator.rtt_jitter_std_ms s' = Simulator.rtt_jitter_std_ms s.
Proof.
  intros E. destruct (step_snapshot _ _ _ E)
    as (? & ? & ? & ? & ? & ? & ?
        & _ & _ & _ & _ & _ & _ & _ & _ & _ & _ & _ & _ & _ & _ & Hj & _).
  exact Hj.
Qed.

Lemma run_steps_outage_off (n : nat) :
  forall s s' : Simulator.t G,
    outage_off s ->
    Simulator.run_steps n s = Some s' ->
    outage_off s'
    /\ ((0 < n)%nat -> Simulator.outage_active s' = false)
    /\ (Simulator.rtt_jitter_std_ms s <= 0 ->
        Simulator.rng s' = Simulator.rng s).
Proof.
  induction n as [| n IH]; intros s s' Hoff E; cbn [Simulator.run_steps] in E.
  - inversion E; subst. split; [exact Hoff | split; [lia | reflexivity]].
  - apply bind_some in E. destruct E as [[s1 calls] [E1 E]].
    destruct (step_outage_off _ _ _ Hoff E1) as (Hoff1 & Hact1 & Hrng1).
    destruct (IH _ _ Hoff1 E) as (Hoff' & Hact' & Hrng').
    split; [exact Hoff' | split].
    + intros _. destruct n as [| n]; [| apply Hact'; lia].
      cbn in E. inversion E; subst. exact Hact1.
    + intros Hstd. rewrite Hrng'; [now apply Hrng1 |].
      now rewrite (step_jitter _ _ _ E1).
Qed.

End Outages.

(** X10.  An outage lasts [outage_duration_ms].  A step that draws a
    sample under [outage_prob * dt_ms / 1000] while no outage is under
    way begins one that ends at its own time plus [outage_duration_ms];
    every step that begins before that end is in outage, makes no
    [on_ack] call and draws nothing from the generator, and leaves the
    end where it is. *)
Theorem outage_window_holds {G : Type} `{Generator G} (s s' : Simulator.t G)
    (calls : list AckCall.t) :
  Simulator._step s = Some (s', calls) ->
  (Simulator._outage_end_ms s <= Simulator._time_ms s ->
   0 < Simulator.outage_prob s ->
   fst (random (Simulator.rng s))
   < Simulator.outage_prob s * (Simulator.dt_ms s / 1000.0) ->
   Simulator.outage_active s' = true
   /\ Simulator._outage_end_ms s'
      = Simulator._time_ms s + Simulator.outage_duration_ms s
   /\ Simulator.rng s' = snd (random (Simulator.rng s))
   /\ calls = [])
  /\ (Simulator._time_ms s < Simulator._outage_end_ms s ->
      Simulator.outage_active s' = true
      /\ Simulator._outage_end_ms s' = Simulator._outage_end_ms s
      /\ Simulator.rng s' = Simulator.rng s
      /\ calls = []).
Proof.
  intros E. split.
  - intros Hend Hp Hu. now apply (step_onset s s' calls).
  - intros Hw. now apply (step_in_window s s' calls).
Qed.

Lemma blackout_1_step :
  Simulator._step Cases.blackout_1
  = Some (Cases.blackout_2, snd (Examples.next Cases.blackout_1)).
Proof. vm_compute. reflexivity. Qed.

Lemma outage_window_holds_witness :
  (Simulator.outage_active Cases.blackout_1 = true
   /\ Simulator._outage_end_ms Cases.blackout_1
      = Simulator._time_ms Examples.blackout
        + Simulator.outage_duration_ms Examples.blackout
   /\ Simulator.rng Cases.blackout_1
      = snd (random (Simulator.rng Examples.blackout))
   /\ snd (Examples.next Examples.blackout) = [])
  /\ (Simulator.outage_active Cases.blackout_2 = true
      /\ Simulator._outage_end_ms Cases.blackout_2
         = Simulator._outage_end_ms Cases.blackout_1
      /\ Simulator.rng Cases.blackout_2 = Simulator.rng Cases.blackout_1
      /\ snd (Examples.next Cases.blackout_1) = []).
Proof.
  split.
  - apply (proj1 (outage_window_holds Examples.blackout Cases.blackout_1
                    (snd (Examples.next Examples.blackout)) blackout_step));
      (discriminate || reflexivity).
  - apply (proj2 (outage_window_holds Cases.blackout_1 Cases.blackout_2
                    (snd (Examples.next Cases.blackout_1)) blackout_1_step)).
    reflexivity.
Defined.

Lemma init_outage_off {G : Type} (dt_ms duration_ms : Q)
    (sw : option Switch.t) (r : G) :
  0 <= dt_ms -> outage_off (Simulator.init dt_ms duration_ms sw r).
Proof. intros Hdt. split; [discriminate | split; [discriminate | exact Hdt]]. Qed.

(** X11.  With the constructor's outage probability 0 no step is ever
    in outage, so the feedback phase runs in every step; and if the
    jitter is switched off as well, stepping draws nothing from the
    generator: whatever randomness a run has then went into scheduling
    the short flows. *)
Theorem no_outage_no_draws {G : Type} `{Generator G} :
  (forall (dt_ms duration_ms : Q) (sw : option Switch.t) (r : G),
      0 <= dt_ms -> outage_off (Simulator.init dt_ms duration_ms sw r))
  /\ (forall (n : nat) (s s' : Simulator.t G),
        outage_off s ->
        Simulator.run_steps n s = Some s' ->
        outage_off s'
        /\ ((0 < n)%nat -> Simulator.outage_active s' = false)
        /\ (Simulator.rtt_jitter_std_ms s <= 0 ->
            Simulator.rng s' = Simulator.rng s)).
Proof.
  split.
  - intros. now apply init_outage_off.
  - apply run_steps_outage_off.
Qed.

Lemma one_short_flow_outage_off : outage_off Examples.one_short_flow.
Proof. repeat split; discriminate. Qed.

Lemma no_outage_no_draws_witness :
  outage_off Cases.short_flow_done
  /\ ((0 < 2)%nat -> Simulator.outage_active Cases.short_flow_done = false)
  /\ (Simulator.rtt_jitter_std_ms Examples.one_short_flow <= 0 ->
      Simulator.rng Cases.short_flow_done
      = Simulator.rng Examples.one_short_flow).
Proof.
  apply (proj2 no_outage_no_draws 2%nat Examples.one_short_flow
           Cases.short_flow_done).
  - exact one_short_flow_outage_off.
  - exact short_flow_done_run.
Defined.

(** ** RTT samples *)

Lemma queue_delay_nonneg (sw : Switch.t) :
  switch_inv sw -> 0 <= Switch.queue_delay_ms sw.
Proof.
  intros [Hq _]. unfold Switch.queue_delay_ms.
  change (truthy LINK_RATE_BYTES_PER_MS) with true. cbv iota.
  apply Qle_shift_div_l; [reflexivity |]. now rewrite Qmult_0_l.
Qed.

Lemma step_samples {G : Type} `{Generator G} (s s' : Simulator.t G)
    (calls : list AckCall.t) :
  Simulator._step s = Some (s', calls) ->
  Forall (fun c =>
            AckCall.queue_ms c = Switch.queue_delay_ms (Simulator.switch s')
            /\ exists jitter,
                 AckCall.rtt_ms c
                 = Flow.rtt_base_ms (AckCall.receiver c) + AckCall.queue_ms c
                   + pymax jitter
                       (- Flow.rtt_base_ms (AckCall.receiver c) * 0.9)
                 /\ (Simulator.rtt_jitter_std_ms s <= 0 -> jitter = 0.0))
    calls.
Proof.
  intros E.
  destruct (step_snapshot _ _ _ E)
    as (queue & active & sent & sw & loss & recs & fed & _ & _ & Efb & _).
  destruct (negb (Simulator.outage_active s')).
  - pose proof (feedback_phase_rtt (Simulator.rtt_jitter_std_ms s)
                  (Switch.queue_delay_ms (Simulator.switch s'))
                  (Switch.ecn_fraction (Simulator.switch s)) loss sent
                  (Simulator.rng (outage_checked s queue active))) as Hrtt.
    rewrite <- Efb in Hrtt. cbn [snd] in Hrtt.
    symmetry in Efb. apply feedback_phase_spec in Efb.
    destruct Efb as (_ & _ & _ & Hargs & _).
    pose proof (Forall_and Hargs Hrtt) as Hboth.
    eapply Forall_impl; [| exact Hboth].
    intros c [(Hq & _) (j & Hj & Hz)]. split; [exact Hq |].
    exists j. rewrite Hq. now split.
  - injection Efb as _ _ ->. constructor.
Qed.

(** X12.  The RTT sample of a feedback call is the flow's base RTT plus
    the queue delay after the drain plus the jitter, and the jitter is
    cut off at [-0.9 * rtt_base_ms]: the sample is at least
    [0.1 * rtt_base_ms + queue_ms].  With the jitter switched off and a
    base RTT that is not negative it is [rtt_base_ms + queue_ms].  In a
    run that keeps the switch within its bounds the queue delay is not
    negative, so a flow of positive base RTT gets positive samples only. *)
Theorem rtt_sample_bounds {G : Type} `{Generator G} (s s' : Simulator.t G)
    (calls : list AckCall.t) :
  Simulator._step s = Some (s', calls) ->
  Forall (fun c =>
            0.1 * Flow.rtt_base_ms (AckCall.receiver c) + AckCall.queue_ms c
            <= AckCall.rtt_ms c
            /\ (Simulator.rtt_jitter_std_ms s <= 0 ->
                0 <= Flow.rtt_base_ms (AckCall.receiver c) ->
                AckCall.rtt_ms c
                == Flow.rtt_base_ms (AckCall.receiver c) + AckCall.queue_ms c))
    calls
  /\ (0 <= Simulator.dt_ms s ->
      all_cwnd_floor s ->
      switch_inv (Simulator.switch s) ->
      Forall (fun c =>
                0 <= AckCall.queue_ms c
                /\ (0 < Flow.rtt_base_ms (AckCall.receiver c) ->
                    0 < AckCall.rtt_ms c)) calls).
Proof.
  intros E. pose proof (step_samples _ _ _ E) as Hs.
  assert (Hlow : Forall (fun c =>
                    0.1 * Flow.rtt_base_ms (AckCall.receiver c)
                    + AckCall.queue_ms c <= AckCall.rtt_ms c) calls).
  { eapply Forall_impl; [| exact Hs].
    intros c (_ & j & -> & _).
    pose proof (pymax_r j (- Flow.rtt_base_ms (AckCall.receiver c) * 0.9)).
    lra. }
  split.
  - pose proof (Forall_and Hlow Hs) as Hb.
    eapply Forall_impl; [| exact Hb].
    intros c [Hl (_ & j & Hj & Hz)]. split; [exact Hl |].
    intros Hstd Hbase. rewrite Hj, (Hz Hstd).
    rewrite pymax_Qmax, Q.max_l by lra. ring.
  - intros Hdt Hfl Hsw.
    pose proof (step_switch_inv _ _ _ Hdt Hfl Hsw E) as Hsw'.
    pose proof (queue_delay_nonneg _ Hsw') as Hq.
    pose proof (Forall_and Hlow Hs) as Hb.
    eapply Forall_impl; [| exact Hb].
    intros c [Hl (Hqc & _)]. rewrite Hqc in *. split; [exact Hq |].
    intros Hbase. lra.
Qed.

Lemma rtt_sample_bounds_witness :
  Forall (fun c =>
            0.1 * Flow.rtt_base_ms (AckCall.receiver c) + AckCall.queue_ms c
            <= AckCall.rtt_ms c
            /\ (Simulator.rtt_jitter_std_ms Examples.two_fast_flows <= 0 ->
                0 <= Flow.rtt_base_ms (AckCall.receiver c) ->
                AckCall.rtt_ms c
                == Flow.rtt_base_ms (AckCall.receiver c) + AckCall.queue_ms c))
    (snd (Examples.next Examples.two_fast_flows)).
Proof.
  apply (rtt_sample_bounds Examples.two_fast_flows
           (fst (Examples.next Examples.two_fast_flows))
           (snd (Examples.next Examples.two_fast_flows))).
  exact two_fast_flows_step.
Defined.

(** ** The pending queue: arrival order *)

Section ArrivalOrder.

Context {G : Type} `{Generator G}.

Lemma insert_by_key_sorted (k : Q) (f : Flow.t) (l : list (Q * Flow.t)) :
  keys_sorted l -> keys_sorted (Simulator.insert_by_key k f l).
Proof.
  unfold keys_sorted.
  induction l as [| [k' f'] l IH]; intros Hs; cbn.
  - repeat constructor.
  - inversion Hs as [| ? ? Hl Hall]; subst.
    destruct (Qltb k' k) eqn:Ek.
    + apply Qltb_lt in Ek. constructor; [now apply IH |].
      apply (Permutation_Forall (insert_by_key_perm k f l)).
      constructor; [cbn; lra | exact Hall].
    + assert (Hle : k <= k').
      { destruct (Qlt_le_dec k' k) as [Hlt | Hle]; [| exact Hle].
        apply Qltb_lt in Hlt. congruence. }
      constructor; [exact Hs |].
      constructor; [exact Hle |].
      eapply Forall_impl; [| exact Hall].
      intros [k2 f2] Hk2. cbn in *. lra.
Qed.

Lemma sort_keyed_sorted (l : list (Q * Flow.t)) :
  keys_sorted (Simulator.sort_keyed l).
Proof.
  induction l as [| [k f] l IH]; cbn.
  - constructor.
  - now apply insert_by_key_sorted.
Qed.

Lemma start_keys_fst (l : list Flow.t) (ks : list (Q * Flow.t)) :
  Simulator.start_keys l = Some ks ->
  Forall (fun kf => Flow.start_time_ms (snd kf) = Some (fst kf)) ks.
Proof.
  induction l as [| f l IH] in ks |- *; cbn; intros E.
  - inversion E; subst. constructor.
  - apply bind_some in E. destruct E as [k [Hk E]].
    apply bind_some in E. destruct E as [ks' [Eks E]].
    inversion E; subst. constructor; [exact Hk | now apply IH].
Qed.

Lemma keys_sorted_by_start (ks : list (Q * Flow.t)) :
  Forall (fun kf => Flow.start_time_ms (snd kf) = Some (fst kf)) ks ->
  keys_sorted ks -> sorted_by_start (map snd ks).
Proof.
  unfold keys_sorted, sorted_by_start.
  induction ks as [| [k f] ks IH]; intros Hk Hs; cbn.
  - constructor.
  - inversion Hk as [| ? ? Hf Hks]; subst.
    inversion Hs as [| ? ? Hl Hall]; subst.
    constructor; [now apply IH |].
    apply Forall_map.
    pose proof (Forall_and Hall Hks) as Hb.
    eapply Forall_impl; [| exact Hb].
    intros [k2 f2] [Hle Hst]. cbn in *.
    unfold arrives_before. now rewrite Hf, Hst.
Qed.

Lemma sort_by_start_time_sorted (l l' : list Flow.t) :
  Simulator.sort_by_start_time l = Some l' -> sorted_by_start l'.
Proof.
  unfold Simulator.sort_by_start_time.
  destruct (List.length l <? 2)%nat eqn:El.
  - intros E. inversion E; subst.
    apply Nat.ltb_lt in El.
    destruct l' as [| f [| f' l']]; cbn in El; try lia;
      repeat constructor.
  - intros E. apply bind_some in E. destruct E as [ks [Eks E]].
    inversion E; subst.
    apply keys_sorted_by_start; [| apply sort_keyed_sorted].
    apply (Permutation_Forall (sort_keyed_perm ks)).
    now apply start_keys_fst with (l := l).
Qed.

(** The scheduling loop appends one flow per arrival time under the
    duration, numbered consecutively. *)
Lemma schedule_loop_numbered (fuel : nat) (duration lam : Q) (size : xfloat)
    (cc : string) (rtt_base_ms : Q) :
  forall t_ms fid r queue r' queue',
    Simulator.schedule_loop fuel duration lam size cc rtt_base_ms
      t_ms fid r queue = Some (r', queue') ->
    exists times,
      queue' = queue ++ numbered cc rtt_base_ms size fid times
      /\ Forall (fun t => t < duration) times
      /\ (List.length times <= fuel)%nat
      /\ (times <> [] -> ~ lam == 0).
Proof.
  induction fuel as [| fuel IH];
    intros t_ms fid r queue r' queue' E; cbn in E;
    (destruct (Qltb t_ms duration);
     [| inversion E; subst; exists []; cbn; rewrite app_nil_r;
        repeat split; [constructor | lia | congruence]]);
    [discriminate |].
  destruct (Qeq_bool lam 0) eqn:Elam; [discriminate |].
  apply Qeq_bool_neq in Elam.
  destruct (exponential (1000.0 / lam) r) as [gap r1].
  destruct (Qltb (t_ms + gap) duration) eqn:Et.
  - apply Qltb_lt in Et.
    destruct (IH _ _ _ _ _ _ E) as (times & Hq & Hall & Hlen & _).
    exists ((t_ms + gap) :: times). cbn [numbered List.length].
    split; [| split; [| split]].
    + rewrite Hq, <- app_assoc. reflexivity.
    + now constructor.
    + lia.
    + intros _. exact Elam.
  - destruct (IH _ _ _ _ _ _ E) as (times & Hq & Hall & Hlen & _).
    exists times. repeat split; [exact Hq | exact Hall | lia |].
    intros _. exact Elam.
Qed.

Lemma schedule_short_flows_spec (fuel : nat) (s s' : Simulator.t G)
    (lam : Q) (size : xfloat) (cc : string) (rtt_base_ms : Q) :
  Simulator.schedule_short_flows fuel s lam size cc rtt_base_ms = Some s' ->
  sorted_by_start (Simulator.short_flow_queue s')
  /\ (exists times,
         Permutation
           (Simulator.short_flow_queue s
            ++ numbered cc rtt_base_ms size 10000%Z times)
           (Simulator.short_flow_queue s')
         /\ Forall (fun t => t < Simulator.duration_ms s) times
         /\ (List.length times <= fuel)%nat)
  /\ Simulator.flows s' = Simulator.flows s
  /\ Simulator.fct_records s' = Simulator.fct_records s
  /\ Simulator.metrics s' = Simulator.metrics s
  /\ Simulator.switch s' = Simulator.switch s
  /\ Simulator._time_ms s' = Simulator._time_ms s
  /\ Simulator.dt_ms s' = Simulator.dt_ms s
  /\ Simulator.duration_ms s' = Simulator.duration_ms s.
Proof.
  intros E. unfold Simulator.schedule_short_flows in E.
  apply bind_some in E. destruct E as [[r queue] [Eloop E]].
  apply bind_some in E. destruct E as [queue' [Esort E]].
  inversion E; subst; clear E. cbn.
  split; [now apply sort_by_start_time_sorted with (l := queue) |].
  split; [| repeat split].
  destruct (schedule_loop_numbered _ _ _ _ _ _ _ _ _ _ _ _ Eloop)
    as (times & Hq & Hall & Hlen & _).
  exists times. split; [| now split].
  rewrite <- Hq. now apply sort_by_start_time_perm.
Qed.

(** The admission loop on a queue in arrival order: what it leaves is
    due later, what it admits was due. *)
Lemma admit_arrivals_sorted (t_ms : Q) (queue : list Flow.t) :
  forall active queue' active',
    sorted_by_start queue ->
    Simulator.admit_arrivals t_ms queue active = Some (queue', active') ->
    sorted_by_start queue'
    /\ Forall (arrives_after t_ms) queue'
    /\ exists due,
         queue = due ++ queue'
         /\ Forall (arrives_by t_ms) due
         /\ active' = active ++ map (admitted_at t_ms) due.
Proof.
  induction queue as [| f rest IH]; intros active queue' active' Hs E;
    cbn in E.
  - inversion E; subst. split; [constructor | split; [constructor |]].
    exists []. cbn. rewrite app_nil_r. repeat split. constructor.
  - apply bind_some in E. destruct E as [st [Hst E]].
    inversion Hs as [| ? ? Hrest Hall]; subst.
    destruct (Qle_bool st t_ms) eqn:Ele.
    + apply Qle_bool_iff in Ele.
      destruct (IH _ _ _ Hrest E) as (Hs' & Hafter & due & Hq & Hdue & Ha).
      split; [exact Hs' | split; [exact Hafter |]].
      exists (f :: due). split; [now rewrite Hq | split].
      * constructor; [now exists st | exact Hdue].
      * rewrite Ha, <- app_assoc. reflexivity.
    + inversion E; subst; clear E.
      assert (Hlt : t_ms < st).
      { apply Qnot_le_lt. intros Hle. apply Qle_bool_iff in Hle.
        congruence. }
      split; [exact Hs | split].
      * constructor; [now exists st |].
        eapply Forall_impl; [| exact Hall].
        intros f' Hf'. unfold arrives_before in Hf'. rewrite Hst in Hf'.
        destruct (Flow.start_time_ms f') as [st' |] eqn:Hst';
          [| contradiction].
        exists st'. split; [exact Hst' | lra].
      * exists []. cbn. rewrite app_nil_r. repeat split. constructor.
Qed.

Lemma step_arrivals (s s' : Simulator.t G) (calls : list AckCall.t) :
  sorted_by_start (Simulator.short_flow_queue s) ->
  Simulator._step s = Some (s', calls) ->
  sorted_by_start (Simulator.short_flow_queue s')
  /\ Forall (arrives_after (Simulator._time_ms s))
       (Simulator.short_flow_queue s')
  /\ exists due,
       Simulator.short_flow_queue s = due ++ Simulator.short_flow_queue s'
       /\ Forall (arrives_by (Simulator._time_ms s)) due.
Proof.
  intros Hs E.
  destruct (step_snapshot _ _ _ E)
    as (queue & active & sent & sw & loss & recs & fed & Eadm & _ & _
        & _ & _ & _ & _ & Hq & _).
  rewrite Hq.
  destruct (admit_arrivals_sorted _ _ _ _ _ Hs Eadm)
    as (Hs' & Hafter & due & Hd & Hdue & _).
  split; [exact Hs' | split; [exact Hafter |]].
  exists due. now split.
Qed.

Lemma run_steps_arrivals (n : nat) :
  forall s s' : Simulator.t G,
    sorted_by_start (Simulator.short_flow_queue s) ->
    Simulator.run_steps (S n) s = Some s' ->
    sorted_by_start (Simulator.short_flow_queue s')
    /\ Forall (arrives_after (Simulator._time_ms s' - Simulator.dt_ms s'))
         (Simulator.short_flow_queue s').
Proof.
  induction n as [| n IH]; intros s s' Hs E.
  - cbn in E. apply bind_some in E. destruct E as [[s1 calls] [E1 E]].
    inversion E; subst; clear E.
    destruct (step_arrivals _ _ _ Hs E1) as (Hs' & Hafter & _).
    split; [exact Hs' |].
    destruct (step_snapshot _ _ _ E1)
      as (? & ? & ? & ? & ? & ? & ? & _ & _ & _ & _ & _ & _ & _ & _ & _
          & _ & _ & _ & Hdt & _ & _ & Ht).
    eapply Forall_impl; [| exact Hafter].
    intros f (st & Hst & Hlt). exists st. split; [exact Hst |].
    rewrite Ht, Hdt. lra.
  - change (Simulator.run_steps (S (S n)) s)
      with (bind (Simulator._step s)
              (fun p => let '(s1, _) := p in Simulator.run_steps (S n) s1))
      in E.
    apply bind_some in E. destruct E as [[s1 calls] [E1 E]].
    destruct (step_arrivals _ _ _ Hs E1) as (Hs1 & _).
    exact (IH _ _ Hs1 E).
Qed.

End ArrivalOrder.

(** X13.  [schedule_short_flows] leaves the pending queue in the order
    of the arrival times.  The queue holds what it held before and, for
    some list of arrival times all under [duration_ms], one new flow per
    time: built by the constructor with the tag, base RTT and size of the
    call, its arrival time set, and numbered consecutively from 10000 in
    the order of generation.  Nothing else changes but the generator. *)
Theorem schedule_sorts_pending_queue {G : Type} `{Generator G} (fuel : nat)
    (s s' : Simulator.t G) (lam : Q) (size : xfloat) (cc : string)
    (rtt_base_ms : Q) :
  Simulator.schedule_short_flows fuel s lam size cc rtt_base_ms = Some s' ->
  sorted_by_start (Simulator.short_flow_queue s')
  /\ (exists times,
         Permutation
           (Simulator.short_flow_queue s
            ++ numbered cc rtt_base_ms size 10000%Z times)
           (Simulator.short_flow_queue s')
         /\ Forall (fun t => t < Simulator.duration_ms s) times
         /\ (List.length times <= fuel)%nat)
  /\ Simulator.flows s' = Simulator.flows s
  /\ Simulator.fct_records s' = Simulator.fct_records s
  /\ Simulator.metrics s' = Simulator.metrics s
  /\ Simulator.switch s' = Simulator.switch s
  /\ Simulator._time_ms s' = Simulator._time_ms s
  /\ Simulator.dt_ms s' = Simulator.dt_ms s
  /\ Simulator.duration_ms s' = Simulator.duration_ms s.
Proof. apply schedule_short_flows_spec. Qed.

Lemma scheduled_run :
  Simulator.schedule_short_flows 10 (Simulator.init 0.5 1.5 None Examples.seed)
    4000 (Fin 1000) "reno" 1
  = Some Cases.scheduled.
Proof. vm_compute. reflexivity. Qed.

Lemma schedule_sorts_pending_queue_witness :
  sorted_by_start (Simulator.short_flow_queue Cases.scheduled).
Proof.
  apply (schedule_sorts_pending_queue 10
           (Simulator.init 0.5 1.5 None Examples.seed) Cases.scheduled
           4000 (Fin 1000) "reno" 1).
  exact scheduled_run.
Defined.

(** X14.  On a pending queue in arrival order (as [schedule_short_flows]
    leaves it) a step admits exactly the flows that are due: the flows
    taken from the head of the queue had an arrival time at or before the
    step time, every flow left in the queue arrives later than the step
    time, and the queue stays in arrival order.  After a run of at least
    one step no pending flow was due at the last step. *)
Theorem step_admits_all_due {G : Type} `{Generator G} (s : Simulator.t G) :
  sorted_by_start (Simulator.short_flow_queue s) ->
  (forall s' calls,
      Simulator._step s = Some (s', calls) ->
      sorted_by_start (Simulator.short_flow_queue s')
      /\ Forall (arrives_after (Simulator._time_ms s))
           (Simulator.short_flow_queue s')
      /\ exists due,
           Simulator.short_flow_queue s
           = due ++ Simulator.short_flow_queue s'
           /\ Forall (arrives_by (Simulator._time_ms s)) due)
  /\ (forall n s',
         Simulator.run_steps (S n) s = Some s' ->
         sorted_by_start (Simulator.short_flow_queue s')
         /\ Forall (arrives_after
                      (Simulator._time_ms s' - Simulator.dt_ms s'))
              (Simulator.short_flow_queue s')).
Proof.
  intros Hs. split.
  - intros s' calls E. exact (step_arrivals _ _ _ Hs E).
  - intros n s' E. exact (run_steps_arrivals n _ _ Hs E).
Qed.

Lemma scheduled_sorted :
  sorted_by_start (Simulator.short_flow_queue Cases.scheduled).
Proof.
  exact (proj1 (schedule_short_flows_spec _ _ _ _ _ _ _ scheduled_run)).
Qed.

Lemma scheduled_2_run :
  Simulator.run_steps 2 Cases.scheduled = Some Cases.scheduled_2.
Proof. vm_compute. reflexivity. Qed.

Lemma step_admits_all_due_witness :
  sorted_by_start (Simulator.short_flow_queue Cases.scheduled_2)
  /\ Forall (arrives_after
               (Simulator._time_ms Cases.scheduled_2
                - Simulator.dt_ms Cases.scheduled_2))
       (Simulator.short_flow_queue Cases.scheduled_2).
Proof.
  apply (proj2 (step_admits_all_due Cases.scheduled scheduled_sorted)
           1%nat Cases.scheduled_2).
  exact scheduled_2_run.
Defined.

(** ** [run]: the number of steps *)

Lemma run_of_run_steps {G : Type} `{Generator G} (fdiv : Q -> Q -> Q)
    (s s' : Simulator.t G) :
  ~ Simulator.dt_ms s == 0 ->
  Simulator.run_steps
    (Z.to_nat (int_of_float
                 (fdiv (Simulator.duration_ms s) (Simulator.dt_ms s)))) s
  = Some s' ->
  Simulator.run fdiv s
  = Some (s', (Simulator.metrics s', Simulator.fct_records s')).
Proof.
  intros Hdt E. unfold Simulator.run.
  destruct (Qeq_bool (Simulator.dt_ms s) 0) eqn:E0.
  - apply Qeq_bool_iff in E0. contradiction.
  - rewrite E. reflexivity.
Qed.

Lemma run_inv {G : Type} `{Generator G} (fdiv : Q -> Q -> Q)
    (s s' : Simulator.t G) (out : list Metrics.t * list FCTRecord.t) :
  Simulator.run fdiv s = Some (s', out) ->
  ~ Simulator.dt_ms s == 0
  /\ Simulator.run_steps
       (Z.to_nat (int_of_float
                    (fdiv (Simulator.duration_ms s) (Simulator.dt_ms s))))
       s = Some s'
  /\ out = (Simulator.metrics s', Simulator.fct_records s').
Proof.
  unfold Simulator.run. intros E.
  destruct (Qeq_bool (Simulator.dt_ms s) 0) eqn:E0; [discriminate |].
  apply Qeq_bool_neq in E0.
  apply bind_some in E. destruct E as [s1 [E1 E]].
  inversion E; subst. now repeat split.
Qed.

(** X15.  [run] divides by the step: with [dt_ms] zero it raises.  On a
    state the public interface produces and with a step that is not zero
    it returns the metrics and records of the simulator it leaves, after
    [int(q)] steps, where [q] is the float quotient of [duration_ms] and
    [dt_ms] as the division returns it: that many metrics entries are
    new, and the records it had are a prefix of the records returned.
    When [int(q)] is zero or negative no step is taken and the simulator
    is left as it was. *)
Theorem run_step_count {G : Type} `{Generator G} (fdiv : Q -> Q -> Q)
    (s : Simulator.t G) :
  (Simulator.dt_ms s == 0 -> Simulator.run fdiv s = None)
  /\ (ready s ->
      ~ Simulator.dt_ms s == 0 ->
      exists s' new recs,
        Simulator.run fdiv s
        = Some (s', (Simulator.metrics s', Simulator.fct_records s'))
        /\ ready s'
        /\ Simulator.metrics s' = Simulator.metrics s ++ new
        /\ List.length new
           = Z.to_nat (int_of_float
                         (fdiv (Simulator.duration_ms s)
                            (Simulator.dt_ms s)))
        /\ Simulator.fct_records s' = Simulator.fct_records s ++ recs
        /\ ((int_of_float
               (fdiv (Simulator.duration_ms s) (Simulator.dt_ms s)) <= 0)%Z ->
            s' = s)).
Proof.
  split.
  - intros Hdt. unfold Simulator.run.
    apply Qeq_bool_iff in Hdt. now rewrite Hdt.
  - intros Hs Hne.
    set (n := Z.to_nat (int_of_float
                          (fdiv (Simulator.duration_ms s)
                             (Simulator.dt_ms s)))).
    destruct (run_steps_ready n s Hs) as (s' & recs & E & Hs' & _ & Hrecs & _).
    destruct (run_steps_metrics n s s' E) as (new & Hnew & Hlen & _).
    exists s', new, recs.
    split; [apply run_of_run_steps; [exact Hne | exact E] |].
    split; [exact Hs' |]. split; [exact Hnew |].
    split; [exact Hlen |]. split; [exact Hrecs |].
    intros Hk.
    assert (Hn : n = 0%nat) by (unfold n; lia).
    rewrite Hn in E. cbn in E. congruence.
Qed.

Lemma run_step_count_witness :
  exists s' new recs,
    Simulator.run Trials.quotient Examples.one_short_flow
    = Some (s', (Simulator.metrics s', Simulator.fct_records s'))
    /\ ready s'
    /\ Simulator.metrics s' = Simulator.metrics Examples.one_short_flow ++ new
    /\ List.length new = 3%nat
    /\ Simulator.fct_records s'
       = Simulator.fct_records Examples.one_short_flow ++ recs
    /\ ((int_of_float
           (Trials.quotient (Simulator.duration_ms Examples.one_short_flow)
              (Simulator.dt_ms Examples.one_short_flow)) <= 0)%Z ->
        s' = Examples.one_short_flow).
Proof.
  apply (proj2 (run_step_count Trials.quotient Examples.one_short_flow)).
  - exact one_short_flow_ready.
  - intros H0. vm_compute in H0. discriminate H0.
Defined.

(** ** Completion times *)

Lemma Forall2_app_inv_l' {A B : Type} (R : A -> B -> Prop) (l1 l2 : list A)
    (l' : list B) :
  Forall2 R (l1 ++ l2) l' ->
  exists l1' l2', l' = l1' ++ l2' /\ Forall2 R l1 l1' /\ Forall2 R l2 l2'.
Proof.
  intros H. apply Forall2_app_inv_l in H.
  destruct H as (l1' & l2' & H1 & H2 & ->). now exists l1', l2'.
Qed.

Lemma Forall2_In_r {A B : Type} (R : A -> B -> Prop) (l : list A)
    (l' : list B) (y : B) :
  Forall2 R l l' -> In y l' -> exists x, In x l /\ R x y.
Proof.
  intros H2. induction H2 as [| x0 y0 l l' Hxy _ IH]; intros Hin.
  - contradiction.
  - destruct Hin as [<- | Hin].
    + exists x0. split; [now left | exact Hxy].
    + destruct (IH Hin) as (x & Hx & Hr). exists x. split; [now right | exact Hr].
Qed.

Lemma completion_records_app (t_ms : Q) (l1 l2 : list Flow.t) :
  completion_records t_ms (l1 ++ l2)
  = completion_records t_ms l1 ++ completion_records t_ms l2.
Proof.
  unfold completion_records. now rewrite filter_app, flat_map_app.
Qed.

(** The records of the send loop, traced back to the flows it went
    over. *)
Lemma completion_records_of (t_ms : Q) (fl sent : list Flow.t) :
  Forall2 (send_outcome t_ms) fl sent ->
  Forall (record_of t_ms fl) (completion_records t_ms sent).
Proof.
  intros H2. apply Forall_forall. intros r Hr.
  unfold completion_records in Hr. apply in_flat_map in Hr.
  destruct Hr as (f' & Hf' & Hr). apply filter_In in Hf'.
  destruct Hf' as [Hin' _].
  destruct (Forall2_In_r _ _ _ _ H2 Hin') as (f & Hin & Hout).
  destruct Hout as (Hfid & Hcc & _ & Hsz & _ & Hst & _).
  unfold completion_record in Hr.
  destruct (Flow.start_time_ms f') as [st |] eqn:Est; [| contradiction].
  destruct Hr as [<- | []].
  exists f, st. cbn. repeat split; congruence.
Qed.

Section Stamps.

Context {G : Type} `{Generator G}.

Lemma step_fct (s s' : Simulator.t G) (calls : list AckCall.t) :
  ready s ->
  Simulator._step s = Some (s', calls) ->
  exists due old new,
    Simulator.short_flow_queue s = due ++ Simulator.short_flow_queue s'
    /\ Simulator.fct_records s' = Simulator.fct_records s ++ old ++ new
    /\ Forall (record_of (Simulator._time_ms s) (Simulator.flows s)) old
    /\ Forall (record_of (Simulator._time_ms s)
                 (map (admitted_at (Simulator._time_ms s)) due)) new
    /\ forall P : Flow.t -> Prop,
         (forall f f', Flow.start_time_ms f' = Flow.start_time_ms f ->
                       P f -> P f') ->
         Forall P (Simulator.flows s) ->
         (forall f, P (admitted_at (Simulator._time_ms s) f)) ->
         Forall P (Simulator.flows s').
Proof.
  intros (Hdt & Hfl & Hq) E.
  destruct (step_snapshot _ _ _ E)
    as (queue & active & sent & sw & loss & recs & fed
        & Eadm & Esend & Efb & _ & _ & Hflows & Hrecs & Hqueue & _).
  destruct (admit_arrivals_spec _ _ _ _ _ Eadm) as [due [Hsplit Hact]].
  rewrite Hsplit in Hq. apply Forall_app in Hq. destruct Hq as [Hdue _].
  assert (Hunf : Forall (fun f => Flow.finished f = false) active).
  { subst active. apply Forall_app. split.
    - eapply Forall_impl; [| exact Hfl]. now intros f [Hf _].
    - apply Forall_map. eapply Forall_impl; [| exact Hdue].
      now intros f [Hf _]. }
  destruct (send_phase_spec _ _ _ _ _ _ _ _ _ Esend) as [Hout Hcomp].
  specialize (Hcomp Hunf).
  rewrite Hact in Hout. apply Forall2_app_inv_l' in Hout.
  destruct Hout as (sent1 & sent2 & Hsent & Hout1 & Hout2).
  exists due, (completion_records (Simulator._time_ms s) sent1),
    (completion_records (Simulator._time_ms s) sent2).
  split; [now rewrite Hqueue |].
  split; [now rewrite Hrecs, Hcomp, Hsent, completion_records_app |].
  split; [now apply completion_records_of |].
  split; [now apply completion_records_of |].
  intros P Hstart HP Hnew.
  assert (Hsent_P : Forall P sent).
  { rewrite Hsent. apply Forall_app. split.
    - refine (Forall2_transfer _ _ _ _ _ _ Hout1 HP).
      intros x y (_ & _ & _ & _ & _ & Hst & _). now apply Hstart.
    - refine (Forall2_transfer _
                (fun x => exists f0,
                            x = admitted_at (Simulator._time_ms s) f0)
                _ _ _ _ Hout2 _).
      + intros x y (_ & _ & _ & _ & _ & Hst & _) (f0 & ->).
        exact (Hstart _ _ Hst (Hnew f0)).
      + apply Forall_map. apply Forall_forall. intros f0 _. now exists f0. }
  assert (Hfed : Forall P fed).
  { destruct (negb (Simulator.outage_active s')).
    - symmetry in Efb. apply feedback_phase_spec in Efb.
      destruct Efb as (Hid & _).
      refine (Forall2_transfer _ _ _ _ _ _ Hid Hsent_P).
      intros x y (_ & _ & _ & _ & _ & _ & _ & Hst & _). now apply Hstart.
    - injection Efb as -> _ _. exact Hsent_P. }
  rewrite Hflows. now apply Forall_filter.
Qed.

Lemma record_of_admitted (t_ms : Q) (due : list Flow.t) (r : FCTRecord.t) :
  record_of t_ms (map (admitted_at t_ms) due) r ->
  FCTRecord.fct_ms r = t_ms - t_ms
  /\ exists f, In f due /\ FCTRecord.fid r = Flow.fid f.
Proof.
  intros (f & st & Hin & Hst & Hfid & _ & _ & Hfct).
  apply in_map_iff in Hin. destruct Hin as (f0 & <- & Hin0).
  cbn in Hst. inversion Hst; subst st. split; [exact Hfct |].
  exists f0. split; [exact Hin0 | exact Hfid].
Qed.

Lemma between_stamps_more (ms more : list Metrics.t) (x : Q) :
  between_stamps ms x -> between_stamps (ms ++ more) x.
Proof.
  intros (i & j & a & b & Hij & Ha & Hb & Hx).
  exists i, j, a, b. unfold stamps in *. rewrite map_app.
  split; [exact Hij |].
  split; [| split; [| exact Hx]];
    (rewrite nth_error_app1; [assumption |]);
    apply nth_error_Some; congruence.
Qed.

(** The difference of the last stamp and a stamp of the list. *)
Lemma between_stamps_last (l : list Metrics.t) (m : Metrics.t) (st : Q) :
  In st (stamps (l ++ [m])) ->
  between_stamps (l ++ [m]) (Metrics.time_ms m - st).
Proof.
  intros Hin. apply In_nth_error in Hin. destruct Hin as [i Hi].
  assert (Hlen : (i < List.length (stamps (l ++ [m])))%nat).
  { apply nth_error_Some. congruence. }
  unfold stamps in Hlen. rewrite length_map, length_app in Hlen.
  cbn in Hlen.
  exists i, (List.length l), st, (Metrics.time_ms m).
  split; [lia |]. split; [exact Hi |]. split; [| reflexivity].
  unfold stamps. rewrite map_app, nth_error_app2; rewrite length_map;
    [| lia].
  now rewrite Nat.sub_diag.
Qed.

Lemma step_stamps (s s' : Simulator.t G) (calls : list AckCall.t) :
  ready s ->
  Forall (started_at_stamp (Simulator.metrics s) (Simulator._time_ms s))
    (Simulator.flows s) ->
  Simulator._step s = Some (s', calls) ->
  ready s'
  /\ Forall (started_at_stamp (Simulator.metrics s') (Simulator._time_ms s'))
       (Simulator.flows s')
  /\ exists m recs,
       Simulator.metrics s' = Simulator.metrics s ++ [m]
       /\ Simulator.fct_records s' = Simulator.fct_records s ++ recs
       /\ Forall (fun r => between_stamps (Simulator.metrics s')
                             (FCTRecord.fct_ms r)) recs.
Proof.
  intros Hs Hst E.
  assert (Hs' : ready s').
  { destruct (step_ready s Hs) as (s1 & calls1 & sent & E1 & Hs1 & _).
    rewrite E in E1. now inversion E1; subst. }
  destruct (step_snapshot _ _ _ E)
    as (? & ? & ? & sw & ? & ? & ? & _ & _ & _ & _ & Hm & _).
  set (m := snapshot (Simulator._time_ms s) (Simulator.dt_ms s) sw) in *.
  assert (Htm : Metrics.time_ms m = Simulator._time_ms s) by reflexivity.
  destruct (step_fct _ _ _ Hs E)
    as (due & old & new & _ & Hrecs & Hold & Hnew & Hkeep).
  set (P := fun f : Flow.t =>
              exists st, Flow.start_time_ms f = Some st
                         /\ In st (stamps (Simulator.metrics s'))).
  assert (Hnow : In (Simulator._time_ms s) (stamps (Simulator.metrics s'))).
  { rewrite Hm. unfold stamps. rewrite map_app. apply in_or_app.
    right. left. exact Htm. }
  assert (Hflows : Forall P (Simulator.flows s)).
  { eapply Forall_impl; [| exact Hst].
    intros f (st & Hf & [Hin | Heq]); exists st; (split; [exact Hf |]).
    - rewrite Hm. unfold stamps in *. rewrite map_app.
      apply in_or_app. now left.
    - rewrite Heq. exact Hnow. }
  split; [exact Hs' | split].
  - assert (HP : Forall P (Simulator.flows s')).
    { apply Hkeep.
      - intros f f' Hsame (st & Hf & Hin). exists st.
        split; [congruence | exact Hin].
      - exact Hflows.
      - intros f. exists (Simulator._time_ms s). split; [reflexivity |].
        exact Hnow. }
    eapply Forall_impl; [| exact HP].
    intros f (st & Hf & Hin). exists st. split; [exact Hf | now left].
  - exists m, (old ++ new). split; [exact Hm |]. split; [exact Hrecs |].
    apply Forall_app. split.
    + apply Forall_forall. intros r Hr.
      destruct (proj1 (Forall_forall _ _) Hold r Hr)
        as (f & st & Hin & Hf & _ & _ & _ & Hfct).
      destruct (proj1 (Forall_forall _ _) Hflows f Hin) as (st' & Hf' & Hin').
      assert (st' = st) by congruence. subst st'.
      rewrite Hfct. rewrite Hm in Hin' |- *.
      exact (between_stamps_last _ m st Hin').
    + eapply Forall_impl; [| exact Hnew].
      intros r Hr. apply record_of_admitted in Hr. destruct Hr as [Hfct _].
      rewrite Hfct. rewrite Hm in Hnow |- *.
      exact (between_stamps_last _ m (Simulator._time_ms s) Hnow).
Qed.

Lemma run_steps_stamps (n : nat) :
  forall s s' : Simulator.t G,
    ready s ->
    Forall (started_at_stamp (Simulator.metrics s) (Simulator._time_ms s))
      (Simulator.flows s) ->
    Simulator.run_steps n s = Some s' ->
    Forall (started_at_stamp (Simulator.metrics s') (Simulator._time_ms s'))
      (Simulator.flows s')
    /\ exists new recs,
         Simulator.metrics s' = Simulator.metrics s ++ new
         /\ Simulator.fct_records s' = Simulator.fct_records s ++ recs
         /\ Forall (fun r => between_stamps (Simulator.metrics s')
                               (FCTRecord.fct_ms r)) recs.
Proof.
  induction n as [| n IH]; intros s s' Hs Hst E; cbn in E.
  - inversion E; subst. split; [exact Hst |]. exists [], [].
    rewrite !app_nil_r. repeat split. constructor.
  - apply bind_some in E. destruct E as [[s1 calls] [E1 E]].
    destruct (step_stamps _ _ _ Hs Hst E1)
      as (Hs1 & Hst1 & m & recs1 & Hm1 & Hr1 & Hb1).
    destruct (IH _ _ Hs1 Hst1 E) as (Hst' & new & recs & Hm & Hr & Hb).
    split; [exact Hst' |]. exists (m :: new), (recs1 ++ recs).
    split; [rewrite Hm, Hm1, <- app_assoc; reflexivity |].
    split; [now rewrite Hr, Hr1, app_assoc |].
    apply Forall_app. split; [| exact Hb].
    eapply Forall_impl; [| exact Hb1].
    intros r Hr0. rewrite Hm. now apply between_stamps_more.
Qed.

End Stamps.

(** X16.  The completion time of a record counts from the step in which
    the flow became active, not from its scheduled arrival: admission
    overwrites [start_time_ms] with the step time.  A flow that completes
    in the step that admits it is recorded with [fct_ms = t - t] (zero),
    a flow that was active before with the step time minus its start
    time.  Hence, when the active flows became active at the current
    time or at a recorded step (as flows added before the run do), every
    completion time recorded in a run is the time stamp of a metrics
    entry minus the time stamp of that entry or of an earlier one: the
    step of completion and the step of admission. *)
Theorem fct_counts_from_admission {G : Type} `{Generator G}
    (s : Simulator.t G) :
  ready s ->
  (forall s' calls,
      Simulator._step s = Some (s', calls) ->
      exists due old new,
        Simulator.short_flow_queue s = due ++ Simulator.short_flow_queue s'
        /\ Simulator.fct_records s' = Simulator.fct_records s ++ old ++ new
        /\ Forall (record_of (Simulator._time_ms s) (Simulator.flows s)) old
        /\ Forall (fun r =>
                     FCTRecord.fct_ms r
                     = Simulator._time_ms s - Simulator._time_ms s
                     /\ exists f, In f due /\ FCTRecord.fid r = Flow.fid f)
             new)
  /\ (Forall (started_at_stamp (Simulator.metrics s) (Simulator._time_ms s))
        (Simulator.flows s) ->
      forall n s',
        Simulator.run_steps n s = Some s' ->
        Forall (started_at_stamp (Simulator.metrics s')
                  (Simulator._time_ms s')) (Simulator.flows s')
        /\ exists new recs,
             Simulator.metrics s' = Simulator.metrics s ++ new
             /\ Simulator.fct_records s' = Simulator.fct_records s ++ recs
             /\ Forall (fun r => between_stamps (Simulator.metrics s')
                                   (FCTRecord.fct_ms r)) recs).
Proof.
  intros Hs. split.
  - intros s' calls E.
    destruct (step_fct _ _ _ Hs E)
      as (due & old & new & Hq & Hrecs & Hold & Hnew & _).
    exists due, old, new.
    split; [exact Hq | split; [exact Hrecs | split; [exact Hold |]]].
    eapply Forall_impl; [| exact Hnew].
    intros r Hr. exact (record_of_admitted _ _ _ Hr).
  - intros Hst n s' E. exact (run_steps_stamps n _ _ Hs Hst E).
Qed.

Lemma one_short_flow_stamped :
  Forall (started_at_stamp (Simulator.metrics Examples.one_short_flow)
            (Simulator._time_ms Examples.one_short_flow))
    (Simulator.flows Examples.one_short_flow).
Proof.
  repeat constructor;
    (eexists; split; [reflexivity | right; reflexivity]).
Qed.

Lemma fct_counts_from_admission_witness :
  exists new recs,
    Simulator.metrics Cases.short_flow_done
    = Simulator.metrics Examples.one_short_flow ++ new
    /\ Simulator.fct_records Cases.short_flow_done
       = Simulator.fct_records Examples.one_short_flow ++ recs
    /\ Forall (fun r => between_stamps (Simulator.metrics Cases.short_flow_done)
                          (FCTRecord.fct_ms r)) recs.
Proof.
  apply (proj2 (fct_counts_from_admission Examples.one_short_flow
                  one_short_flow_ready)
           one_short_flow_stamped 2%nat Cases.short_flow_done).
  exact short_flow_done_run.
Defined.

(** ** Trials: what the drivers' [run_single] returns *)

Lemma numbered_gives (cc : string) (rtt_base_ms : Q) (size : xfloat)
    (times : list Q) :
  forall fid,
    Forall (fun f => (fid <= Flow.fid f)%Z
                     /\ Flow.cc f = cc /\ Flow.size_bytes f = size)
      (numbered cc rtt_base_ms size fid times).
Proof.
  induction times as [| t times IH]; intros fid; cbn.
  - constructor.
  - constructor; [cbn; repeat split; lia |].
    eapply Forall_impl; [| apply (IH (fid + 1)%Z)].
    intros f (Hfid & Hcc & Hsz). repeat split; [lia | exact Hcc | exact Hsz].
Qed.

Lemma long_flows_constructed (n : nat) (cc : string) (rtt_base_ms : Q) :
  forall fid, Forall adds_constructed (long_flows n cc rtt_base_ms fid).
Proof.
  induction n as [| n IH]; intros fid; cbn; constructor.
  - now exists fid, cc, rtt_base_ms, PosInf.
  - apply IH.
Qed.

Lemma long_flows_gives (P : Z -> string -> xfloat -> Prop) (n : nat)
    (cc : string) (rtt_base_ms : Q) :
  (forall fid, P fid cc PosInf) ->
  forall fid, Forall (call_gives P) (long_flows n cc rtt_base_ms fid).
Proof.
  intros HP. induction n as [| n IH]; intros fid; cbn; constructor.
  - apply HP.
  - apply IH.
Qed.

Section Trial.

Context {G : Type} `{Generator G}.

Lemma set_up_alike_refl (s : Simulator.t G) : set_up_alike s s.
Proof. now repeat split. Qed.

Lemma set_up_alike_trans (s1 s2 s3 : Simulator.t G) :
  set_up_alike s1 s2 -> set_up_alike s2 s3 -> set_up_alike s1 s3.
Proof.
  unfold set_up_alike. intros (? & ? & ? & ? & ? & ?) (? & ? & ? & ? & ? & ?).
  repeat split; congruence.
Qed.

Lemma perform_alike (s s' : Simulator.t G) (c : call) :
  perform s c = Some s' -> set_up_alike s s'.
Proof.
  destruct c as [flow | fuel lam size cc rtt | p d j]; cbn; intros E.
  - inversion E; subst. now repeat split.
  - destruct (schedule_short_flows_spec _ _ _ _ _ _ _ E)
      as (_ & _ & _ & Hr & Hm & Hsw & Ht & Hdt & Hdur).
    now repeat split.
  - inversion E; subst. now repeat split.
Qed.

Lemma perform_all_alike (script : list call) :
  forall s s' : Simulator.t G,
    perform_all s script = Some s' -> set_up_alike s s'.
Proof.
  induction script as [| c script IH]; intros s s' E; cbn in E.
  - inversion E; subst. apply set_up_alike_refl.
  - apply bind_some in E. destruct E as [s1 [E1 E]].
    eapply set_up_alike_trans; [exact (perform_alike _ _ _ E1) | eauto].
Qed.

Lemma perform_gives (P : Z -> string -> xfloat -> Prop)
    (s s' : Simulator.t G) (c : call) :
  call_gives P c ->
  (forall f, In f (Simulator.flows s ++ Simulator.short_flow_queue s) ->
             P (Flow.fid f) (Flow.cc f) (Flow.size_bytes f)) ->
  perform s c = Some s' ->
  forall f, In f (Simulator.flows s' ++ Simulator.short_flow_queue s') ->
            P (Flow.fid f) (Flow.cc f) (Flow.size_bytes f).
Proof.
  destruct c as [flow | fuel lam size cc rtt | p d j]; cbn;
    intros Hc HP E f Hin.
  - inversion E; subst; clear E. cbn in Hin.
    rewrite <- app_assoc in Hin. apply in_app_iff in Hin.
    destruct Hin as [Hin | Hin].
    + apply HP. apply in_app_iff. now left.
    + cbn in Hin. destruct Hin as [<- | Hin]; [exact Hc |].
      apply HP. apply in_app_iff. now right.
  - destruct (schedule_short_flows_spec _ _ _ _ _ _ _ E)
      as (_ & (times & Hperm & _) & Hfl & _).
    rewrite Hfl in Hin. apply in_app_iff in Hin.
    destruct Hin as [Hin | Hin].
    + apply HP. apply in_app_iff. now left.
    + apply (Permutation_in _ (Permutation_sym Hperm)) in Hin.
      apply in_app_iff in Hin. destruct Hin as [Hin | Hin].
      * apply HP. apply in_app_iff. now right.
      * pose proof (numbered_gives cc rtt size times 10000%Z) as Hn.
        destruct (proj1 (Forall_forall _ _) Hn f Hin) as (Hfid & -> & ->).
        now apply Hc.
  - inversion E; subst; clear E. now apply HP.
Qed.

Lemma perform_all_gives (P : Z -> string -> xfloat -> Prop)
    (script : list call) :
  forall s s' : Simulator.t G,
    Forall (call_gives P) script ->
    (forall f, In f (Simulator.flows s ++ Simulator.short_flow_queue s) ->
               P (Flow.fid f) (Flow.cc f) (Flow.size_bytes f)) ->
    perform_all s script = Some s' ->
    forall f, In f (Simulator.flows s' ++ Simulator.short_flow_queue s') ->
              P (Flow.fid f) (Flow.cc f) (Flow.size_bytes f).
Proof.
  induction script as [| c script IH]; intros s s' Hall HP E; cbn in E.
  - now inversion E; subst.
  - inversion Hall; subst.
    apply bind_some in E. destruct E as [s1 [E1 E]].
    eapply IH; [eassumption | | exact E].
    eapply perform_gives; eauto.
Qed.

Lemma perform_stamps (s s' : Simulator.t G) (c : call) :
  Forall (started_at_stamp (Simulator.metrics s) (Simulator._time_ms s))
    (Simulator.flows s) ->
  perform s c = Some s' ->
  Forall (started_at_stamp (Simulator.metrics s') (Simulator._time_ms s'))
    (Simulator.flows s').
Proof.
  destruct c as [flow | fuel lam size cc rtt | p d j]; cbn; intros Hg E.
  - inversion E; subst; clear E. cbn. apply Forall_app. split; [exact Hg |].
    constructor; [| constructor].
    exists (Simulator._time_ms s). split; [reflexivity | now right].
  - destruct (schedule_short_flows_spec _ _ _ _ _ _ _ E)
      as (_ & _ & Hfl & _ & Hm & _ & Ht & _).
    now rewrite Hfl, Hm, Ht.
  - inversion E; subst; clear E. exact Hg.
Qed.

Lemma perform_all_stamps (script : list call) :
  forall s s' : Simulator.t G,
    Forall (started_at_stamp (Simulator.metrics s) (Simulator._time_ms s))
      (Simulator.flows s) ->
    perform_all s script = Some s' ->
    Forall (started_at_stamp (Simulator.metrics s') (Simulator._time_ms s'))
      (Simulator.flows s').
Proof.
  induction script as [| c script IH]; intros s s' Hg E; cbn in E.
  - now inversion E; subst.
  - apply bind_some in E. destruct E as [s1 [E1 E]].
    eapply IH; [| exact E]. eapply perform_stamps; eauto.
Qed.

Lemma trial_inv (fdiv : Q -> Q -> Q) (dt_ms duration_ms : Q)
    (sw : option Switch.t) (seed : G)
    (script : list call) (metrics : list Metrics.t)
    (fcts : list FCTRecord.t) :
  trial fdiv dt_ms duration_ms sw seed script = Some (metrics, fcts) ->
  exists s s',
    perform_all (Simulator.init dt_ms duration_ms sw seed) script = Some s
    /\ set_up_alike (Simulator.init dt_ms duration_ms sw seed) s
    /\ ~ dt_ms == 0
    /\ Simulator.run_steps
         (Z.to_nat (int_of_float (fdiv duration_ms dt_ms))) s = Some s'
    /\ metrics = Simulator.metrics s'
    /\ fcts = Simulator.fct_records s'.
Proof.
  unfold trial. intros E.
  apply bind_some in E. destruct E as [s [Es E]].
  apply bind_some in E. destruct E as [[s' out] [Erun E]].
  inversion E; subst out; clear E.
  pose proof (perform_all_alike _ _ _ Es) as Halike.
  destruct Halike as (Hdt & Hdur & Hrest). cbn in Hdt, Hdur.
  destruct (run_inv _ _ _ _ Erun) as (Hne & Esteps & Hout).
  rewrite Hdt in Hne. rewrite Hdt, Hdur in Esteps.
  exists s, s'. split; [exact Es |].
  split; [now repeat split |].
  split; [exact Hne |]. split; [exact Esteps |].
  inversion Hout. now split.
Qed.

(** A trial returns the records of short flows only and one metrics
    entry per step, and, with a positive step and a switch within its
    bounds, entries within bounds and completion times that are
    differences of their time stamps. *)
Lemma trial_outcome (P : Z -> string -> xfloat -> Prop)
    (fdiv : Q -> Q -> Q) (dt_ms duration_ms : Q) (sw : Switch.t) (seed : G)
    (script : list call) (metrics : list Metrics.t)
    (fcts : list FCTRecord.t) :
  Forall (call_gives P) script ->
  Forall adds_constructed script ->
  trial fdiv dt_ms duration_ms (Some sw) seed script = Some (metrics, fcts) ->
  Forall (fun r => lt_inf (FCTRecord.size_bytes r) = true
                   /\ P (FCTRecord.fid r) (FCTRecord.cc r)
                        (FCTRecord.size_bytes r)) fcts
  /\ List.length metrics = Z.to_nat (int_of_float (fdiv duration_ms dt_ms))
  /\ (0 < dt_ms ->
      switch_inv sw ->
      Forall (metric_in_bounds (Switch.buffer_bytes sw) dt_ms) metrics
      /\ Forall (fun r => between_stamps metrics (FCTRecord.fct_ms r)) fcts).
Proof.
  intros Hgives Hcons E.
  destruct (trial_inv _ _ _ _ _ _ _ _ E)
    as (s & s' & Es & (Hdt & Hdur & Hsw & Hm & Hr & Ht) & Hne & Esteps
        & -> & ->).
  cbn in Hdt, Hdur, Hsw, Hm, Hr, Ht.
  assert (HP : forall f,
             In f (Simulator.flows s ++ Simulator.short_flow_queue s) ->
             P (Flow.fid f) (Flow.cc f) (Flow.size_bytes f)).
  { refine (perform_all_gives P script _ _ Hgives _ Es).
    intros f []. }
  destruct (run_steps_records P _ _ _ HP Esteps) as (_ & recs & Hrecs & Hall).
  rewrite Hr in Hrecs. cbn in Hrecs. subst recs.
  split; [exact Hall |].
  destruct (run_steps_metrics _ _ _ Esteps) as (new & Hnew & Hlen & _).
  rewrite Hm in Hnew. cbn in Hnew.
  split; [now rewrite Hnew |].
  intros Hpos Hinv.
  assert (Hready : ready s).
  { refine (perform_all_ready script _ _ _ Hcons Es).
    apply init_ready. lra. }
  assert (Hfloor : all_cwnd_floor s).
  { refine (perform_all_floor script _ _ _ Hcons Es).
    apply init_all_floor. }
  assert (Hst : Forall (started_at_stamp (Simulator.metrics s)
                          (Simulator._time_ms s)) (Simulator.flows s)).
  { refine (perform_all_stamps script _ _ _ Es). constructor. }
  split.
  - destruct (run_steps_metrics_bounds
                (Z.to_nat (int_of_float (fdiv duration_ms dt_ms))) s s')
      as (new' & Hnew' & Hb);
      [rewrite Hdt; lra | exact Hfloor | now rewrite Hsw | exact Esteps |].
    rewrite Hm in Hnew'. cbn in Hnew'. rewrite Hnew'.
    now rewrite Hsw, Hdt in Hb.
  - destruct (run_steps_stamps _ _ _ Hready Hst Esteps)
      as (_ & new' & recs & _ & Hrecs & Hb).
    rewrite Hr in Hrecs. cbn in Hrecs. rewrite Hrecs. exact Hb.
Qed.

End Trial.

(** The records of short flows tagged ["reno"] or ["dctcp"] split into
    the two lists [summarise] makes of them. *)
Lemma fcts_of_split (fcts : list FCTRecord.t) :
  Forall (fun r => In (FCTRecord.cc r) ["reno"; "dctcp"]%string) fcts ->
  List.length fcts
  = (List.length (fcts_of "reno" fcts)
     + List.length (fcts_of "dctcp" fcts))%nat.
Proof.
  unfold fcts_of. induction fcts as [| r fcts IH]; intros Hall.
  - reflexivity.
  - inversion Hall as [| ? ? Hr Hrest]; subst. specialize (IH Hrest).
    cbn [filter].
    destruct Hr as [Hr | [Hr | []]]; rewrite <- Hr; cbn; rewrite IH; lia.
Qed.

Lemma fcts_of_same (cc : string) (fcts : list FCTRecord.t) :
  Forall (fun r => FCTRecord.cc r = cc) fcts ->
  fcts_of cc fcts = map FCTRecord.fct_ms fcts.
Proof.
  unfold fcts_of. induction fcts as [| r fcts IH]; intros Hall.
  - reflexivity.
  - inversion Hall as [| ? ? Hr Hrest]; subst.
    cbn [filter]. rewrite String.eqb_refl. cbn. now rewrite IH.
Qed.

Lemma dc_script_constructed (fuel : nat) (cfg : DcExperiment.config) :
  Forall adds_constructed (DcExperiment.script fuel cfg).
Proof.
  unfold DcExperiment.script. cbv zeta.
  apply Forall_app. split; [apply long_flows_constructed |].
  apply Forall_app. split; [apply long_flows_constructed |].
  repeat constructor.
Qed.

Lemma dc_script_gives (fuel : nat) (cfg : DcExperiment.config) :
  Forall (call_gives
            (long_or_short ["reno"; "dctcp"]%string
               (DcExperiment.short_size_bytes cfg)))
    (DcExperiment.script fuel cfg).
Proof.
  unfold DcExperiment.script. cbv zeta.
  apply Forall_app. split; [apply long_flows_gives; intros; now left |].
  apply Forall_app. split; [apply long_flows_gives; intros; now left |].
  constructor; [| constructor; [| constructor]];
    intros fid Hfid; right; cbn; auto.
Qed.

Lemma space_script_constructed (fuel : nat) (cfg : SpaceExperiment.config)
    (cc : string) :
  Forall adds_constructed (SpaceExperiment.script fuel cfg cc).
Proof.
  unfold SpaceExperiment.script. constructor; [exact I |].
  apply Forall_app. split; [apply long_flows_constructed |].
  repeat constructor.
Qed.

Lemma space_script_gives (fuel : nat) (cfg : SpaceExperiment.config)
    (cc : string) :
  Forall (call_gives
            (long_or_short [cc] (SpaceExperiment.short_size_bytes cfg)))
    (SpaceExperiment.script fuel cfg cc).
Proof.
  unfold SpaceExperiment.script. constructor; [exact I |].
  apply Forall_app. split; [apply long_flows_gives; intros; now left |].
  constructor; [| constructor].
  intros fid Hfid; right; cbn; auto.
Qed.

Lemma long_or_short_record (ccs : list string) (size : xfloat)
    (fcts : list FCTRecord.t) :
  Forall (fun r => lt_inf (FCTRecord.size_bytes r) = true
                   /\ long_or_short ccs size (FCTRecord.fid r)
                        (FCTRecord.cc r) (FCTRecord.size_bytes r)) fcts ->
  Forall (short_record ccs size) fcts.
Proof.
  intros Hall. eapply Forall_impl; [| exact Hall].
  intros r [Hfin [Hinf | (Hfid & Hcc & Hsz)]].
  - rewrite Hinf in Hfin. discriminate.
  - now repeat split.
Qed.

(** ** The drivers *)

(** X17.  A data-center trial ([dc_experiment.run_single]) returns one
    metrics entry per step, [int(q)] of them for the float quotient [q]
    of [duration_ms] and [dt_ms], and completion records of short flows
    only: each has an id from 10000 on, the tag ["reno"] or ["dctcp"] and
    the configured finite size; the long flows never complete.  So the
    column [num_short_flows] of [summarise] is the number of samples of
    the two percentile columns together, and it is 0 exactly when both
    are [None].  With a positive step and a buffer that is not negative
    every metrics entry is within the physical bounds and every
    completion time is the time stamp of a returned metrics entry minus
    that of the same or an earlier entry. *)
Theorem dc_trial_outcome {G : Type} `{Generator G} (fdiv : Q -> Q -> Q)
    (fuel : nat) (cfg : DcExperiment.config) (rng : G)
    (metrics : list Metrics.t) (fcts : list FCTRecord.t) :
  DcExperiment.run_single fdiv fuel cfg rng = Some (metrics, fcts) ->
  Forall (short_record ["reno"; "dctcp"]%string
            (DcExperiment.short_size_bytes cfg)) fcts
  /\ List.length metrics
     = Z.to_nat (int_of_float
                   (fdiv (DcExperiment.duration_ms cfg)
                      (DcExperiment.dt_ms cfg)))
  /\ (forall (mean : list Q -> Q) (percentile : list Q -> Q -> Q) (seed : Z),
         DcExperiment.num_short_flows
           (DcExperiment.summarise mean percentile metrics fcts seed)
         = Z.of_nat (List.length (fcts_of "reno" fcts)
                     + List.length (fcts_of "dctcp" fcts))
         /\ (DcExperiment.num_short_flows
               (DcExperiment.summarise mean percentile metrics fcts seed)
             = 0%Z
             <-> DcExperiment.reno_fct_p99_ms
                   (DcExperiment.summarise mean percentile metrics fcts seed)
                 = None
                 /\ DcExperiment.dctcp_fct_p99_ms
                      (DcExperiment.summarise mean percentile metrics fcts
                         seed)
                    = None))
  /\ (0 < DcExperiment.dt_ms cfg ->
      (0 <= DcExperiment.buffer_pkts cfg)%Z ->
      Forall (metric_in_bounds (DcExperiment.buffer_pkts cfg * PKT_BYTES)
                (DcExperiment.dt_ms cfg)) metrics
      /\ Forall (fun r => between_stamps metrics (FCTRecord.fct_ms r))
           fcts).
Proof.
  unfold DcExperiment.run_single. cbv zeta. intros E.
  destruct (trial_outcome _ _ _ _ _ _ _ _ _ (dc_script_gives fuel cfg)
              (dc_script_constructed fuel cfg) E)
    as (Hrecs & Hlen & Hbounds).
  apply long_or_short_record in Hrecs.
  assert (Hcount : List.length fcts
                   = (List.length (fcts_of "reno" fcts)
                      + List.length (fcts_of "dctcp" fcts))%nat).
  { apply fcts_of_split. eapply Forall_impl; [| exact Hrecs].
    now intros r (_ & Hcc & _). }
  split; [exact Hrecs | split; [exact Hlen | split]].
  - intros mean percentile seed. cbn.
    split; [now rewrite Hcount |].
    rewrite Hcount.
    destruct (fcts_of "reno" fcts), (fcts_of "dctcp" fcts); cbn;
      split; try lia; try (intros [? ?]; discriminate); auto.
  - intros Hpos Hbuf.
    apply Hbounds; [exact Hpos | now apply init_inv].
Qed.

Lemma dc_out_run :
  DcExperiment.run_single Trials.quotient 10 Trials.dc_cfg Examples.seed
  = Some (fst Trials.dc_out, snd Trials.dc_out).
Proof. vm_compute. reflexivity. Qed.

Lemma dc_trial_outcome_witness :
  Forall (short_record ["reno"; "dctcp"]%string
            (DcExperiment.short_size_bytes Trials.dc_cfg))
    (snd Trials.dc_out)
  /\ List.length (fst Trials.dc_out) = 2%nat.
Proof.
  pose proof (dc_trial_outcome Trials.quotient 10 Trials.dc_cfg Examples.seed
                (fst Trials.dc_out) (snd Trials.dc_out) dc_out_run)
    as (Hrecs & Hlen & _).
  split; [exact Hrecs | exact Hlen].
Defined.

(** X18.  A space trial ([space_experiment.run_single]) of the variant
    [cc] returns one metrics entry per step and completion records of
    short flows only, all of them tagged [cc], with an id from 10000 on
    and the configured finite size: the list of completion times that
    [summarise] takes unfiltered is the list of the variant's own flows.
    The number of entries is [int(q)] for the float quotient [q] of
    [duration_ms] and [dt_ms].  With a positive step and a buffer that is
    not negative every metrics entry is within the physical bounds and
    every completion time is the time stamp of a returned metrics entry
    minus that of the same or an earlier entry, whatever the outage and
    jitter parameters. *)
Theorem space_trial_outcome {G : Type} `{Generator G} (fdiv : Q -> Q -> Q)
    (fuel : nat) (cfg : SpaceExperiment.config) (cc : string) (rng : G)
    (metrics : list Metrics.t) (fcts : list FCTRecord.t) :
  SpaceExperiment.run_single fdiv fuel cfg cc rng = Some (metrics, fcts) ->
  Forall (short_record [cc] (SpaceExperiment.short_size_bytes cfg)) fcts
  /\ fcts_of cc fcts = map FCTRecord.fct_ms fcts
  /\ List.length metrics
     = Z.to_nat (int_of_float
                   (fdiv (SpaceExperiment.duration_ms cfg)
                      (SpaceExperiment.dt_ms cfg)))
  /\ (0 < SpaceExperiment.dt_ms cfg ->
      (0 <= SpaceExperiment.buffer_pkts cfg)%Z ->
      Forall (metric_in_bounds (SpaceExperiment.buffer_pkts cfg * PKT_BYTES)
                (SpaceExperiment.dt_ms cfg)) metrics
      /\ Forall (fun r => between_stamps metrics (FCTRecord.fct_ms r))
           fcts).
Proof.
  unfold SpaceExperiment.run_single. cbv zeta. intros E.
  destruct (trial_outcome _ _ _ _ _ _ _ _ _ (space_script_gives fuel cfg cc)
              (space_script_constructed fuel cfg cc) E)
    as (Hrecs & Hlen & Hbounds).
  apply long_or_short_record in Hrecs.
  split; [exact Hrecs | split; [| split; [exact Hlen |]]].
  - apply fcts_of_same. eapply Forall_impl; [| exact Hrecs].
    intros r (_ & [Hcc | []] & _). now symmetry.
  - intros Hpos Hbuf.
    apply Hbounds; [exact Hpos | now apply init_inv].
Qed.

Lemma space_out_run :
  SpaceExperiment.run_single Trials.quotient 10 Trials.space_cfg "spacecc"
    Examples.seed
  = Some (fst Trials.space_out, snd Trials.space_out).
Proof. vm_compute. reflexivity. Qed.

Lemma space_trial_outcome_witness :
  Forall (short_record ["spacecc"%string]
            (SpaceExperiment.short_size_bytes Trials.space_cfg))
    (snd Trials.space_out)
  /\ fcts_of "spacecc" (snd Trials.space_out)
     = map FCTRecord.fct_ms (snd Trials.space_out).
Proof.
  pose proof (space_trial_outcome Trials.quotient 10 Trials.space_cfg
                "spacecc" Examples.seed
                (fst Trials.space_out) (snd Trials.space_out) space_out_run)
    as (Hrecs & Hsame & _).
  split; [exact Hrecs | exact Hsame].
Defined.

(** ** Scheduling with an arrival rate of zero *)

Lemma perform_all_app {G : Type} `{Generator G} (l1 l2 : list call) :
  forall s : Simulator.t G,
    perform_all s (l1 ++ l2)
    = bind (perform_all s l1) (fun s1 => perform_all s1 l2).
Proof.
  induction l1 as [| c l1 IH]; intros s; cbn.
  - reflexivity.
  - destruct (perform s c) as [s1 |]; cbn; [apply IH | reflexivity].
Qed.

Lemma long_flows_performed {G : Type} `{Generator G} (n : nat) (cc : string)
    (rtt_base_ms : Q) :
  forall (fid : Z) (s : Simulator.t G),
    exists s',
      perform_all s (long_flows n cc rtt_base_ms fid) = Some s'
      /\ Simulator.duration_ms s' = Simulator.duration_ms s.
Proof.
  induction n as [| n IH]; intros fid s; cbn.
  - now exists s.
  - destruct (IH (fid + 1)%Z
                (Simulator.add_flow s (Flow.init fid cc rtt_base_ms PosInf)))
      as (s' & E & Hdur).
    exists s'. split; [exact E | exact Hdur].
Qed.

Lemma schedule_zero_rate {G : Type} `{Generator G} (fuel : nat)
    (s : Simulator.t G) (lam : Q) (size : xfloat) (cc : string)
    (rtt_base_ms : Q) :
  lam == 0 ->
  0 < Simulator.duration_ms s ->
  Simulator.schedule_short_flows fuel s lam size cc rtt_base_ms = None.
Proof.
  intros Hlam Hdur. unfold Simulator.schedule_short_flows.
  assert (Hloop : Simulator.schedule_loop fuel (Simulator.duration_ms s) lam
                    size cc rtt_base_ms 0.0 10000%Z (Simulator.rng s)
                    (Simulator.short_flow_queue s) = None).
  { assert (Hlt : Qltb 0.0 (Simulator.duration_ms s) = true)
      by (apply Qltb_lt; lra).
    apply Qeq_bool_iff in Hlam.
    destruct fuel; cbn; rewrite Hlt; [reflexivity |].
    now rewrite Hlam. }
  now rewrite Hloop.
Qed.

(** X19.  [schedule_short_flows] divides by the arrival rate inside its
    loop: with [lam_per_sec] zero and a positive duration it raises, and
    so does [run_single] of either driver on a configuration whose
    [short_lambda] is zero.  With a duration that is not positive the
    loop is not entered: nothing is drawn and, on an empty pending queue,
    the simulator is left as it was, whatever the rate. *)
Theorem zero_arrival_rate_raises {G : Type} `{Generator G} :
  (forall (fuel : nat) (s : Simulator.t G) (lam : Q) (size : xfloat)
          (cc : string) (rtt_base_ms : Q),
      (lam == 0 ->
       0 < Simulator.duration_ms s ->
       Simulator.schedule_short_flows fuel s lam size cc rtt_base_ms = None)
      /\ (Simulator.duration_ms s <= 0 ->
          Simulator.short_flow_queue s = [] ->
          Simulator.schedule_short_flows fuel s lam size cc rtt_base_ms
          = Some s))
  /\ (forall (fdiv : Q -> Q -> Q) (fuel : nat) (cfg : DcExperiment.config)
             (rng : G),
         DcExperiment.short_lambda cfg == 0 ->
         0 < DcExperiment.duration_ms cfg ->
         DcExperiment.run_single fdiv fuel cfg rng = None)
  /\ (forall (fdiv : Q -> Q -> Q) (fuel : nat)
             (cfg : SpaceExperiment.config) (cc : string) (rng : G),
         SpaceExperiment.short_lambda cfg == 0 ->
         0 < SpaceExperiment.duration_ms cfg ->
         SpaceExperiment.run_single fdiv fuel cfg cc rng = None).
Proof.
  split; [| split].
  - intros fuel s lam size cc rtt. split.
    + apply schedule_zero_rate.
    + intros Hdur Hq. unfold Simulator.schedule_short_flows.
      assert (Hlt : Qltb 0.0 (Simulator.duration_ms s) = false).
      { destruct (Qltb 0.0 (Simulator.duration_ms s)) eqn:E; [| reflexivity].
        apply Qltb_lt in E. lra. }
      assert (Hloop : Simulator.schedule_loop fuel (Simulator.duration_ms s)
                        lam size cc rtt 0.0 10000%Z (Simulator.rng s)
                        (Simulator.short_flow_queue s)
                      = Some (Simulator.rng s, Simulator.short_flow_queue s)).
      { destruct fuel; cbn; now rewrite Hlt. }
      rewrite Hloop, Hq. cbn. destruct s. cbn in *. now subst.
  - intros fdiv fuel cfg rng Hlam Hdur.
    unfold DcExperiment.run_single, DcExperiment.script, trial. cbv zeta.
    rewrite perform_all_app.
    destruct (long_flows_performed
                (Z.to_nat (DcExperiment.long_flows_per_cc cfg)) "reno"
                (DcExperiment.rtt_base_ms cfg) 0%Z
                (Simulator.init (DcExperiment.dt_ms cfg)
                   (DcExperiment.duration_ms cfg)
                   (Some (Switch.init (DcExperiment.buffer_pkts cfg)
                            (DcExperiment.ecn_thresh_pkts cfg))) rng))
      as (s1 & E1 & Hd1).
    rewrite E1. cbn [bind]. rewrite perform_all_app.
    destruct (long_flows_performed
                (Z.to_nat (DcExperiment.long_flows_per_cc cfg)) "dctcp"
                (DcExperiment.rtt_base_ms cfg)
                (0 + Z.of_nat (Z.to_nat (DcExperiment.long_flows_per_cc cfg)))%Z
                s1)
      as (s2 & E2 & Hd2).
    rewrite E2. cbn [bind perform_all perform].
    rewrite schedule_zero_rate; [reflexivity | exact Hlam |].
    rewrite Hd2, Hd1. exact Hdur.
  - intros fdiv fuel cfg cc rng Hlam Hdur.
    unfold SpaceExperiment.run_single, SpaceExperiment.script, trial.
    cbv zeta. cbn [perform_all perform bind].
    rewrite perform_all_app.
    match goal with
    | |- context [perform_all ?s0 (long_flows ?n ?c ?r ?f)] =>
        destruct (long_flows_performed n c r f s0) as (s1 & E1 & Hd1)
    end.
    rewrite E1. cbn [bind perform_all perform].
    rewrite schedule_zero_rate; [reflexivity | exact Hlam |].
    rewrite Hd1. exact Hdur.
Qed.

Lemma zero_arrival_rate_raises_witness :
  Simulator.schedule_short_flows 10
    (Simulator.init 0.5 1.5 None Examples.seed) 0 (Fin 1000) "reno" 1
  = None.
Proof.
  apply (proj1 (proj1 zero_arrival_rate_raises 10%nat
                  (Simulator.init 0.5 1.5 None Examples.seed) 0
                  (Fin 1000) "reno"%string 1));
    reflexivity.
Defined.
